(** * jtorch: Linear and SpatialDivisiveNormalization stages

    A shallow embedding of [src/jtorch/linear.cpp] and
    [src/jtorch/spatial_divisive_normalization.cpp]: the stage objects, the
    device buffers they own, the work partition of the threaded
    matrix-vector kernel, the kernels of [kLinearKernel], and the two
    [loadFromFile] factories. *)

From Stdlib Require Import ZArith List Bool Lia Znumtheory.
From stdpp Require Import base option list gmap.

Local Open Scope Z_scope.

(** ** Machine integers

    [uint32_t] and [int32_t] values are integers in [Z]; a conversion to
    either type is written out as its wrap-around. *)

Definition to_u32 (z : Z) : Z := z mod 2 ^ 32.

Definition to_i32 (z : Z) : Z := (z + 2 ^ 31) mod 2 ^ 32 - 2 ^ 31.

(** [std::min<int32_t>(a, b)]: both arguments are converted to [int32_t]
    before they are compared. *)
Definition min_i32 (a b : Z) : Z := Z.min (to_i32 a) (to_i32 b).

(** ** Outcomes

    An exception, a failed [RASSERT] and the undefined behaviours the code
    can run into are results of their own. *)

Inductive error : Type :=
  | InvalidShapeError        (* Tensor constructor refused the extents *)
  | InvalidKernelShapeError  (* the runtime_error of the normalization stage *)
  | TypeMismatchError        (* input is not TENSOR_DATA *)
  | InvalidWorkSizeError     (* launch refused the local size *)
  | AssertionFailure         (* RASSERT *)
  | NullPointerDereference   (* -> on a NULL member *)
  | DivisionByZero           (* / or % with a zero divisor *)
  | BadArrayLength           (* new T[n] with n negative *)
  | DanglingBuffer           (* a handle whose buffer was released *)
  | HostBufferOverrun        (* setData from a host array that is too short *)
  | OutOfFuel.

Inductive result (A : Type) : Type :=
  | Ok (a : A)
  | Err (e : error).
Arguments Ok {A} a.
Arguments Err {A} e.

Definition rbind {A B} (m : result A) (k : A -> result B) : result B :=
  match m with
  | Ok a => k a
  | Err e => Err e
  end.

Notation "x <- m ;; k" := (rbind m (fun x => k))
  (at level 20, m at level 99, k at level 200, only parsing).
Notation "' x <- m ;; k" := (rbind m (fun x => k))
  (at level 20, x pattern, m at level 99, k at level 200, only parsing).

(** ** Device limits

    What [queryMaxWorkgroupSizeForCurKernel], [getMaxWorkitemSize] and
    [getMaxWorkgroupSize] report; each is stored by the caller in a
    [uint32_t]. *)

Record DeviceLimits : Type := {
  max_workitem_size : Z * Z * Z;     (* getMaxWorkitemSize(deviceid, 0..2) *)
  max_workgroup_size : Z;            (* getMaxWorkgroupSize(deviceid) *)
  max_workgroup_size_kernel : Z      (* queryMaxWorkgroupSizeForCurKernel *)
}.

Definition workitem_size (lim : DeviceLimits) (i : nat) : Z :=
  let '(a, b, c) := max_workitem_size lim in
  match i with
  | O => a
  | S O => b
  | _ => c
  end.

(** ** The work partition of [Linear::forwardProp] (lines 117-138) *)

Module Partition.

(** [uint32_t p = std::min<int32_t>(16, std::min<int32_t>(max_item_size[1],
    max_worksize));] *)
Definition column_factor (max_item_size1 max_worksize : Z) : Z :=
  to_u32 (min_i32 16 (min_i32 max_item_size1 max_worksize)).

(** [std::min<int>(n_outputs_ / p + 1, getMaxWorkgroupSize(deviceid) / p)],
    stored in [uint32_t local_size[0]].  Both quotients are unsigned. *)
Definition row_factor_start (n_outputs p dev_max : Z) : result Z :=
  if p =? 0 then Err DivisionByZero
  else Ok (to_u32 (min_i32 (to_u32 (n_outputs / p + 1)) (dev_max / p))).

(** The condition of the [while]: [n_outputs_ % local_size[0]] is evaluated
    first, so a zero [local_size[0]] is a division by zero. *)
Definition shrink_cond (n_outputs ls0 ls1 max_worksize : Z) : bool :=
  (negb (n_outputs mod ls0 =? 0) || (max_worksize <? to_u32 (ls0 * ls1)))
  && (1 <? ls0).

Fixpoint shrink (fuel : nat) (n_outputs ls0 ls1 max_worksize : Z)
  : result Z :=
  if ls0 =? 0 then Err DivisionByZero
  else if shrink_cond n_outputs ls0 ls1 max_worksize then
    match fuel with
    | O => Err OutOfFuel
    | S fuel' =>
        shrink fuel' n_outputs (to_u32 (ls0 - 1)) ls1 max_worksize
    end
  else Ok ls0.

(** [global_size] and [local_size] as they are handed to [runKernel]. *)
Record sizes : Type := {
  global_size : Z * Z;
  local_size : Z * Z
}.

Definition work_partition (lim : DeviceLimits) (n_outputs : Z)
  : result sizes :=
  let max_worksize := max_workgroup_size_kernel lim in
  let p := column_factor (workitem_size lim 1) max_worksize in
  ls0 <- row_factor_start n_outputs p (max_workgroup_size lim) ;;
  ls0' <- shrink (Z.to_nat ls0) n_outputs ls0 p max_worksize ;;
  Ok {| global_size := (n_outputs, p); local_size := (ls0', p) |}.

(** *** The heuristic in the words of the specification, over the
    mathematical integers *)

Definition spec_column_factor (max_item_size1 kernel_max : Z) : Z :=
  Z.min 16 (Z.min max_item_size1 kernel_max).

Definition spec_row_start (rows p dev_max : Z) : Z :=
  Z.min (rows / p + 1) (dev_max / p).

(** "decremented by 1 while it does not evenly divide the output row count
    or the row x column product exceeds the kernel's max work-group size,
    stopping when it reaches 1" *)
Inductive spec_shrink (rows p kernel_max : Z) : Z -> Z -> Prop :=
  | spec_shrink_fits r :
      (r | rows) -> r * p <= kernel_max -> spec_shrink rows p kernel_max r r
  | spec_shrink_one :
      spec_shrink rows p kernel_max 1 1
  | spec_shrink_dec r r' :
      ~ ((r | rows) /\ r * p <= kernel_max) ->
      1 < r ->
      spec_shrink rows p kernel_max (r - 1) r' ->
      spec_shrink rows p kernel_max r r'.

End Partition.


(** ** Floats

    The stages compute on 32-bit floats.  The embedding is generic in the
    float type and its operations; a statement that relies on an algebraic
    law of them names the law among its hypotheses ([ExactSum],
    [ExactProduct] below), every other statement holds for whatever the
    operations are. *)

Class FloatOps (F : Type) : Type := {
  fzero : F;                (* 0.0f *)
  fadd : F -> F -> F;
  fmul : F -> F -> F;
  fdiv : F -> F -> F;
  fsqrt : F -> F;           (* sqrtf *)
  of_int : Z -> F;          (* (float) i *)
  of_bits : Z -> F          (* the float with this 32-bit pattern *)
}.

(** The integers as a stand-in for the floats, to run the embedding on
    examples.  They are not the code's arithmetic: [fadd] and [fmul]
    never round, [fdiv] truncates and [fsqrt] is the integer square root.
    An example computed here shows what the code computes only where
    every value met is an integer that a 32-bit float holds exactly
    (magnitude up to 2^24) and every quotient and root is exact. *)
#[global] Instance exact_ops : FloatOps Z := {|
  fzero := 0;
  fadd := Z.add;
  fmul := Z.mul;
  fdiv := Z.quot;
  fsqrt := Z.sqrt;
  of_int := fun z => z;
  of_bits := fun z => z
|}.

(** *** Arithmetic that does not round

    What "in exact arithmetic" means below: the laws a sum and a product
    obey when no operation rounds.  The 32-bit floats of the code do not
    obey them (their sums depend on the order of the terms); the integers,
    the rationals and the reals do.  The operations [fdiv], [fsqrt] and
    the conversions are left as they are. *)

(** A sum does not depend on the order or the grouping of its terms. *)
Class ExactSum (F : Type) `{FloatOps F} : Prop := {
  fadd_assoc : forall a b c : F, fadd a (fadd b c) = fadd (fadd a b) c;
  fadd_comm : forall a b : F, fadd a b = fadd b a;
  fadd_0_l : forall a : F, fadd fzero a = a
}.

(** Products distribute over sums. *)
Class ExactProduct (F : Type) `{FloatOps F} : Prop := {
  fmul_0_l : forall a : F, fmul fzero a = fzero;
  fmul_0_r : forall a : F, fmul a fzero = fzero;
  fmul_fadd_l : forall a b c : F,
    fmul a (fadd b c) = fadd (fmul a b) (fmul a c);
  fmul_fadd_r : forall a b c : F,
    fmul (fadd a b) c = fadd (fmul a c) (fmul b c)
}.

(** ** Device memory

    A tensor holds a handle to a device buffer.  The device maps the live
    handles to their contents and never hands a handle out twice. *)

Record Device (F : Type) : Type := {
  buffers : gmap nat (list F);
  next_buffer : nat
}.
Arguments buffers {F} d.
Arguments next_buffer {F} d.

Section DeviceMemory.
Context {F : Type} `{FloatOps F}.

Definition empty_device : Device F :=
  {| buffers := ∅; next_buffer := O |}.

(** A new zero-initialised buffer of [n] elements. *)
Definition alloc (n : nat) (d : Device F) : nat * Device F :=
  (next_buffer d,
   {| buffers := <[next_buffer d := replicate n fzero]> (buffers d);
      next_buffer := S (next_buffer d) |}).

Definition release (b : nat) (d : Device F) : Device F :=
  {| buffers := delete b (buffers d); next_buffer := next_buffer d |}.

Definition load (b : nat) (d : Device F) : result (list F) :=
  match buffers d !! b with
  | Some l => Ok l
  | None => Err DanglingBuffer
  end.

Definition store (b : nat) (l : list F) (d : Device F) : result (Device F) :=
  match buffers d !! b with
  | Some _ => Ok {| buffers := <[b := l]> (buffers d);
                    next_buffer := next_buffer d |}
  | None => Err DanglingBuffer
  end.

(** The handle names a buffer of the device. *)
Definition live (b : nat) (d : Device F) : Prop :=
  is_Some (buffers d !! b).

(** [a[i]] on a host or device array; the kernels below index within
    bounds when the tensors have their declared sizes. *)
Definition at_index (l : list F) (i : Z) : F :=
  nth (Z.to_nat i) l fzero.

End DeviceMemory.

(** Does the stage see a tensor or a table? *)
Inductive TorchDataType : Type := TENSOR_DATA | TABLE_DATA.

(** ** Launching a kernel with an explicit local size *)

(** Modelled from the spec: [runKernel] of the dispatcher is not among the
    sources.  "if localSize is supplied it must evenly divide globalSize and
    must not exceed device- and kernel-reported maximums, else fails with
    InvalidWorkSizeError". *)
Definition launch_legal (lim : DeviceLimits) (sz : Partition.sizes) : bool :=
  let '(g0, g1) := Partition.global_size sz in
  let '(l0, l1) := Partition.local_size sz in
  negb (l0 =? 0) && negb (l1 =? 0)
  && (g0 mod l0 =? 0) && (g1 mod l1 =? 0)
  && (l0 <=? workitem_size lim 0) && (l1 <=? workitem_size lim 1)
  && (l0 * l1 <=? max_workgroup_size lim)
  && (l0 * l1 <=? max_workgroup_size_kernel lim).


(** ** Model files

    [std::ifstream] as the two factories use it: [read] either delivers the
    bytes asked for, or delivers what is left, raises [failbit] and leaves
    the rest of the destination as it was; on a stream whose [failbit] is
    up it does nothing.  Nothing is thrown. *)

Module Stream.

Record ifstream : Type := {
  contents : list Byte.byte;
  pos : nat;
  failbit : bool
}.

Definition open (bytes : list Byte.byte) : ifstream :=
  {| contents := bytes; pos := O; failbit := false |}.

(** [file.read(s, n)]; [dest] is what the [n] bytes at [s] held before. *)
Definition read (n : nat) (dest : list Byte.byte) (f : ifstream)
  : list Byte.byte * ifstream :=
  if failbit f then (dest, f)
  else
    let avail := drop (pos f) (contents f) in
    if (n <=? length avail)%nat then
      (take n avail ++ drop n dest,
       {| contents := contents f; pos := (pos f + n)%nat;
          failbit := false |})
    else
      (avail ++ drop (length avail) dest,
       {| contents := contents f; pos := length (contents f);
          failbit := true |}).

(** The bytes an uninitialised object of [n] bytes happens to hold;
    [junk obj i] is byte [i] of the object numbered [obj]. *)
Definition indeterminate (junk : nat -> nat -> Byte.byte) (obj n : nat)
  : list Byte.byte :=
  junk obj <$> seq 0 n.

(** Four bytes, little-endian, as an unsigned 32-bit pattern. *)
Definition le_u32 (bs : list Byte.byte) : Z :=
  fold_right (fun b acc => Z.of_N (Byte.to_N b) + 256 * acc) 0 (take 4 bs).

Definition le_i32 (bs : list Byte.byte) : Z := to_i32 (le_u32 bs).

(** A byte array seen as an array of [n] floats. *)
Fixpoint floats {F : Type} `{FloatOps F} (n : nat) (bs : list Byte.byte)
  : list F :=
  match n with
  | O => []
  | S n' => of_bits (le_u32 bs) :: floats n' (drop 4 bs)
  end.

End Stream.

(** ** The Linear stage ([src/jtorch/linear.cpp]) *)

Module Linear.
Section Linear.
Context {F : Type} `{FloatOps F}.

(** Modelled from the spec: class [Tensor] (tensor.h) is not among the
    sources.  "construct(dims, extents): allocates a zero-initialized
    device buffer sized to the extents; fails with InvalidShapeError if
    any extent <= 0 or dims outside [1,3]"; "setData(hostPtr): bulk copy
    of exactly element-count elements; [...] must be rejected if the host
    buffer is smaller than the tensor". *)
Record Tensor : Type := {
  dim : Z;
  size : list Z;
  storage : nat
}.

Definition nelems (extents : list Z) : Z := fold_right Z.mul 1 extents.

(** Modelled from the spec: the constructor of [Tensor], "construct(dims,
    extents)" above. *)
Definition Tensor_new (dims : Z) (extents : list Z) (d : Device F)
  : result (Tensor * Device F) :=
  if (1 <=? dims) && (dims <=? 3) && forallb (fun e => 0 <? e) extents then
    let '(b, d') := alloc (Z.to_nat (nelems extents)) d in
    Ok ({| dim := dims; size := extents; storage := b |}, d')
  else Err InvalidShapeError.

(** Modelled from the spec: [Tensor::setData], "setData(hostPtr)" above. *)
Definition setData (t : Tensor) (host : list F) (d : Device F)
  : result (Device F) :=
  let n := Z.to_nat (nelems (size t)) in
  if (n <=? length host)%nat then store (storage t) (take n host) d
  else Err HostBufferOverrun.

(** What a stage is handed: a tensor, or something that is not one. *)
Inductive TorchData : Type :=
  | TensorData (t : Tensor)
  | TableData.

Definition type (x : TorchData) : TorchDataType :=
  match x with
  | TensorData _ => TENSOR_DATA
  | TableData => TABLE_DATA
  end.

(** [TO_TENSOR_PTR(x.get())->...] *)
Definition deref (o : option Tensor) : result Tensor :=
  match o with
  | Some t => Ok t
  | None => Err NullPointerDereference
  end.

(** The members of the stage; [output] is the member of [TorchStage], a
    null pointer until something is stored in it. *)
Record Linear : Type := {
  n_inputs_ : Z;
  n_outputs_ : Z;
  output : option Tensor;
  weights_ : option Tensor;
  biases_ : option Tensor
}.

(** [Linear::Linear(const uint32_t n_inputs, const uint32_t n_outputs)] *)
Definition new (n_inputs n_outputs : Z) (d : Device F)
  : result (Linear * Device F) :=
  let n_inputs := to_u32 n_inputs in
  let n_outputs := to_u32 n_outputs in
  '(out, d) <- Tensor_new 1 [n_outputs] d ;;
  '(w, d) <- Tensor_new 2 [n_outputs; n_inputs] d ;;
  '(b, d) <- Tensor_new 1 [n_outputs] d ;;
  Ok ({| n_inputs_ := n_inputs; n_outputs_ := n_outputs;
         output := Some out; weights_ := Some w; biases_ := Some b |}, d).

Definition setWeights (st : Linear) (weights : list F) (d : Device F)
  : result (Device F) :=
  w <- deref (weights_ st) ;; setData w weights d.

Definition setBiases (st : Linear) (biases : list F) (d : Device F)
  : result (Device F) :=
  b <- deref (biases_ st) ;; setData b biases d.

(** Modelled from the spec: the macro [RASSERT] is not among the sources.
    "forward validates input is 1-D of length = input-count": a condition
    that does not hold ends the call. *)
Definition RASSERT (b : bool) : result unit :=
  if b then Ok tt else Err AssertionFailure.

(** [Linear::init]: two assertions, no allocation. *)
Definition init (st : Linear) (input : TorchData) : result Tensor :=
  match input with
  | TableData =>
      _ <- RASSERT false ;;   (* type() is TABLE_DATA *)
      Err TypeMismatchError
  | TensorData t =>
      _ <- RASSERT true ;;    (* type() is TENSOR_DATA *)
      _ <- RASSERT ((dim t =? 1) && (nth 0 (size t) 0 =? n_inputs_ st)) ;;
      Ok t
  end.

(** *** The kernels of [kLinearKernel] *)

(** [MatVecMultSimple], the kernel of the SIMPLE_LINEAR build: work-item
    [i] of [global_size] stores [sum of A[i + M * k] * X[k], k < N] in
    [Y[i]]. *)
Definition MatVecMultSimple (A X Y : list F) (M N global_size : Z)
  : list F :=
  imap (fun i y =>
          if Z.of_nat i <? global_size then
            fold_left
              (fun sum k =>
                 fadd sum (fmul (at_index A (Z.of_nat i + M * k))
                                (at_index X k)))
              (seqZ 0 N) fzero
          else y) Y.

(** [for (int k = get_global_id(COL_DIM); k < N; k += get_global_size(COL_DIM))
      sum += A[get_global_id(ROW_DIM) + M * k] * X[k];] *)
Fixpoint partial_dot (fuel : nat) (A X : list F) (M N row k stride : Z)
  (sum : F) : F :=
  match fuel with
  | O => sum
  | S fuel' =>
      if k <? N then
        partial_dot fuel' A X M N row (k + stride) stride
          (fadd sum (fmul (at_index A (row + M * k)) (at_index X k)))
      else sum
  end.

(** The local array [work] of one work-group after every work-item
    [(ii, jj)] of it has stored its partial sum at [ii + rows * jj]. *)
Definition work_init (A X : list F) (M N gsize1 rows cols grow gcol : Z)
  : list F :=
  (fun idx =>
     let ii := idx mod rows in
     let jj := idx / rows in
     partial_dot (Z.to_nat N) A X M N
       (grow * rows + ii) (gcol * cols + jj) gsize1 fzero)
  <$> seqZ 0 (rows * cols).

(** One round between two barriers: the work-items with [jj < cols] add
    [work[ii + rows * (jj + cols)]] to [work[ii + rows * jj]].  The cells
    read in a round are not written in it. *)
Definition reduce_round (rows cols : Z) (work : list F) : list F :=
  imap (fun i w =>
          let idx := Z.of_nat i in
          if idx / rows <? cols
          then fadd w (at_index work (idx + rows * cols))
          else w) work.

(** [while (cols > 1) { cols >>= 1; ...; barrier }] *)
Fixpoint reduce (fuel : nat) (rows cols : Z) (work : list F) : list F :=
  match fuel with
  | O => work
  | S fuel' =>
      if 1 <? cols then
        let cols' := Z.shiftr cols 1 in
        reduce fuel' rows cols' (reduce_round rows cols' work)
      else work
  end.

(** What the work-items with [jj == 0] of one group write to
    [Y[grow * rows + ii]], for [ii] from 0. *)
Definition group_result (A X : list F) (M N gsize1 rows cols grow gcol : Z)
  : list F :=
  take (Z.to_nat rows)
    (reduce (Z.to_nat cols) rows cols
       (work_init A X M N gsize1 rows cols grow gcol)).

(** [MatVecMultThreads] over the whole index space, group by group. *)
Definition MatVecMultThreads (A X Y : list F) (M N : Z)
  (sz : Partition.sizes) : list F :=
  let '(g0, g1) := Partition.global_size sz in
  let '(l0, l1) := Partition.local_size sz in
  fold_left
    (fun Y grow =>
       fold_left
         (fun Y gcol =>
            list_inserts (Z.to_nat (grow * l0))
              (group_result A X M N g1 l0 l1 grow gcol) Y)
         (seqZ 0 (g1 / l1)) Y)
    (seqZ 0 (g0 / l0)) Y.

(** [Accum]: [output[x_out] += biases[x_out]] for [x_out < n]. *)
Definition Accum (output biases : list F) (n : Z) : list F :=
  imap (fun i o =>
          if Z.of_nat i <? n then fadd o (at_index biases (Z.of_nat i))
          else o) output.

(** [Linear::forwardProp], the default build (SIMPLE_LINEAR not
    defined). *)
Definition forwardProp (lim : DeviceLimits) (st : Linear)
  (input : TorchData) (d : Device F) : result (Linear * Device F) :=
  inp <- init st input ;;
  sz <- Partition.work_partition lim (n_outputs_ st) ;;
  w <- deref (weights_ st) ;;
  out <- deref (output st) ;;
  A <- load (storage w) d ;;
  X <- load (storage inp) d ;;
  Y <- load (storage out) d ;;
  if launch_legal lim sz then
    let Y1 := MatVecMultThreads A X Y (to_i32 (n_outputs_ st))
                (to_i32 (n_inputs_ st)) sz in
    d <- store (storage out) Y1 d ;;
    (* Now add in the bias *)
    out <- deref (output st) ;;
    b <- deref (biases_ st) ;;
    Y <- load (storage out) d ;;
    B <- load (storage b) d ;;
    d <- store (storage out) (Accum Y B (n_outputs_ st)) d ;;
    Ok (st, d)
  else Err InvalidWorkSizeError.

(** [Linear::forwardProp], the SIMPLE_LINEAR build: one work-item per
    output row, no local size. *)
Definition forwardProp_simple (st : Linear) (input : TorchData)
  (d : Device F) : result (Linear * Device F) :=
  inp <- init st input ;;
  w <- deref (weights_ st) ;;
  out <- deref (output st) ;;
  A <- load (storage w) d ;;
  X <- load (storage inp) d ;;
  Y <- load (storage out) d ;;
  let Y1 := MatVecMultSimple A X Y (to_i32 (n_outputs_ st))
              (to_i32 (n_inputs_ st)) (n_outputs_ st) in
  d <- store (storage out) Y1 d ;;
  (* Now add in the bias *)
  out <- deref (output st) ;;
  b <- deref (biases_ st) ;;
  Y <- load (storage out) d ;;
  B <- load (storage b) d ;;
  d <- store (storage out) (Accum Y B (n_outputs_ st)) d ;;
  Ok (st, d).

(** [forwardProp] on one input after the other. *)
Fixpoint forward_all (lim : DeviceLimits) (st : Linear)
  (inputs : list TorchData) (d : Device F) : result (Linear * Device F) :=
  match inputs with
  | [] => Ok (st, d)
  | x :: xs =>
      '(st, d) <- forwardProp lim st x d ;;
      forward_all lim st xs d
  end.

(** [W x + b] for the [M] x [N] matrix stored as the kernels read it,
    [W[i][k] = A[i + M * k]]. *)
Definition affine (A X B : list F) (M N : Z) : list F :=
  (fun i =>
     fadd
       (fold_left
          (fun sum k => fadd sum (fmul (at_index A (i + M * k))
                                       (at_index X k)))
          (seqZ 0 N) fzero)
       (at_index B i))
  <$> seqZ 0 M.

(** *** What [MatVecMultThreads] computes, whatever the arithmetic *)





(** A stage with the given parameters, one input tensor, one forward
    call, and what the output buffer holds then. *)
Definition forward_once (lim : DeviceLimits) (n_inputs n_outputs : Z)
  (weights biases x : list F) : result (list F) :=
  '(st, d) <- new n_inputs n_outputs empty_device ;;
  d <- setWeights st weights d ;;
  d <- setBiases st biases d ;;
  '(inp, d) <- Tensor_new 1 [n_inputs] d ;;
  d <- setData inp x d ;;
  '(st, d) <- forwardProp lim st (TensorData inp) d ;;
  out <- deref (output st) ;;
  load (storage out) d.

(** [Linear::loadFromFile].  No result of [read] is looked at. *)
Definition loadFromFile (junk : nat -> nat -> Byte.byte)
  (file : Stream.ifstream) (d : Device F)
  : result (Linear * Device F * Stream.ifstream) :=
  let '(bs, file) := Stream.read 4 (Stream.indeterminate junk 0 4) file in
  let n_outputs := Stream.le_i32 bs in
  let '(bs, file) := Stream.read 4 (Stream.indeterminate junk 1 4) file in
  let n_inputs := Stream.le_i32 bs in
  '(ret, d) <- new n_inputs n_outputs d ;;
  let n_weights := to_i32 (n_outputs * n_inputs) in
  if n_weights <? 0 then Err BadArrayLength
  else
    let n := Z.to_nat n_weights in
    let '(weights_cpu, file) :=
      Stream.read (4 * n) (Stream.indeterminate junk 2 (4 * n)) file in
    d <- setWeights ret (Stream.floats n weights_cpu) d ;;
    if n_outputs <? 0 then Err BadArrayLength
    else
      let m := Z.to_nat n_outputs in
      let '(bias_cpu, file) :=
        Stream.read (4 * m) (Stream.indeterminate junk 3 (4 * m)) file in
      d <- setBiases ret (Stream.floats m bias_cpu) d ;;
      Ok (ret, d, file).

End Linear.
End Linear.


(** ** Sums, to state what the kernels compute in exact arithmetic *)

Module Exact.

(** The sum of [g 0 .. g (c - 1)]. *)
Fixpoint sumZ (c : nat) (g : Z -> Z) : Z :=
  match c with
  | O => 0
  | S c' => sumZ c' g + g (Z.of_nat c')
  end.

(** One product of the dot product of row [row]. *)
Definition term (A X : list Z) (M row j : Z) : Z :=
  at_index A (row + M * j) * at_index X j.

(** The sum of the [f j] with [j < n] and [j mod p = jj]: what the
    work-items of column [jj] add up. *)
Fixpoint colsum (n : nat) (jj p : Z) (f : Z -> Z) : Z :=
  match n with
  | O => 0
  | S n' => colsum n' jj p f
            + (if Z.of_nat n' mod p =? jj then f (Z.of_nat n') else 0)
  end.

(** Row [row] of [W x]. *)
Definition dotv (A X : list Z) (M N row : Z) : Z :=
  sumZ (Z.to_nat N) (term A X M row).


End Exact.

(** ** The SpatialDivisiveNormalization stage
    ([src/jtorch/spatial_divisive_normalization.cpp]) *)

Module SpatialDivisiveNormalization.

(** The entry points of kernels/spatial_divisive_normalization.cl. *)
Inductive entry : Type :=
  | SpatialDivisiveNormalizationHoriz
  | SpatialDivisiveNormalizationVert
  | SpatialDivisiveNormalization2D
  | SpatialDivisiveNormalizationAccumDiv
  | SpatialDivisiveNormalizationFinal.  (* "SpatialDivisiveNormalization" *)

Definition Int3 : Type := Z * Z * Z.

(** [v[i]] *)
Definition ix (v : Int3) (i : nat) : Z :=
  let '(a, b, c) := v in
  match i with
  | O => a
  | S O => b
  | _ => c
  end.

Definition Int3_equal (a b : Int3) : bool :=
  (ix a 0 =? ix b 0) && (ix a 1 =? ix b 1) && (ix a 2 =? ix b 2).

(** Modelled from the spec: the [Tensor] class of this file (built from an
    [Int3], an [Int2] or one extent; [dim()] is an [Int3]) is not among the
    sources.  Construction, [setData] and [getData] are as for the Linear
    stage; "clone(other): returns a new Tensor with identical shape and a
    independent device buffer containing a copy of other's contents";
    "slowSum, div: host-side-equivalent reduction/scale utilities". *)
Record Tensor : Type := {
  dim : Int3;
  data : nat
}.

Definition dataSize (t : Tensor) : Z :=
  ix (dim t) 0 * ix (dim t) 1 * ix (dim t) 2.

Inductive TorchData : Type :=
  | TensorData (t : Tensor)
  | TableData.

Definition type (x : TorchData) : TorchDataType :=
  match x with
  | TensorData _ => TENSOR_DATA
  | TableData => TABLE_DATA
  end.

Definition deref (o : option Tensor) : result Tensor :=
  match o with
  | Some t => Ok t
  | None => Err NullPointerDereference
  end.

Section SDN.
Context {F : Type} `{FloatOps F}.

(** Modelled from the spec: the device kernels of
    kernels/spatial_divisive_normalization.cl are not among the sources.
    Each launch is taken as a function from the contents of the buffers
    bound as arguments, the integer and float arguments and the index
    space to the new contents of the buffer bound as argument 1, the one
    every pass leaves its result in. *)
Variable device_kernel :
  entry -> list (list F) -> list Z -> list F -> Int3 -> list F.

(** Modelled from the spec: the constructor of [Tensor] from an [Int3],
    "construct(dims, extents)": three extents, each positive. *)
Definition Tensor_new (dims : Int3) (d : Device F)
  : result (Tensor * Device F) :=
  if (0 <? ix dims 0) && (0 <? ix dims 1) && (0 <? ix dims 2) then
    let '(b, d') :=
      alloc (Z.to_nat (ix dims 0 * ix dims 1 * ix dims 2)) d in
    Ok ({| dim := dims; data := b |}, d')
  else Err InvalidShapeError.

(** A tensor object: positive extents, and a buffer on the device. *)
Definition live_tensor (t : Tensor) (d : Device F) : Prop :=
  (0 < ix (dim t) 0 /\ 0 < ix (dim t) 1 /\ 0 < ix (dim t) 2) /\
  is_Some (buffers d !! data t).

(** Modelled from the spec: [Tensor::getData], "synchronous bulk copy
    host<->device of exactly element-count elements". *)
Definition getData (t : Tensor) (d : Device F) : result (list F) :=
  load (data t) d.

(** Modelled from the spec: [Tensor::setData], as for the Linear stage. *)
Definition setData (t : Tensor) (host : list F) (d : Device F)
  : result (Device F) :=
  let n := Z.to_nat (dataSize t) in
  if (n <=? length host)%nat then store (data t) (take n host) d
  else Err HostBufferOverrun.

(** Modelled from the spec: [Tensor::clone], "a new Tensor with identical
    shape and a independent device buffer containing a copy". *)
Definition clone (t : Tensor) (d : Device F) : result (Tensor * Device F) :=
  l <- getData t d ;;
  '(t', d) <- Tensor_new (dim t) d ;;
  d <- store (data t') l d ;;
  Ok (t', d).

(** Modelled from the spec: [Tensor::slowSum], a reduction that works "by
    round-tripping through a host buffer". *)
Definition slowSum (t : Tensor) (d : Device F) : result F :=
  l <- getData t d ;;
  Ok (fold_left fadd l fzero).

(** Modelled from the spec: [Tensor::div], the scaling utility of the same
    sentence. *)
Definition div (t : Tensor) (div_val : F) (d : Device F)
  : result (Device F) :=
  l <- getData t d ;;
  store (data t) ((fun x => fdiv x div_val) <$> l) d.

(** The members of the stage. *)
Record stage : Type := {
  kernel_ : option Tensor;
  kernel_norm_ : option Tensor;
  output : option Tensor;
  std_coef_ : option Tensor;
  std_pass1_ : option Tensor;
  std_pass2_ : option Tensor;
  std_ : option Tensor;
  threshold_ : F
}.

(** The constructor. *)
Definition new (kernel : Tensor) (threshold : F) (d : Device F)
  : result (stage * Device F) :=
  if (Z.rem (ix (dim kernel) 0) 2 =? 0)
     || (Z.rem (ix (dim kernel) 1) 2 =? 0)
     || negb (ix (dim kernel) 2 =? 1)
  then Err InvalidKernelShapeError
  else
    '(k, d) <- clone kernel d ;;
    Ok ({| kernel_ := Some k;
           kernel_norm_ := None;
           output := None;
           std_coef_ := None;
           std_pass1_ := None;
           std_pass2_ := None;
           std_ := None;
           threshold_ := threshold |}, d).

(** [#define SAFE_DELETE(x) if (x != NULL) { delete x; x = NULL; }]
    (line 8): a null member is left alone, any other is deleted; the
    caller stores NULL in the member.  Modelled from the spec: what
    [delete] does to a tensor, the destructor of [Tensor] (tensor.h) not
    being among the sources; a tensor's buffer is "released exactly once
    at destruction". *)
Definition SAFE_DELETE (x : option Tensor) (d : Device F) : Device F :=
  match x with
  | Some t => release (data t) d
  | None => d
  end.

(** Lines 58-64. *)
Definition teardown (st : stage) (d : Device F) : stage * Device F :=
  let d := SAFE_DELETE (output st) d in
  let d := SAFE_DELETE (kernel_ st) d in
  let d := SAFE_DELETE (kernel_norm_ st) d in
  let d := SAFE_DELETE (std_coef_ st) d in
  let d := SAFE_DELETE (std_pass1_ st) d in
  let d := SAFE_DELETE (std_pass2_ st) d in
  let d := SAFE_DELETE (std_ st) d in
  ({| kernel_ := None; kernel_norm_ := None; output := None;
      std_coef_ := None; std_pass1_ := None; std_pass2_ := None;
      std_ := None; threshold_ := threshold_ st |}, d).

(** [~SpatialDivisiveNormalization] (lines 39-47): what the device is
    left with when the stage is deleted. *)
Definition destroy (st : stage) (d : Device F) : Device F :=
  let d := SAFE_DELETE (output st) d in
  let d := SAFE_DELETE (kernel_ st) d in
  let d := SAFE_DELETE (kernel_norm_ st) d in
  let d := SAFE_DELETE (std_coef_ st) d in
  let d := SAFE_DELETE (std_pass1_ st) d in
  let d := SAFE_DELETE (std_pass2_ st) d in
  SAFE_DELETE (std_ st) d.

(** Lines 75-84: clone and normalize the input kernel. *)
Definition normalize_kernel (kernel : Tensor) (in_dim : Int3) (d : Device F)
  : result (Tensor * Device F) :=
  let onedim_kernel := ix (dim kernel) 1 =? 1 in
  let n_feats := of_int (ix in_dim 2) in
  '(kernel_norm, d) <- clone kernel d ;;
  sum <- slowSum kernel_norm d ;;
  let div_val :=
    if onedim_kernel then fmul sum (fsqrt n_feats) else fmul sum n_feats in
  d <- div kernel_norm div_val d ;;
  Ok (kernel_norm, d).

(** The filter offsets [-filt_rad .. filt_rad]. *)
Definition offsets (filt_rad : Z) : list Z :=
  seqZ (- filt_rad) (2 * filt_rad + 1).

Definition inside (u_in v_in width height : Z) : bool :=
  (0 <=? u_in) && (u_in <? width) && (0 <=? v_in) && (v_in <? height).

(** Lines 108-120: [tmp] for pixel [(u, v)], one-dimensional kernel. *)
Definition coef_1d (kernel_norm_cpu : list F) (width height filt_rad u v : Z)
  : F :=
  fold_left
    (fun tmp v_filt =>
       fold_left
         (fun tmp u_filt =>
            if inside (u + u_filt) (v + v_filt) width height then
              fadd tmp
                (fmul (at_index kernel_norm_cpu (v_filt + filt_rad))
                      (at_index kernel_norm_cpu (u_filt + filt_rad)))
            else tmp)
         (offsets filt_rad) tmp)
    (offsets filt_rad) fzero.

(** Lines 132-143: [tmp] for pixel [(u, v)], two-dimensional kernel. *)
Definition coef_2d (kernel_norm_cpu : list F)
  (width height kernel_size_u filt_rad_u filt_rad_v u v : Z) : F :=
  fold_left
    (fun tmp v_filt =>
       fold_left
         (fun tmp u_filt =>
            if inside (u + u_filt) (v + v_filt) width height then
              fadd tmp
                (at_index kernel_norm_cpu
                   ((v_filt + filt_rad_v) * kernel_size_u
                    + (u_filt + filt_rad_u)))
            else tmp)
         (offsets filt_rad_u) tmp)
    (offsets filt_rad_v) fzero.

(** [std_coef_cpu], filled at [v * width + u] for [v], then [u], from 0. *)
Definition std_coef_cpu (onedim_kernel : bool) (kernel_norm_dim : Int3)
  (kernel_norm_cpu : list F) (out_dim : Int3) : list F :=
  let n_feats := ix out_dim 2 in
  let height := ix out_dim 1 in
  let width := ix out_dim 0 in
  v ← seqZ 0 height;
  u ← seqZ 0 width;
  let tmp :=
    if onedim_kernel then
      let kernel_size := ix kernel_norm_dim 0 in
      let filt_rad := Z.quot (kernel_size - 1) 2 in
      coef_1d kernel_norm_cpu width height filt_rad u v
    else
      let kernel_size_u := ix kernel_norm_dim 0 in
      let kernel_size_v := ix kernel_norm_dim 1 in
      let filt_rad_u := Z.quot (kernel_size_u - 1) 2 in
      let filt_rad_v := Z.quot (kernel_size_v - 1) 2 in
      coef_2d kernel_norm_cpu width height kernel_size_u
        filt_rad_u filt_rad_v u v in
  [fdiv tmp (of_int n_feats)].

(** The state Allocated(shape): the members [init] looks at are all set,
    the output with that shape. *)
Definition allocated (st : stage) (shape : Int3) : Prop :=
  (exists out, output st = Some out /\ dim out = shape) /\
  is_Some (kernel_norm_ st) /\ is_Some (std_coef_ st) /\
  is_Some (std_ st).

(** The state Unallocated, as the constructor leaves the stage. *)
Definition constructed (st : stage) (kernel : Tensor) : Prop :=
  kernel_ st = Some kernel /\ kernel_norm_ st = None /\
  output st = None /\ std_coef_ st = None /\
  std_pass1_ st = None /\ std_pass2_ st = None /\ std_ st = None.

(** Lines 55-66: the input dimension has changed. *)
Definition on_shape_change (st : stage) (inp : Tensor) (d : Device F)
  : stage * Device F :=
  match output st with
  | Some out =>
      if negb (Int3_equal (dim inp) (dim out)) then teardown st d
      else (st, d)
  | None => (st, d)
  end.

(** Lines 67-74. *)
Definition ensure_output (st : stage) (inp : Tensor) (d : Device F)
  : result (stage * Device F) :=
  match output st with
  | None =>
      '(out, d) <- Tensor_new (dim inp) d ;;
      '(pass1, d) <- Tensor_new (dim inp) d ;;
      '(pass2, d) <- Tensor_new (dim inp) d ;;
      Ok ({| kernel_ := kernel_ st; kernel_norm_ := kernel_norm_ st;
             output := Some out; std_coef_ := std_coef_ st;
             std_pass1_ := Some pass1; std_pass2_ := Some pass2;
             std_ := std_ st; threshold_ := threshold_ st |}, d)
  | Some _ => Ok (st, d)
  end.

(** Lines 75-84. *)
Definition ensure_kernel_norm (st : stage) (inp : Tensor) (d : Device F)
  : result (stage * Device F) :=
  match kernel_norm_ st with
  | None =>
      kernel <- deref (kernel_ st) ;;
      '(kernel_norm, d) <- normalize_kernel kernel (dim inp) d ;;
      Ok ({| kernel_ := kernel_ st; kernel_norm_ := Some kernel_norm;
             output := output st; std_coef_ := std_coef_ st;
             std_pass1_ := std_pass1_ st; std_pass2_ := std_pass2_ st;
             std_ := std_ st; threshold_ := threshold_ st |}, d)
  | Some _ => Ok (st, d)
  end.

(** Lines 85-151. *)
Definition ensure_std_coef (st : stage) (d : Device F)
  : result (stage * Device F) :=
  match std_coef_ st with
  | None =>
      out <- deref (output st) ;;
      let std_coeff_dim := (ix (dim out) 0, ix (dim out) 1, 1) in
      '(std_coef, d) <- Tensor_new std_coeff_dim d ;;
      kernel_norm <- deref (kernel_norm_ st) ;;
      kernel_norm_cpu <- getData kernel_norm d ;;
      kernel <- deref (kernel_ st) ;;
      let onedim_kernel := ix (dim kernel) 1 =? 1 in
      d <- setData std_coef
             (std_coef_cpu onedim_kernel (dim kernel_norm)
                kernel_norm_cpu (dim out)) d ;;
      Ok ({| kernel_ := kernel_ st; kernel_norm_ := kernel_norm_ st;
             output := output st; std_coef_ := Some std_coef;
             std_pass1_ := std_pass1_ st; std_pass2_ := std_pass2_ st;
             std_ := std_ st; threshold_ := threshold_ st |}, d)
  | Some _ => Ok (st, d)
  end.

(** Lines 152-159. *)
Definition ensure_std (st : stage) (d : Device F)
  : result (stage * Device F) :=
  match std_ st with
  | None =>
      out <- deref (output st) ;;
      let std_coeff_dim := (ix (dim out) 0, ix (dim out) 1, 1) in
      '(std, d) <- Tensor_new std_coeff_dim d ;;
      Ok ({| kernel_ := kernel_ st; kernel_norm_ := kernel_norm_ st;
             output := output st; std_coef_ := std_coef_ st;
             std_pass1_ := std_pass1_ st; std_pass2_ := std_pass2_ st;
             std_ := Some std; threshold_ := threshold_ st |}, d)
  | Some _ => Ok (st, d)
  end.

(** [SpatialDivisiveNormalization::init]: the five [if] blocks in turn. *)
Definition init (st : stage) (input : TorchData) (d : Device F)
  : result (stage * Device F) :=
  match input with
  | TableData => Err TypeMismatchError
  | TensorData inp =>
      let '(st, d) := on_shape_change st inp d in
      '(st, d) <- ensure_output st inp d ;;
      '(st, d) <- ensure_kernel_norm st inp d ;;
      '(st, d) <- ensure_std_coef st d ;;
      ensure_std st d
  end.

Fixpoint load_all (ts : list Tensor) (d : Device F)
  : result (list (list F)) :=
  match ts with
  | [] => Ok []
  | t :: ts' =>
      l <- load (data t) d ;;
      ls <- load_all ts' d ;;
      Ok (l :: ls)
  end.

(** [useKernel; setArg ...; runKernel3D(deviceid, dim, false)] with the
    buffers [args] bound, [target] among them as argument 1. *)
Definition runKernel3D (e : entry) (args : list Tensor) (ints : list Z)
  (floats : list F) (target : Tensor) (d : Device F) : result (Device F) :=
  bufs <- load_all args d ;;
  store (data target) (device_kernel e bufs ints floats (dim target)) d.

(** [SpatialDivisiveNormalization::forwardProp] *)
Definition forwardProp (st : stage) (input : TorchData) (d : Device F)
  : result (stage * Device F) :=
  '(st, d) <- init st input d ;;
  kernel <- deref (kernel_ st) ;;
  let onedim_kernel := ix (dim kernel) 1 =? 1 in
  match input with
  | TableData => Err TypeMismatchError
  | TensorData inp =>
      out <- deref (output st) ;;
      kernel_norm <- deref (kernel_norm_ st) ;;
      std_pass1 <- deref (std_pass1_ st) ;;
      std_pass2 <- deref (std_pass2_ st) ;;
      std <- deref (std_ st) ;;
      std_coef <- deref (std_coef_ st) ;;
      d <-
        (if onedim_kernel then
           let filt_rad := Z.quot (ix (dim kernel_norm) 0 - 1) 2 in
           d <- runKernel3D SpatialDivisiveNormalizationHoriz
                  [inp; std_pass1; kernel_norm] [filt_rad] [] std_pass1 d ;;
           runKernel3D SpatialDivisiveNormalizationVert
             [std_pass1; std_pass2; kernel_norm] [filt_rad] [] std_pass2 d
         else
           let filt_rad_u := Z.quot (ix (dim kernel_norm) 0 - 1) 2 in
           let filt_rad_v := Z.quot (ix (dim kernel_norm) 1 - 1) 2 in
           runKernel3D SpatialDivisiveNormalization2D
             [inp; std_pass2; kernel_norm] [filt_rad_u; filt_rad_v] []
             std_pass2 d) ;;
      d <- runKernel3D SpatialDivisiveNormalizationAccumDiv
             [std_pass2; std; std_coef] [ix (dim out) 2] [threshold_ st]
             std d ;;
      d <- runKernel3D SpatialDivisiveNormalizationFinal
             [inp; out; std] [] [] out d ;;
      Ok (st, d)
  end.

(** [forwardProp] on one input after the other. *)
Fixpoint forward_all (st : stage) (inputs : list TorchData) (d : Device F)
  : result (stage * Device F) :=
  match inputs with
  | [] => Ok (st, d)
  | x :: xs =>
      '(st, d) <- forwardProp st x d ;;
      forward_all st xs d
  end.

(** Every input of the list is a tensor of the given shape, with its
    buffer on the device. *)
Definition all_of_shape (shape : Int3) (d : Device F)
  (inputs : list TorchData) : Prop :=
  Forall (fun x => exists t, x = TensorData t /\ dim t = shape /\
                             live (data t) d) inputs.

(** The launches of [forwardProp] as a list, in their order: the entry
    point, the buffers bound, the integer and float arguments, and the
    buffer written. *)
Record launch : Type := {
  l_entry : entry;
  l_buffers : list Tensor;
  l_ints : list Z;
  l_floats : list F;
  l_target : Tensor
}.

Definition launch_plan (st : stage) (inp : Tensor) : result (list launch) :=
  kernel <- deref (kernel_ st) ;;
  out <- deref (output st) ;;
  kernel_norm <- deref (kernel_norm_ st) ;;
  std_pass1 <- deref (std_pass1_ st) ;;
  std_pass2 <- deref (std_pass2_ st) ;;
  std <- deref (std_ st) ;;
  std_coef <- deref (std_coef_ st) ;;
  let filt_rad_u := Z.quot (ix (dim kernel_norm) 0 - 1) 2 in
  let filt_rad_v := Z.quot (ix (dim kernel_norm) 1 - 1) 2 in
  Ok ((if ix (dim kernel) 1 =? 1 then
         [ {| l_entry := SpatialDivisiveNormalizationHoriz;
              l_buffers := [inp; std_pass1; kernel_norm];
              l_ints := [filt_rad_u]; l_floats := [];
              l_target := std_pass1 |};
           {| l_entry := SpatialDivisiveNormalizationVert;
              l_buffers := [std_pass1; std_pass2; kernel_norm];
              l_ints := [filt_rad_u]; l_floats := [];
              l_target := std_pass2 |} ]
       else
         [ {| l_entry := SpatialDivisiveNormalization2D;
              l_buffers := [inp; std_pass2; kernel_norm];
              l_ints := [filt_rad_u; filt_rad_v]; l_floats := [];
              l_target := std_pass2 |} ])
      ++ [ {| l_entry := SpatialDivisiveNormalizationAccumDiv;
              l_buffers := [std_pass2; std; std_coef];
              l_ints := [ix (dim out) 2]; l_floats := [threshold_ st];
              l_target := std |};
           {| l_entry := SpatialDivisiveNormalizationFinal;
              l_buffers := [inp; out; std];
              l_ints := []; l_floats := [];
              l_target := out |} ]).

Fixpoint run_plan (plan : list launch) (d : Device F) : result (Device F) :=
  match plan with
  | [] => Ok d
  | l :: plan' =>
      d <- runKernel3D (l_entry l) (l_buffers l) (l_ints l) (l_floats l)
             (l_target l) d ;;
      run_plan plan' d
  end.

(** The tensors a plan reads or writes. *)
Definition plan_tensors (plan : list launch) : list Tensor :=
  l ← plan; l_target l :: l_buffers l.

(** The kernel "divided elementwise by (sum of its elements x
    sqrt(n_feats)) when the kernel is 1-D, and by (sum of its elements x
    n_feats) when the kernel is 2-D". *)
Definition kernel_divisor (onedim : bool) (n_feats : Z) (kernel : list F)
  : F :=
  let sum := fold_left fadd kernel fzero in
  if onedim then fmul sum (fsqrt (of_int n_feats))
  else fmul sum (of_int n_feats).

Definition normalized_kernel (onedim : bool) (n_feats : Z)
  (kernel : list F) : list F :=
  (fun x => fdiv x (kernel_divisor onedim n_feats kernel)) <$> kernel.

(** [SpatialDivisiveNormalization::loadFromFile].  No result of [read] is
    looked at. *)
Definition loadFromFile (junk : nat -> nat -> Byte.byte)
  (file : Stream.ifstream) (d : Device F)
  : result (stage * Device F * Stream.ifstream) :=
  let '(bs, file) := Stream.read 4 (Stream.indeterminate junk 0 4) file in
  let kernel_size_1 := Stream.le_i32 bs in
  let '(bs, file) := Stream.read 4 (Stream.indeterminate junk 1 4) file in
  let kernel_size_2 := Stream.le_i32 bs in
  '(kernel, d) <-
    (if 1 <? kernel_size_2
     then Tensor_new (kernel_size_1, kernel_size_2, 1) d  (* Int2 *)
     else Tensor_new (kernel_size_1, 1, 1) d) ;;
  let n := Z.to_nat (dataSize kernel) in
  let '(kernel_cpu, file) :=
    Stream.read (4 * n) (Stream.indeterminate junk 2 (4 * n)) file in
  d <- setData kernel (Stream.floats n kernel_cpu) d ;;
  let '(bs, file) := Stream.read 4 (Stream.indeterminate junk 3 4) file in
  let threshold := of_bits (Stream.le_u32 bs) in
  '(ret, d) <- new kernel threshold d ;;
  let d := release (data kernel) d in
  Ok (ret, d, file).

End SDN.
End SpatialDivisiveNormalization.

(** ** Clipped filter sums, to state what the coefficients of a
    one-dimensional kernel are *)

Module ExactFilter.
Section ExactFilter.
Context {F : Type} `{FloatOps F}.

(** The sum of the kernel weights [k[f + r]], [f] from [-r] to [r], whose
    tap [x + f] falls inside [0, n), added in the order of [f]. *)
Definition window_sum (k : list F) (r x n : Z) : F :=
  fold_left
    (fun acc f =>
       if (0 <=? x + f) && (x + f <? n) then fadd acc (at_index k (f + r))
       else acc)
    (SpatialDivisiveNormalization.offsets r) fzero.

End ExactFilter.
End ExactFilter.

(** ** Example objects

    A device with four live buffers, three input tensors, a kernel tensor,
    and a stand-in for the device kernels that leaves its target as it
    is. *)

Module Examples.
Import SpatialDivisiveNormalization.

Definition idle_kernel
  : entry -> list (list Z) -> list Z -> list Z -> Int3 -> list Z :=
  fun _ bufs _ _ _ => nth 1 bufs [].

Definition device0 : Device Z :=
  {| buffers := list_to_map [(0%nat, replicate 16 0);
                             (1%nat, replicate 16 0);
                             (2%nat, replicate 36 0);
                             (3%nat, [1; 2; 1])];
     next_buffer := 4 |}.

Definition input_a : Tensor := {| dim := (2, 2, 4); data := 0 |}.
Definition input_b : Tensor := {| dim := (2, 2, 4); data := 1 |}.
Definition input_c : Tensor := {| dim := (3, 3, 4); data := 2 |}.
Definition kernel3 : Tensor := {| dim := (3, 1, 1); data := 3 |}.

Definition limits16 : DeviceLimits :=
  {| max_workitem_size := (256, 256, 64);
     max_workgroup_size := 256;
     max_workgroup_size_kernel := 256 |}.

(** A device whose second work-item limit is 3. *)
Definition limits3 : DeviceLimits :=
  {| max_workitem_size := (256, 3, 64);
     max_workgroup_size := 256;
     max_workgroup_size_kernel := 256 |}.

(** What uninitialised memory holds in the examples. *)
Definition zero_junk : nat -> nat -> Byte.byte := fun _ _ => Byte.x00.

(** A Linear file cut after its header: 1 output, 1 input, and neither
    the weight nor the bias. *)
Definition linear_header_only : list Byte.byte :=
  [Byte.x01; Byte.x00; Byte.x00; Byte.x00;
   Byte.x01; Byte.x00; Byte.x00; Byte.x00].

(** A normalization file cut inside its kernel: sizes 3 and 1, one of
    the three kernel weights, no threshold. *)
Definition sdn_cut_in_kernel : list Byte.byte :=
  [Byte.x03; Byte.x00; Byte.x00; Byte.x00;
   Byte.x01; Byte.x00; Byte.x00; Byte.x00;
   Byte.x00; Byte.x00; Byte.x80; Byte.x3f].

(** A Linear stage gets its parameters and an input tensor. *)
Definition linear_setup (st : Linear.Linear) (weights biases x : list Z)
  (d : Device Z) : result (Linear.TorchData * Device Z) :=
  d <- Linear.setWeights st weights d ;;
  d <- Linear.setBiases st biases d ;;
  '(inp, d) <- Linear.Tensor_new 1 [Linear.n_inputs_ st] d ;;
  d <- Linear.setData inp x d ;;
  Ok (Linear.TensorData inp, d).

(** A Linear stage of three inputs and two outputs as its constructor
    leaves it, on a device that holds its output, its weights
    [[1 3 5; 2 4 6]], its biases and an input vector. *)
Definition linear32 : Linear.Linear :=
  {| Linear.n_inputs_ := 3;
     Linear.n_outputs_ := 2;
     Linear.output :=
       Some {| Linear.dim := 1; Linear.size := [2]; Linear.storage := 0 |};
     Linear.weights_ :=
       Some {| Linear.dim := 2; Linear.size := [2; 3];
               Linear.storage := 1 |};
     Linear.biases_ :=
       Some {| Linear.dim := 1; Linear.size := [2]; Linear.storage := 2 |} |}.

Definition linear_device : Device Z :=
  {| buffers := list_to_map [(0%nat, [0; 0]);
                             (1%nat, [1; 2; 3; 4; 5; 6]);
                             (2%nat, [10; 20]);
                             (3%nat, [1; 1; 1])];
     next_buffer := 4 |}.

Definition linear_input : Linear.Tensor :=
  {| Linear.dim := 1; Linear.size := [3]; Linear.storage := 3 |}.

(** A complete Linear file: 1 output, 2 inputs, two weights with the bit
    patterns 3 and 4, and a bias with the bit pattern 5. *)
Definition linear_file : list Byte.byte :=
  [Byte.x01; Byte.x00; Byte.x00; Byte.x00;
   Byte.x02; Byte.x00; Byte.x00; Byte.x00;
   Byte.x03; Byte.x00; Byte.x00; Byte.x00;
   Byte.x04; Byte.x00; Byte.x00; Byte.x00;
   Byte.x05; Byte.x00; Byte.x00; Byte.x00].

(** A complete normalization file: sizes 3 and 1, a kernel with the bit
    patterns 1, 2, 1 and a threshold with the bit pattern 7. *)
Definition sdn_file : list Byte.byte :=
  [Byte.x03; Byte.x00; Byte.x00; Byte.x00;
   Byte.x01; Byte.x00; Byte.x00; Byte.x00;
   Byte.x01; Byte.x00; Byte.x00; Byte.x00;
   Byte.x02; Byte.x00; Byte.x00; Byte.x00;
   Byte.x01; Byte.x00; Byte.x00; Byte.x00;
   Byte.x07; Byte.x00; Byte.x00; Byte.x00].

(** The header of a normalization file with an even first size. *)
Definition sdn_even_header : list Byte.byte :=
  [Byte.x02; Byte.x00; Byte.x00; Byte.x00;
   Byte.x01; Byte.x00; Byte.x00; Byte.x00].

End Examples.

(** * Theorems *)

(** ** Machine integers *)

Lemma to_u32_small z : 0 <= z < 2 ^ 32 -> to_u32 z = z.
Proof. intros H. unfold to_u32. apply Z.mod_small. exact H. Qed.

Lemma to_i32_small z : - 2 ^ 31 <= z < 2 ^ 31 -> to_i32 z = z.
Proof.
  intros H. unfold to_i32.
  rewrite Z.mod_small by lia. lia.
Qed.

Lemma to_u32_range z : 0 <= to_u32 z < 2 ^ 32.
Proof. unfold to_u32. apply Z.mod_pos_bound. lia. Qed.

Lemma to_u32_to_i32 z : 0 <= z < 2 ^ 32 -> to_u32 (to_i32 z) = z.
Proof.
  intros H. unfold to_u32, to_i32.
  destruct (Z_lt_ge_dec z (2 ^ 31)) as [Hlt | Hge].
  - rewrite (Z.mod_small (z + 2 ^ 31)) by lia.
    replace (z + 2 ^ 31 - 2 ^ 31) with z by lia.
    apply Z.mod_small. lia.
  - replace (z + 2 ^ 31) with ((z - 2 ^ 31) + 1 * 2 ^ 32) by lia.
    rewrite Z.mod_add by lia.
    rewrite (Z.mod_small (z - 2 ^ 31)) by lia.
    replace (z - 2 ^ 31 - 2 ^ 31) with (z + (-1) * 2 ^ 32) by lia.
    rewrite Z.mod_add by lia.
    apply Z.mod_small. lia.
Qed.

(** A [std::min<int32_t>] of two [uint32_t] values, stored back in a
    [uint32_t], is one of the two values (not always the smaller one). *)
Lemma min_i32_cases a b :
  0 <= a < 2 ^ 32 -> 0 <= b < 2 ^ 32 ->
  to_u32 (min_i32 a b) = a \/ to_u32 (min_i32 a b) = b.
Proof.
  intros Ha Hb. unfold min_i32.
  destruct (Z.min_spec (to_i32 a) (to_i32 b)) as [[_ ->] | [_ ->]].
  - left. apply to_u32_to_i32. exact Ha.
  - right. apply to_u32_to_i32. exact Hb.
Qed.

Lemma min_i32_small a b :
  - 2 ^ 31 <= a < 2 ^ 31 -> - 2 ^ 31 <= b < 2 ^ 31 ->
  min_i32 a b = Z.min a b.
Proof.
  intros Ha Hb. unfold min_i32.
  rewrite !to_i32_small by assumption. reflexivity.
Qed.

(** ** The work partition *)

Lemma column_factor_small item1 kmax :
  1 <= item1 < 2 ^ 31 -> 1 <= kmax < 2 ^ 31 ->
  Partition.column_factor item1 kmax = Partition.spec_column_factor item1 kmax.
Proof.
  intros Hi Hk. unfold Partition.column_factor, Partition.spec_column_factor.
  rewrite (min_i32_small item1 kmax) by lia.
  rewrite min_i32_small by lia.
  apply to_u32_small. lia.
Qed.

Lemma spec_column_factor_bounds item1 kmax :
  1 <= item1 -> 1 <= kmax ->
  let p := Partition.spec_column_factor item1 kmax in
  1 <= p <= 16 /\ p <= item1 /\ p <= kmax.
Proof. intros Hi Hk. unfold Partition.spec_column_factor. lia. Qed.

Lemma shrink_cond_false n ls0 p kmax :
  1 <= ls0 -> 0 <= p -> ls0 * p < 2 ^ 32 -> p <= kmax ->
  Partition.shrink_cond n ls0 p kmax = false ->
  ((ls0 | n) /\ ls0 * p <= kmax) \/ ls0 = 1.
Proof.
  intros Hls Hp Hprod Hpk Hc. unfold Partition.shrink_cond in Hc.
  rewrite to_u32_small in Hc by lia.
  apply andb_false_iff in Hc as [Hc | Hc].
  - apply orb_false_iff in Hc as [Hm Hw].
    apply negb_false_iff, Z.eqb_eq in Hm. apply Z.ltb_ge in Hw.
    left. split; [| exact Hw].
    apply Z.mod_divide; [lia | exact Hm].
  - apply Z.ltb_ge in Hc. right. lia.
Qed.

Lemma shrink_cond_true n ls0 p kmax :
  1 <= ls0 -> 0 <= p -> ls0 * p < 2 ^ 32 ->
  Partition.shrink_cond n ls0 p kmax = true ->
  ~ ((ls0 | n) /\ ls0 * p <= kmax) /\ 1 < ls0.
Proof.
  intros Hls Hp Hprod Hc. unfold Partition.shrink_cond in Hc.
  rewrite to_u32_small in Hc by lia.
  apply andb_true_iff in Hc as [Hc H1]. apply Z.ltb_lt in H1.
  split; [| exact H1]. intros [Hd Hle].
  apply orb_true_iff in Hc as [Hm | Hw].
  - apply negb_true_iff, Z.eqb_neq in Hm. apply Hm.
    apply Z.mod_divide; [lia | exact Hd].
  - apply Z.ltb_lt in Hw. lia.
Qed.

(** The loop ends within [ls0] steps, on a row factor that divides the row
    count and keeps the group within the kernel's limit; and it is the
    factor the specification's shrink rule reaches. *)
Lemma shrink_result fuel : forall n ls0 p kmax,
  1 <= ls0 -> (Z.to_nat ls0 <= fuel)%nat ->
  1 <= p -> ls0 * p < 2 ^ 32 -> p <= kmax ->
  exists r,
    Partition.shrink fuel n ls0 p kmax = Ok r /\
    1 <= r <= ls0 /\ (r | n) /\ r * p <= kmax /\
    Partition.spec_shrink n p kmax ls0 r.
Proof.
  induction fuel as [| fuel IH]; intros n ls0 p kmax Hls Hfuel Hp Hprod Hpk.
  - lia.
  - cbn [Partition.shrink].
    destruct (Z.eqb_spec ls0 0) as [-> | _]; [lia |].
    destruct (Partition.shrink_cond n ls0 p kmax) eqn:Hc.
    + apply shrink_cond_true in Hc as [Hnot Hgt]; [| lia ..].
      rewrite to_u32_small by lia.
      destruct (IH n (ls0 - 1) p kmax) as (r & Hr & Hb & Hd & Hle & Hs);
        [lia | lia | lia | nia | lia |].
      exists r. repeat split; try assumption; try lia.
      apply Partition.spec_shrink_dec; assumption.
    + apply shrink_cond_false in Hc; [| lia ..].
      exists ls0. split; [reflexivity |].
      destruct Hc as [[Hd Hle] | ->].
      * repeat split; try assumption; try lia.
        apply Partition.spec_shrink_fits; assumption.
      * repeat split; try lia.
        -- apply Z.divide_1_l.
        -- apply Partition.spec_shrink_one.
Qed.

(** The fuel handed to the loop is enough: whatever the limits, the
    partition either is computed or stops on a division by zero. *)
Lemma shrink_fuel_enough fuel : forall n ls0 p kmax,
  0 <= ls0 < 2 ^ 32 -> (Z.to_nat ls0 <= fuel)%nat ->
  Partition.shrink fuel n ls0 p kmax ≠ Err OutOfFuel.
Proof.
  induction fuel as [| fuel IH]; intros n ls0 p kmax Hls Hfuel;
    cbn [Partition.shrink].
  - destruct (Z.eqb_spec ls0 0) as [_ | Hne]; [discriminate | lia].
  - destruct (Z.eqb_spec ls0 0) as [_ | Hne]; [discriminate |].
    destruct (Partition.shrink_cond n ls0 p kmax) eqn:Hc; [| discriminate].
    unfold Partition.shrink_cond in Hc.
    apply andb_true_iff in Hc as [_ Hgt]. apply Z.ltb_lt in Hgt.
    rewrite to_u32_small by lia. apply IH; lia.
Qed.

Lemma work_partition_terminates (lim : DeviceLimits) (n : Z) :
  Partition.work_partition lim n ≠ Err OutOfFuel.
Proof.
  unfold Partition.work_partition, Partition.row_factor_start.
  destruct (_ =? 0); cbn [rbind]; [discriminate |].
  set (ls0 := to_u32 _).
  pose proof (shrink_fuel_enough (Z.to_nat ls0) n ls0
                (Partition.column_factor (workitem_size lim 1)
                   (max_workgroup_size_kernel lim))
                (max_workgroup_size_kernel lim)) as Hs.
  destruct (Partition.shrink _ _ _ _ _) as [r | e]; cbn [rbind];
    [discriminate |].
  intros [= ->]. apply Hs; [apply to_u32_range | lia | reflexivity].
Qed.

(** The specification's shrink rule names one row factor. *)
Lemma spec_shrink_deterministic n p kmax r r1 :
  Partition.spec_shrink n p kmax r r1 ->
  forall r2, Partition.spec_shrink n p kmax r r2 -> r1 = r2.
Proof.
  induction 1 as [r Hd Hle | | r r1 Hnot Hgt _ IH]; intros r2 H2.
  - inversion H2; subst; try reflexivity. tauto.
  - inversion H2; subst; try reflexivity. lia.
  - inversion H2; subst.
    + tauto.
    + lia.
    + apply IH. assumption.
Qed.

Lemma row_factor_start_small n p devmax :
  0 <= n -> n + 1 < 2 ^ 31 -> 1 <= p -> 0 <= devmax < 2 ^ 31 ->
  Partition.row_factor_start n p devmax =
  Ok (Partition.spec_row_start n p devmax).
Proof.
  intros Hn Hn1 Hp Hd. unfold Partition.row_factor_start.
  destruct (Z.eqb_spec p 0) as [-> | _]; [lia |].
  assert (Hq : 0 <= n / p <= n).
  { split; [apply Z.div_pos; lia |].
    apply Z.div_le_upper_bound; nia. }
  assert (Hdq : 0 <= devmax / p <= devmax).
  { split; [apply Z.div_pos; lia |].
    apply Z.div_le_upper_bound; nia. }
  rewrite (to_u32_small (n / p + 1)) by lia.
  rewrite min_i32_small by lia.
  unfold Partition.spec_row_start.
  rewrite to_u32_small by lia. reflexivity.
Qed.

(** C5, as amended: on limits that fit the [int32_t] the code converts them
    to, and with the column factor within the device's work-group limit,
    [Linear::forwardProp] partitions the work as the heuristic says: the
    column factor is [min(16, maxWorkitemSize[1], kernel max)], the row
    factor starts at [min(rows / p + 1, device max / p)] and is the one the
    shrink rule reaches from there. *)
Theorem work_partition_follows_heuristic (lim : DeviceLimits) (n : Z) :
  let item1 := workitem_size lim 1 in
  let kmax := max_workgroup_size_kernel lim in
  let devmax := max_workgroup_size lim in
  let p := Partition.spec_column_factor item1 kmax in
  1 <= n -> n + 1 < 2 ^ 31 ->
  1 <= item1 < 2 ^ 31 -> 1 <= kmax < 2 ^ 31 ->
  p <= devmax < 2 ^ 31 ->
  exists r,
    Partition.work_partition lim n =
      Ok {| Partition.global_size := (n, p);
            Partition.local_size := (r, p) |} /\
    Partition.spec_shrink n p kmax (Partition.spec_row_start n p devmax) r.
Proof.
  intros item1 kmax devmax p Hn Hn1 Hi Hk Hd.
  destruct (spec_column_factor_bounds item1 kmax) as (Hp & _ & Hpk);
    [lia | lia |].
  fold p in Hp, Hpk.
  unfold Partition.work_partition.
  fold item1 kmax devmax.
  rewrite column_factor_small by assumption. fold p.
  rewrite row_factor_start_small by lia.
  cbn [rbind].
  set (start := Partition.spec_row_start n p devmax).
  assert (Hstart : 1 <= start /\ start * p <= devmax).
  { subst start. unfold Partition.spec_row_start.
    assert (0 <= n / p) by (apply Z.div_pos; lia).
    assert (1 <= devmax / p) by (apply Z.div_le_lower_bound; lia).
    assert (p * (devmax / p) <= devmax) by (apply Z.mul_div_le; lia).
    split; [lia | nia]. }
  destruct (shrink_result (Z.to_nat start) n start p kmax)
    as (r & Hr & _ & _ & _ & Hspec); [lia | lia | lia | lia | lia |].
  exists r. rewrite Hr. cbn [rbind]. split; [reflexivity | exact Hspec].
Qed.

Lemma work_partition_follows_heuristic_witness :
  exists r,
    Partition.work_partition
      {| max_workitem_size := (1024, 1024, 64);
         max_workgroup_size := 1024;
         max_workgroup_size_kernel := 256 |} 64 =
      Ok {| Partition.global_size := (64, 16);
            Partition.local_size := (r, 16) |} /\
    Partition.spec_shrink 64 16 256 (Partition.spec_row_start 64 16 1024) r.
Proof.
  apply (work_partition_follows_heuristic
           {| max_workitem_size := (1024, 1024, 64);
              max_workgroup_size := 1024;
              max_workgroup_size_kernel := 256 |} 64);
    unfold Partition.spec_column_factor, workitem_size; simpl; lia.
Defined.

(** C5, as stated, fails: a [maxWorkitemSize[1]] of 4294967295 becomes -1 in
    [std::min<int32_t>], so the column factor is 4294967295 where the
    heuristic says 16, and the row factor starts at 0. *)
Lemma work_partition_heuristic_counterexample :
  let lim := {| max_workitem_size := (1024, 4294967295, 64);
                max_workgroup_size := 1024;
                max_workgroup_size_kernel := 256 |} in
  Partition.column_factor (workitem_size lim 1)
    (max_workgroup_size_kernel lim) = 4294967295 /\
  Partition.spec_column_factor (workitem_size lim 1)
    (max_workgroup_size_kernel lim) = 16 /\
  Partition.work_partition lim 64 = Err DivisionByZero /\
  ~ (exists r,
       Partition.work_partition lim 64 =
         Ok {| Partition.global_size := (64, 16);
               Partition.local_size := (r, 16) |}).
Proof.
  repeat split; try (vm_compute; reflexivity).
  intros [r Hr]. vm_compute in Hr. discriminate Hr.
Qed.

(** The shape of the partition on limits that fit [int32_t]: the global
    size is (rows, p), the local size (r, p) with [r] a positive divisor of
    the rows, and the group within both work-group limits. *)
Lemma work_partition_shape (lim : DeviceLimits) (n : Z) :
  let item1 := workitem_size lim 1 in
  let kmax := max_workgroup_size_kernel lim in
  let devmax := max_workgroup_size lim in
  let p := Partition.spec_column_factor item1 kmax in
  1 <= n -> n + 1 < 2 ^ 31 ->
  1 <= item1 < 2 ^ 31 -> 1 <= kmax < 2 ^ 31 ->
  1 <= devmax < 2 ^ 32 ->
  p <= devmax ->
  exists r,
    Partition.work_partition lim n =
      Ok {| Partition.global_size := (n, p);
            Partition.local_size := (r, p) |} /\
    1 <= r /\ (r | n) /\ r * p <= kmax /\ r * p <= devmax.
Proof.
  intros item1 kmax devmax p Hn Hn1 Hi Hk Hd Hpd.
  destruct (spec_column_factor_bounds item1 kmax) as (Hp & Hpi & Hpk);
    [lia | lia |].
  fold p in Hp, Hpi, Hpk.
  unfold Partition.work_partition. fold item1 kmax devmax.
  rewrite column_factor_small by assumption. fold p.
  unfold Partition.row_factor_start.
  destruct (Z.eqb_spec p 0) as [Hp0 | _]; [lia |].
  cbn [rbind].
  assert (Hq : 0 <= n / p <= n).
  { split; [apply Z.div_pos; lia |].
    apply Z.div_le_upper_bound; nia. }
  assert (Hqp : p * (n / p) <= n) by (apply Z.mul_div_le; lia).
  assert (Hdq : 1 <= devmax / p) by (apply Z.div_le_lower_bound; lia).
  assert (Hdp : p * (devmax / p) <= devmax) by (apply Z.mul_div_le; lia).
  assert (Hdu : devmax / p <= devmax) by (apply Z.div_le_upper_bound; nia).
  rewrite (to_u32_small (n / p + 1)) by lia.
  set (ls0 := to_u32 (min_i32 (n / p + 1) (devmax / p))).
  assert (Hls : 1 <= ls0 <= devmax / p).
  { subst ls0. unfold min_i32.
    rewrite (to_i32_small (n / p + 1)) by lia.
    destruct (Z_lt_ge_dec (devmax / p) (2 ^ 31)) as [Hsm | Hbig].
    - rewrite (to_i32_small (devmax / p)) by lia.
      rewrite to_u32_small by lia. lia.
    - (* a quotient of 2^31 or more is negative as an int: it is the one
         std::min<int> returns *)
      assert (Hneg : to_i32 (devmax / p) < 0).
      { unfold to_i32.
        replace (devmax / p + 2 ^ 31)
          with ((devmax / p - 2 ^ 31) + 1 * 2 ^ 32) by lia.
        rewrite Z.mod_add by lia.
        rewrite Z.mod_small by lia. lia. }
      rewrite Z.min_r by lia.
      rewrite to_u32_to_i32 by lia. lia. }
  assert (Hlsp : ls0 * p <= devmax) by nia.
  destruct (shrink_result (Z.to_nat ls0) n ls0 p kmax)
    as (r & Hr & Hrb & Hrd & Hrk & _); [lia | lia | lia | lia | lia |].
  rewrite Hr. cbn [rbind].
  exists r. split; [reflexivity |].
  assert (Hrd' : r * p <= devmax) by nia.
  repeat split; try assumption; lia.
Qed.

(** C6, as amended: for at least one output row and limits that fit
    [int32_t], with the column factor within the device's work-group limit
    (as it is whenever the kernel's limit does not exceed the device's), the
    shrink loop terminates and the local size is legal: each local
    dimension is positive and divides the global one, and the group is
    within the kernel's and the device's work-group limits.  When moreover
    the device's work-group limit is within its first work-item limit,
    launch accepts the local size. *)
Theorem work_partition_legal (lim : DeviceLimits) (n : Z) :
  let item1 := workitem_size lim 1 in
  let kmax := max_workgroup_size_kernel lim in
  let devmax := max_workgroup_size lim in
  1 <= n -> n + 1 < 2 ^ 31 ->
  1 <= item1 < 2 ^ 31 -> 1 <= kmax < 2 ^ 31 ->
  1 <= devmax < 2 ^ 32 ->
  Partition.spec_column_factor item1 kmax <= devmax ->
  exists g0 g1 l0 l1,
    Partition.work_partition lim n =
      Ok {| Partition.global_size := (g0, g1);
            Partition.local_size := (l0, l1) |} /\
    g0 = n /\ 1 <= l0 /\ 1 <= l1 <= item1 /\
    (l0 | g0) /\ (l1 | g1) /\
    l0 * l1 <= kmax /\ l0 * l1 <= devmax /\
    (devmax <= workitem_size lim 0 ->
     launch_legal lim {| Partition.global_size := (g0, g1);
                         Partition.local_size := (l0, l1) |} = true).
Proof.
  intros item1 kmax devmax Hn Hn1 Hi Hk Hd Hpd.
  set (p := Partition.spec_column_factor item1 kmax) in *.
  destruct (spec_column_factor_bounds item1 kmax) as (Hp & Hpi & Hpk);
    [lia | lia |].
  fold p in Hp, Hpi, Hpk.
  destruct (work_partition_shape lim n Hn Hn1 Hi Hk Hd Hpd)
    as (r & Hwp & Hr1 & Hrd & Hrk & Hrdev).
  fold item1 kmax devmax p in Hwp, Hrk, Hrdev.
  exists n, p, r, p. split; [exact Hwp |].
  repeat split; try assumption; try lia.
  - apply Z.divide_refl.
  - intros Hitem0. unfold launch_legal. cbn [Partition.global_size
      Partition.local_size]. fold item1 kmax devmax.
    assert (Hmod : n mod r = 0) by (apply Z.mod_divide; [lia | exact Hrd]).
    assert (Hpp : p mod p = 0) by (apply Z.mod_same; lia).
    assert (Hr0 : r <= workitem_size lim 0) by nia.
    rewrite Hmod, Hpp.
    repeat (apply andb_true_iff; split);
      first [ apply negb_true_iff, Z.eqb_neq; lia
            | apply Z.eqb_eq; reflexivity
            | apply Z.leb_le; lia ].
Qed.

Lemma work_partition_legal_witness :
  exists g0 g1 l0 l1,
    Partition.work_partition
      {| max_workitem_size := (256, 256, 64);
         max_workgroup_size := 256;
         max_workgroup_size_kernel := 128 |} 100 =
      Ok {| Partition.global_size := (g0, g1);
            Partition.local_size := (l0, l1) |} /\
    g0 = 100 /\ 1 <= l0 /\ 1 <= l1 <= 256 /\
    (l0 | g0) /\ (l1 | g1) /\
    l0 * l1 <= 128 /\ l0 * l1 <= 256 /\
    (256 <= 256 ->
     launch_legal
       {| max_workitem_size := (256, 256, 64);
          max_workgroup_size := 256;
          max_workgroup_size_kernel := 128 |}
       {| Partition.global_size := (g0, g1);
          Partition.local_size := (l0, l1) |} = true).
Proof.
  apply (work_partition_legal
           {| max_workitem_size := (256, 256, 64);
              max_workgroup_size := 256;
              max_workgroup_size_kernel := 128 |} 100);
    unfold Partition.spec_column_factor, workitem_size; simpl; lia.
Defined.

(** C6, as stated, fails: with one output row, [maxWorkitemSize[1] = 2], a
    kernel limit of 2 and a device limit of 1 (all at least 1), the row
    factor starts at [min(1, 1 / 2) = 0] and the loop condition divides by
    it: no local size is produced. *)
Lemma work_partition_legal_counterexample :
  let lim := {| max_workitem_size := (2, 2, 2);
                max_workgroup_size := 1;
                max_workgroup_size_kernel := 2 |} in
  1 <= workitem_size lim 1 /\
  1 <= max_workgroup_size_kernel lim /\
  1 <= max_workgroup_size lim /\
  Partition.work_partition lim 1 = Err DivisionByZero /\
  ~ (exists sz, Partition.work_partition lim 1 = Ok sz).
Proof.
  repeat split; try (vm_compute; congruence).
  intros [sz Hsz]. vm_compute in Hsz. discriminate Hsz.
Qed.

(** ** Device memory *)

Section DeviceFacts.
Context {F : Type} {ops : FloatOps F}.

Lemma load_alloc_fresh n (d : Device F) :
  load (alloc n d).1 (alloc n d).2 = Ok (replicate n fzero).
Proof. unfold load, alloc. cbn. rewrite lookup_insert_eq. reflexivity. Qed.

Lemma load_alloc_other n b (d : Device F) :
  b ≠ next_buffer d -> load b (alloc n d).2 = load b d.
Proof.
  intros Hne. unfold load, alloc. cbn.
  rewrite lookup_insert_ne by congruence. reflexivity.
Qed.

Lemma next_buffer_alloc n (d : Device F) :
  next_buffer (alloc n d).2 = S (next_buffer d).
Proof. reflexivity. Qed.

Lemma store_inv b l (d d' : Device F) :
  store b l d = Ok d' ->
  is_Some (buffers d !! b) /\
  d' = {| buffers := <[b := l]> (buffers d);
          next_buffer := next_buffer d |}.
Proof.
  unfold store. destruct (buffers d !! b) eqn:E; [| discriminate].
  intros [= <-]. split; [eauto | reflexivity].
Qed.

Lemma store_live b l (d : Device F) :
  is_Some (buffers d !! b) -> exists d', store b l d = Ok d'.
Proof. intros [x Hx]. unfold store. rewrite Hx. eauto. Qed.

Lemma store_next_buffer b l (d d' : Device F) :
  store b l d = Ok d' -> next_buffer d' = next_buffer d.
Proof. intros Hs. apply store_inv in Hs as [_ ->]. reflexivity. Qed.

(** Writing a buffer neither creates nor releases one. *)
Lemma store_dom b l (d d' : Device F) :
  store b l d = Ok d' -> dom (buffers d') = dom (buffers d).
Proof.
  intros Hs. apply store_inv in Hs as [Hb ->]. cbn.
  rewrite dom_insert_L.
  apply elem_of_dom in Hb.
  apply subseteq_union_1_L, singleton_subseteq_l. exact Hb.
Qed.

Lemma load_store_same b l (d d' : Device F) :
  store b l d = Ok d' -> load b d' = Ok l.
Proof.
  intros Hs. apply store_inv in Hs as [_ ->].
  unfold load. cbn. rewrite lookup_insert_eq. reflexivity.
Qed.

Lemma load_store_other b b' l (d d' : Device F) :
  store b l d = Ok d' -> b' ≠ b -> load b' d' = load b' d.
Proof.
  intros Hs Hne. apply store_inv in Hs as [_ ->].
  unfold load. cbn. rewrite lookup_insert_ne by congruence. reflexivity.
Qed.

Lemma load_live b (d : Device F) l :
  load b d = Ok l -> buffers d !! b = Some l.
Proof.
  unfold load. destruct (buffers d !! b); [| discriminate].
  intros [= ->]. reflexivity.
Qed.

End DeviceFacts.

(** ** The normalization stage: construction *)

Section SDNFacts.
Import SpatialDivisiveNormalization.
Context {F : Type} {ops : FloatOps F}.
Variable device_kernel :
  entry -> list (list F) -> list Z -> list F -> Int3 -> list F.

Lemma Tensor_new_ok dims (d : Device F) :
  0 < ix dims 0 -> 0 < ix dims 1 -> 0 < ix dims 2 ->
  Tensor_new dims d =
  Ok ({| dim := dims; data := next_buffer d |},
      (alloc (Z.to_nat (ix dims 0 * ix dims 1 * ix dims 2)) d).2).
Proof.
  intros H0 H1 H2. unfold Tensor_new.
  apply Z.ltb_lt in H0, H1, H2. rewrite H0, H1, H2. reflexivity.
Qed.

Lemma Tensor_new_inv dims (d : Device F) t d' :
  Tensor_new dims d = Ok (t, d') ->
  (0 < ix dims 0 /\ 0 < ix dims 1 /\ 0 < ix dims 2) /\
  t = {| dim := dims; data := next_buffer d |} /\
  d' = (alloc (Z.to_nat (ix dims 0 * ix dims 1 * ix dims 2)) d).2.
Proof.
  unfold Tensor_new.
  destruct (0 <? ix dims 0) eqn:H0; [| discriminate].
  destruct (0 <? ix dims 1) eqn:H1; [| discriminate].
  destruct (0 <? ix dims 2) eqn:H2; [| discriminate].
  cbn. intros [= <- <-].
  apply Z.ltb_lt in H0, H1, H2. auto.
Qed.

Lemma Tensor_new_error dims (d : Device F) e :
  Tensor_new dims d = Err e -> e = InvalidShapeError.
Proof.
  unfold Tensor_new.
  destruct (_ && _); cbn; [discriminate | congruence].
Qed.

Lemma store_error b l (d : Device F) e :
  store b l d = Err e -> e = DanglingBuffer.
Proof.
  unfold store. destruct (buffers d !! b); [discriminate | congruence].
Qed.

Lemma load_error b (d : Device F) e :
  load b d = Err e -> e = DanglingBuffer.
Proof. unfold load. destruct (buffers d !! b); [discriminate | congruence]. Qed.

(** [clone] of a tensor object: a new handle, the same extents, the same
    contents; the original is untouched. *)
Lemma clone_ok (t : Tensor) (d : Device F) l :
  (0 < ix (dim t) 0 /\ 0 < ix (dim t) 1 /\ 0 < ix (dim t) 2) ->
  load (data t) d = Ok l ->
  exists d',
    clone t d = Ok ({| dim := dim t; data := next_buffer d |}, d') /\
    load (next_buffer d) d' = Ok l /\
    next_buffer d' = S (next_buffer d) /\
    (forall b, b ≠ next_buffer d -> load b d' = load b d).
Proof.
  intros (H0 & H1 & H2) Hl. unfold clone, getData.
  rewrite Hl. cbn [rbind].
  rewrite Tensor_new_ok by assumption. cbn [rbind data].
  set (d1 := (alloc _ d).2).
  destruct (store_live (next_buffer d) l d1) as [d' Hd'].
  { subst d1. cbn. rewrite lookup_insert_eq. eauto. }
  rewrite Hd'. cbn [rbind]. exists d'. split; [reflexivity |].
  split; [eapply load_store_same; eassumption |].
  split.
  - erewrite store_next_buffer by eassumption. reflexivity.
  - intros b Hb. erewrite load_store_other by eassumption.
    apply load_alloc_other. exact Hb.
Qed.

Lemma clone_error (t : Tensor) (d : Device F) e :
  clone t d = Err e -> e = InvalidShapeError \/ e = DanglingBuffer.
Proof.
  unfold clone, getData.
  destruct (load (data t) d) eqn:El; cbn [rbind].
  - destruct (Tensor_new (dim t) d) as [[t' d1] |] eqn:Et; cbn [rbind].
    + destruct (store (data t') a d1) eqn:Es; cbn [rbind]; [discriminate |].
      intros [= <-]. right. eapply store_error. eassumption.
    + intros [= <-]. left. eapply Tensor_new_error. eassumption.
  - intros [= <-]. right. eapply load_error. eassumption.
Qed.

Lemma rem2_even a : Z.rem a 2 = 0 <-> Z.even a = true.
Proof.
  rewrite Z.even_spec. split.
  - intros Hr. exists (Z.quot a 2).
    pose proof (Z.quot_rem' a 2) as Hq. lia.
  - intros [k ->]. rewrite Z.mul_comm. apply Z.rem_mul. lia.
Qed.

Lemma kernel_check_spec (K : Tensor) :
  (Z.rem (ix (dim K) 0) 2 =? 0) || (Z.rem (ix (dim K) 1) 2 =? 0)
    || negb (ix (dim K) 2 =? 1) = true <->
  Z.even (ix (dim K) 0) = true \/ Z.even (ix (dim K) 1) = true \/
  ix (dim K) 2 ≠ 1.
Proof.
  rewrite !orb_true_iff, negb_true_iff, !Z.eqb_eq, Z.eqb_neq, !rem2_even.
  tauto.
Qed.

Lemma new_ok (K : Tensor) (threshold : F) (d : Device F) :
  live_tensor K d ->
  Z.odd (ix (dim K) 0) = true -> Z.odd (ix (dim K) 1) = true ->
  ix (dim K) 2 = 1 ->
  exists st d', new K threshold d = Ok (st, d') /\
    kernel_ st = Some {| dim := dim K; data := next_buffer d |} /\
    threshold_ st = threshold.
Proof.
  intros [Hpos [l Hl]] Ho0 Ho1 H2.
  assert (Hload : load (data K) d = Ok l) by (unfold load; rewrite Hl; auto).
  destruct (clone_ok K d l Hpos Hload) as (d' & Hc & _).
  assert (Hc' : (Z.rem (ix (dim K) 0) 2 =? 0)
                || (Z.rem (ix (dim K) 1) 2 =? 0)
                || negb (ix (dim K) 2 =? 1) = false).
  { apply not_true_is_false. rewrite kernel_check_spec.
    rewrite <- !Z.negb_odd, Ho0, Ho1. cbn. intuition congruence. }
  unfold new. rewrite Hc', Hc. cbn [rbind].
  eexists _, d'. split; [reflexivity |]. cbn. auto.
Qed.

(** C8: constructing the stage from a kernel tensor fails with the kernel
    shape error exactly when the first extent is even, or the second is,
    or the third is not 1; otherwise it succeeds, with a private copy of
    the kernel and nothing else allocated. *)
Theorem new_fails_iff_bad_kernel (K : Tensor) (threshold : F)
  (d : Device F) :
  live_tensor K d ->
  (new K threshold d = Err InvalidKernelShapeError <->
   Z.even (ix (dim K) 0) = true \/ Z.even (ix (dim K) 1) = true \/
   ix (dim K) 2 ≠ 1) /\
  (Z.odd (ix (dim K) 0) = true -> Z.odd (ix (dim K) 1) = true ->
   ix (dim K) 2 = 1 ->
   exists st d', new K threshold d = Ok (st, d') /\
     kernel_ st = Some {| dim := dim K; data := next_buffer d |} /\
     threshold_ st = threshold).
Proof.
  intros [Hpos [l Hl]].
  assert (Hload : load (data K) d = Ok l) by (unfold load; rewrite Hl; auto).
  destruct (clone_ok K d l Hpos Hload) as (d' & Hc & _).
  split.
  - rewrite <- kernel_check_spec. unfold new.
    destruct (_ || _ || _); [tauto |].
    rewrite Hc. cbn [rbind]. split; discriminate.
  - apply new_ok. split; [exact Hpos | eauto].
Qed.


(** *** [init] *)

Lemma Int3_equal_true (a b : Int3) : Int3_equal a b = true <-> a = b.
Proof.
  destruct a as [[a0 a1] a2], b as [[b0 b1] b2]. unfold Int3_equal. cbn.
  rewrite !andb_true_iff, !Z.eqb_eq. split.
  - intros [[-> ->] ->]. reflexivity.
  - intros [= -> -> ->]. auto.
Qed.

(** On an allocated stage and an input of its shape, [init] changes
    neither the stage nor the device. *)
Lemma init_noop (st : stage) (inp : Tensor) (d : Device F) :
  allocated st (dim inp) -> init st (TensorData inp) d = Ok (st, d).
Proof.
  intros ((out & Hout & Hdim) & [kn Hkn] & [sc Hsc] & [sd Hsd]).
  unfold init, on_shape_change. rewrite Hout.
  assert (Heq : Int3_equal (dim inp) (dim out) = true)
    by (apply Int3_equal_true; congruence).
  rewrite Heq. cbn [negb].
  unfold ensure_output. rewrite Hout. cbn [rbind].
  unfold ensure_kernel_norm. rewrite Hkn. cbn [rbind].
  unfold ensure_std_coef. rewrite Hsc. cbn [rbind].
  unfold ensure_std. rewrite Hsd. reflexivity.
Qed.

Lemma ensure_output_inv st inp d st' d' :
  ensure_output st inp d = Ok (st', d') ->
  kernel_ st' = kernel_ st /\ kernel_norm_ st' = kernel_norm_ st /\
  std_coef_ st' = std_coef_ st /\ std_ st' = std_ st /\
  threshold_ st' = threshold_ st /\
  ((is_Some (output st) /\ st' = st /\ d' = d) \/
   (output st = None /\
    (0 < ix (dim inp) 0 /\ 0 < ix (dim inp) 1 /\ 0 < ix (dim inp) 2) /\
    output st' = Some {| dim := dim inp; data := next_buffer d |} /\
    std_pass1_ st' = Some {| dim := dim inp; data := S (next_buffer d) |} /\
    std_pass2_ st' =
      Some {| dim := dim inp; data := S (S (next_buffer d)) |} /\
    next_buffer d' = S (S (S (next_buffer d))) /\
    (forall b, (b < next_buffer d)%nat -> load b d' = load b d))).
Proof.
  unfold ensure_output. destruct (output st) as [out |] eqn:Hout.
  - intros [= <- <-]. repeat split; try reflexivity. left. eauto.
  - destruct (Tensor_new (dim inp) d) as [[t1 d1] |] eqn:E1;
      cbn [rbind]; [| discriminate].
    destruct (Tensor_new (dim inp) d1) as [[t2 d2] |] eqn:E2;
      cbn [rbind]; [| discriminate].
    destruct (Tensor_new (dim inp) d2) as [[t3 d3] |] eqn:E3;
      cbn [rbind]; [| discriminate].
    intros [= <- <-]. cbn.
    apply Tensor_new_inv in E1 as (Hpos & -> & ->).
    apply Tensor_new_inv in E2 as (_ & -> & ->).
    apply Tensor_new_inv in E3 as (_ & -> & ->).
    repeat split; try reflexivity. right.
    repeat split; try reflexivity; try apply Hpos.
    intros b Hb. rewrite !load_alloc_other; [reflexivity | ..];
      cbn; lia.
Qed.

Lemma ensure_kernel_norm_some st inp d kn :
  kernel_norm_ st = Some kn -> ensure_kernel_norm st inp d = Ok (st, d).
Proof. intros Hk. unfold ensure_kernel_norm. rewrite Hk. reflexivity. Qed.

Lemma ensure_kernel_norm_inv st inp d st' d' :
  ensure_kernel_norm st inp d = Ok (st', d') ->
  kernel_ st' = kernel_ st /\ output st' = output st /\
  std_coef_ st' = std_coef_ st /\ std_ st' = std_ st /\
  std_pass1_ st' = std_pass1_ st /\ std_pass2_ st' = std_pass2_ st /\
  threshold_ st' = threshold_ st /\
  is_Some (kernel_norm_ st') /\
  (kernel_norm_ st = None -> is_Some (kernel_ st)).
Proof.
  unfold ensure_kernel_norm. destruct (kernel_norm_ st) as [kn |] eqn:Hkn.
  - intros [= <- <-]. rewrite Hkn. repeat split; eauto. discriminate.
  - destruct (kernel_ st) as [k |] eqn:Hk; cbn [deref rbind];
      [| discriminate].
    destruct (normalize_kernel k (dim inp) d) as [[kn' d1] |];
      cbn [rbind]; [| discriminate].
    intros [= <- <-]. cbn. repeat split; eauto.
Qed.

Lemma ensure_std_coef_inv st d st' d' :
  ensure_std_coef st d = Ok (st', d') ->
  kernel_ st' = kernel_ st /\ output st' = output st /\
  kernel_norm_ st' = kernel_norm_ st /\ std_ st' = std_ st /\
  std_pass1_ st' = std_pass1_ st /\ std_pass2_ st' = std_pass2_ st /\
  threshold_ st' = threshold_ st /\
  is_Some (std_coef_ st').
Proof.
  unfold ensure_std_coef. destruct (std_coef_ st) as [sc |] eqn:Hsc.
  - intros [= <- <-]. rewrite Hsc. repeat split; eauto.
  - destruct (output st) as [out |]; cbn [deref rbind]; [| discriminate].
    destruct (Tensor_new _ d) as [[sc d1] |]; cbn [rbind]; [| discriminate].
    destruct (kernel_norm_ st) as [kn |]; cbn [deref rbind];
      [| discriminate].
    destruct (getData kn d1) as [l |]; cbn [rbind]; [| discriminate].
    destruct (kernel_ st) as [k |]; cbn [deref rbind]; [| discriminate].
    destruct (setData sc _ d1) as [d2 |]; cbn [rbind]; [| discriminate].
    intros [= <- <-]. cbn. repeat split; eauto.
Qed.

Lemma ensure_std_inv st d st' d' :
  ensure_std st d = Ok (st', d') ->
  kernel_ st' = kernel_ st /\ output st' = output st /\
  kernel_norm_ st' = kernel_norm_ st /\ std_coef_ st' = std_coef_ st /\
  std_pass1_ st' = std_pass1_ st /\ std_pass2_ st' = std_pass2_ st /\
  threshold_ st' = threshold_ st /\
  is_Some (std_ st').
Proof.
  unfold ensure_std. destruct (std_ st) as [sd |] eqn:Hsd.
  - intros [= <- <-]. rewrite Hsd. repeat split; eauto.
  - destruct (output st) as [out |]; cbn [deref rbind]; [| discriminate].
    destruct (Tensor_new _ d) as [[sd d1] |]; cbn [rbind]; [| discriminate].
    intros [= <- <-]. cbn. repeat split; eauto.
Qed.

(** After the teardown of lines 58-64 the kernel itself is gone, and line
    76 dereferences it. *)
Lemma init_after_shape_change (st : stage) (inp out : Tensor)
  (d : Device F) :
  output st = Some out -> dim inp ≠ dim out ->
  0 < ix (dim inp) 0 -> 0 < ix (dim inp) 1 -> 0 < ix (dim inp) 2 ->
  init st (TensorData inp) d = Err NullPointerDereference.
Proof.
  intros Hout Hne H0 H1 H2.
  unfold init, on_shape_change. rewrite Hout.
  assert (Heq : Int3_equal (dim inp) (dim out) = false).
  { apply not_true_is_false. rewrite Int3_equal_true. exact Hne. }
  rewrite Heq. cbn [negb]. unfold teardown.
  unfold ensure_output. cbn [output].
  do 3 (rewrite Tensor_new_ok by assumption; cbn [rbind]).
  unfold ensure_kernel_norm. cbn [kernel_norm_ kernel_ deref rbind].
  reflexivity.
Qed.

(** A successful [init] went through no teardown and leaves every member
    set, the output with the input's shape. *)
Lemma init_inv (st : stage) (inp : Tensor) (d : Device F) st' d' :
  init st (TensorData inp) d = Ok (st', d') ->
  allocated st' (dim inp) /\
  kernel_ st' = kernel_ st /\ threshold_ st' = threshold_ st /\
  (forall out, output st = Some out ->
               dim out = dim inp /\ output st' = Some out).
Proof.
  unfold init. intros Hinit.
  assert (Hsc : on_shape_change st inp d = (st, d) /\
                (forall out, output st = Some out -> dim out = dim inp)).
  { unfold on_shape_change in *.
    destruct (output st) as [out |] eqn:Hout; [| split; [auto | discriminate]].
    destruct (Int3_equal (dim inp) (dim out)) eqn:Heq; cbn [negb] in *.
    - split; [reflexivity |]. intros ? [= <-].
      symmetry. apply Int3_equal_true. exact Heq.
    - exfalso. unfold teardown in Hinit.
      destruct (ensure_output _ inp _) as [[s1 d1] |] eqn:E1;
        cbn [rbind] in Hinit; [| discriminate].
      apply ensure_output_inv in E1 as (Hk & Hkn & _).
      cbn in Hk, Hkn.
      unfold ensure_kernel_norm in Hinit. rewrite Hkn, Hk in Hinit.
      cbn in Hinit. discriminate. }
  destruct Hsc as [Hsc Hsame]. rewrite Hsc in Hinit.
  destruct (ensure_output st inp d) as [[s1 d1] |] eqn:E1;
    cbn [rbind] in Hinit; [| discriminate].
  destruct (ensure_kernel_norm s1 inp d1) as [[s2 d2] |] eqn:E2;
    cbn [rbind] in Hinit; [| discriminate].
  destruct (ensure_std_coef s2 d2) as [[s3 d3] |] eqn:E3;
    cbn [rbind] in Hinit; [| discriminate].
  apply ensure_output_inv in E1
    as (Hk1 & Hkn1 & Hsc1 & Hsd1 & Ht1 & Hcase).
  apply ensure_kernel_norm_inv in E2
    as (Hk2 & Ho2 & Hsc2 & Hsd2 & _ & _ & Ht2 & Hkn2 & _).
  apply ensure_std_coef_inv in E3
    as (Hk3 & Ho3 & Hkn3 & Hsd3 & _ & _ & Ht3 & Hsc3).
  apply ensure_std_inv in Hinit
    as (Hk4 & Ho4 & Hkn4 & Hsc4 & _ & _ & Ht4 & Hsd4).
  assert (Hout1 : exists out, output s1 = Some out /\ dim out = dim inp /\
                    (forall o, output st = Some o -> o = out)).
  { destruct Hcase as [([o Ho] & -> & ->) | (Hnone & _ & Hnew & _)].
    - exists o. split; [exact Ho |]. split; [apply Hsame; exact Ho |].
      intros o' Ho'. congruence.
    - eexists. split; [exact Hnew |]. split; [reflexivity |].
      intros o Ho. congruence. }
  destruct Hout1 as (out & Hout1 & Hdim & Huniq).
  repeat split.
  - exists out. split; [congruence | exact Hdim].
  - congruence.
  - congruence.
  - exact Hsd4.
  - congruence.
  - congruence.
  - apply Hsame. assumption.
  - rewrite (Huniq _ H). congruence.
Qed.


(** *** [forwardProp] *)

Lemma store_keeps b l (d d' : Device F) :
  store b l d = Ok d' ->
  next_buffer d' = next_buffer d /\
  dom (buffers d') = dom (buffers d) /\
  (forall b', b' ≠ b -> load b' d' = load b' d).
Proof.
  intros Hs. split; [eapply store_next_buffer; eassumption |].
  split; [eapply store_dom; eassumption |].
  intros b' Hb'. eapply load_store_other; eassumption.
Qed.

(** A launch writes the target buffer and nothing else; it neither
    creates nor releases a buffer. *)
Lemma runKernel3D_keeps e args ints floats target (d d' : Device F) :
  runKernel3D device_kernel e args ints floats target d = Ok d' ->
  next_buffer d' = next_buffer d /\
  dom (buffers d') = dom (buffers d) /\
  (forall b, b ≠ data target -> load b d' = load b d).
Proof.
  unfold runKernel3D.
  destruct (load_all args d) as [bufs |]; cbn [rbind]; [| discriminate].
  apply store_keeps.
Qed.

Lemma forwardProp_init_error st x (d : Device F) e :
  init st x d = Err e -> forwardProp device_kernel st x d = Err e.
Proof. intros Hi. unfold forwardProp. rewrite Hi. reflexivity. Qed.

Lemma live_dom b (d d' : Device F) :
  dom (buffers d') = dom (buffers d) -> live b d -> live b d'.
Proof.
  unfold live. intros Hd Hb.
  apply elem_of_dom. rewrite Hd. apply elem_of_dom. exact Hb.
Qed.

Lemma load_all_live args (d : Device F) : forall bufs,
  load_all args d = Ok bufs -> Forall (fun t => live (data t) d) args.
Proof.
  induction args as [| t ts IH]; intros bufs; cbn [load_all];
    [constructor |].
  destruct (load (data t) d) as [l |] eqn:El; cbn [rbind]; [| discriminate].
  destruct (load_all ts d) as [ls |]; cbn [rbind]; [| discriminate].
  intros _. constructor; [| eapply IH; reflexivity].
  apply load_live in El. unfold live. rewrite El. eauto.
Qed.

Lemma load_all_ok args (d : Device F) :
  Forall (fun t => live (data t) d) args ->
  exists bufs, load_all args d = Ok bufs.
Proof.
  induction 1 as [| t ts [l Hl] _ [ls IH]]; cbn [load_all]; [eauto |].
  unfold load at 1. rewrite Hl. cbn [rbind]. rewrite IH. cbn [rbind]. eauto.
Qed.

Lemma runKernel3D_live e args ints floats target (d d' : Device F) :
  runKernel3D device_kernel e args ints floats target d = Ok d' ->
  Forall (fun t => live (data t) d) (target :: args).
Proof.
  unfold runKernel3D.
  destruct (load_all args d) as [bufs |] eqn:El; cbn [rbind];
    [| discriminate].
  intros Hs. constructor.
  - apply store_inv in Hs as [Hb _]. exact Hb.
  - eapply load_all_live. eassumption.
Qed.

Lemma runKernel3D_ok e args ints floats target (d : Device F) :
  Forall (fun t => live (data t) d) (target :: args) ->
  exists d', runKernel3D device_kernel e args ints floats target d = Ok d'.
Proof.
  intros Hl. apply Forall_cons in Hl as [Ht Ha].
  unfold runKernel3D.
  destruct (load_all_ok args d Ha) as [bufs ->]. cbn [rbind].
  apply store_live. exact Ht.
Qed.

(** Running a plan writes its targets and nothing else, creates and
    releases no buffer, and needs exactly the plan's tensors on the
    device. *)
Lemma run_plan_keeps (plan : list launch) : forall (d d' : Device F),
  run_plan device_kernel plan d = Ok d' ->
  next_buffer d' = next_buffer d /\
  dom (buffers d') = dom (buffers d) /\
  (forall b, Forall (fun l => b ≠ data (l_target l)) plan ->
             load b d' = load b d) /\
  Forall (fun t => live (data t) d) (plan_tensors plan).
Proof.
  induction plan as [| l plan IH]; intros d d'; cbn [run_plan].
  - intros [= <-]. repeat split; constructor.
  - destruct (runKernel3D _ _ _ _ _ _ d) as [d1 |] eqn:E1; cbn [rbind];
      [| discriminate].
    intros Hrest.
    apply IH in Hrest as (Hn & Hd & Hl & Hlive).
    pose proof (runKernel3D_live _ _ _ _ _ _ _ E1) as Hlive1.
    apply runKernel3D_keeps in E1 as (Hn1 & Hd1 & Hl1).
    split; [congruence |]. split; [congruence |]. split.
    + intros b Hb. apply Forall_cons in Hb as [Hb1 Hb].
      rewrite Hl by exact Hb. apply Hl1. exact Hb1.
    + unfold plan_tensors. cbn [mbind list_bind]. fold (plan_tensors plan).
      apply Forall_app. split; [exact Hlive1 |].
      eapply Forall_impl; [exact Hlive |].
      intros t Ht. cbn beta in Ht. eapply live_dom; [| exact Ht].
      symmetry. exact Hd1.
Qed.

Lemma run_plan_ok (plan : list launch) : forall (d : Device F),
  Forall (fun t => live (data t) d) (plan_tensors plan) ->
  exists d', run_plan device_kernel plan d = Ok d'.
Proof.
  induction plan as [| l plan IH]; intros d Hl; cbn [run_plan]; [eauto |].
  unfold plan_tensors in Hl. cbn [mbind list_bind] in Hl.
  fold (plan_tensors plan) in Hl.
  apply Forall_app in Hl as [Hl1 Hl2].
  destruct (runKernel3D_ok (l_entry l) (l_buffers l) (l_ints l) (l_floats l)
              (l_target l) d Hl1) as [d1 Hd1].
  rewrite Hd1. cbn [rbind].
  apply IH. eapply Forall_impl; [exact Hl2 |].
  intros t Ht. cbn beta in Ht.
  apply runKernel3D_keeps in Hd1 as (_ & Hd & _).
  eapply live_dom; eassumption.
Qed.

(** [forwardProp] is [init] followed by the launches of the plan. *)
Lemma forwardProp_plan st inp (d : Device F) :
  forwardProp device_kernel st (TensorData inp) d =
  ('(st', d1) <- init st (TensorData inp) d ;;
   plan <- launch_plan st' inp ;;
   d2 <- run_plan device_kernel plan d1 ;;
   Ok (st', d2)).
Proof.
  unfold forwardProp, launch_plan.
  destruct (init st (TensorData inp) d) as [[s1 d1] |]; cbn [rbind];
    [| reflexivity].
  destruct (kernel_ s1) as [k |]; cbn [deref rbind]; [| reflexivity].
  destruct (output s1) as [out |]; cbn [deref rbind]; [| reflexivity].
  destruct (kernel_norm_ s1) as [kn |]; cbn [deref rbind]; [| reflexivity].
  destruct (std_pass1_ s1) as [p1 |]; cbn [deref rbind]; [| reflexivity].
  destruct (std_pass2_ s1) as [p2 |]; cbn [deref rbind]; [| reflexivity].
  destruct (std_ s1) as [sd |]; cbn [deref rbind]; [| reflexivity].
  destruct (std_coef_ s1) as [sc |]; cbn [deref rbind]; [| reflexivity].
  destruct (ix (dim k) 1 =? 1);
    cbn [app run_plan l_entry l_buffers l_ints l_floats l_target];
    repeat match goal with
           | |- context [rbind (runKernel3D ?k ?e ?a ?i ?f ?t ?dv) _] =>
               destruct (runKernel3D k e a i f t dv); cbn [rbind]
           end;
    reflexivity.
Qed.

(** The plan for another input reads and writes the same tensors, but for
    the input. *)
Lemma launch_plan_other_input (st : stage (F := F)) in1 in2
  (plan1 : list (launch (F := F))) :
  launch_plan st in1 = Ok plan1 ->
  exists plan2,
    launch_plan st in2 = Ok plan2 /\
    Forall (fun t => t = in2 \/ t ∈ plan_tensors plan1) (plan_tensors plan2).
Proof.
  unfold launch_plan.
  destruct (kernel_ st) as [k |]; cbn [deref rbind]; [| discriminate].
  destruct (output st) as [out |]; cbn [deref rbind]; [| discriminate].
  destruct (kernel_norm_ st) as [kn |]; cbn [deref rbind]; [| discriminate].
  destruct (std_pass1_ st) as [p1 |]; cbn [deref rbind]; [| discriminate].
  destruct (std_pass2_ st) as [p2 |]; cbn [deref rbind]; [| discriminate].
  destruct (std_ st) as [sd |]; cbn [deref rbind]; [| discriminate].
  destruct (std_coef_ st) as [sc |]; cbn [deref rbind]; [| discriminate].
  intros [= <-]. eexists. split; [reflexivity |].
  destruct (ix (dim k) 1 =? 1); cbn;
    repeat (constructor; [first [left; reflexivity | right; set_solver] |]);
    constructor.
Qed.

Lemma launch_plan_targets (st : stage (F := F)) inp
  (plan : list (launch (F := F))) :
  launch_plan st inp = Ok plan ->
  exists out pass1 pass2 std,
    output st = Some out /\ std_pass1_ st = Some pass1 /\
    std_pass2_ st = Some pass2 /\ std_ st = Some std /\
    Forall (fun l => l_target l = out \/ l_target l = pass1 \/
                     l_target l = pass2 \/ l_target l = std) plan.
Proof.
  unfold launch_plan.
  destruct (kernel_ st) as [k |]; cbn [deref rbind]; [| discriminate].
  destruct (output st) as [out |]; cbn [deref rbind]; [| discriminate].
  destruct (kernel_norm_ st) as [kn |]; cbn [deref rbind]; [| discriminate].
  destruct (std_pass1_ st) as [p1 |]; cbn [deref rbind]; [| discriminate].
  destruct (std_pass2_ st) as [p2 |]; cbn [deref rbind]; [| discriminate].
  destruct (std_ st) as [sd |]; cbn [deref rbind]; [| discriminate].
  destruct (std_coef_ st) as [sc |]; cbn [deref rbind]; [| discriminate].
  intros [= <-]. exists out, p1, p2, sd.
  repeat split.
  destruct (ix (dim k) 1 =? 1); cbn;
    repeat (constructor; [cbn; tauto |]); constructor.
Qed.

Lemma forwardProp_inv st inp (d : Device F) st' d' :
  forwardProp device_kernel st (TensorData inp) d = Ok (st', d') ->
  exists d1 plan out pass1 pass2 std,
    init st (TensorData inp) d = Ok (st', d1) /\
    launch_plan st' inp = Ok plan /\
    run_plan device_kernel plan d1 = Ok d' /\
    output st' = Some out /\ std_pass1_ st' = Some pass1 /\
    std_pass2_ st' = Some pass2 /\ std_ st' = Some std /\
    next_buffer d' = next_buffer d1 /\
    dom (buffers d') = dom (buffers d1) /\
    (forall b, b ≠ data out -> b ≠ data pass1 -> b ≠ data pass2 ->
               b ≠ data std -> load b d' = load b d1).
Proof.
  rewrite forwardProp_plan.
  destruct (init st (TensorData inp) d) as [[s1 d1] |]; cbn [rbind];
    [| discriminate].
  destruct (launch_plan s1 inp) as [plan |] eqn:Ep; cbn [rbind];
    [| discriminate].
  destruct (run_plan device_kernel plan d1) as [d2 |] eqn:Er; cbn [rbind];
    [| discriminate].
  intros [= <- <-].
  destruct (launch_plan_targets _ _ _ Ep)
    as (out & p1 & p2 & sd & Ho & Hp1 & Hp2 & Hsd & Ht).
  pose proof (run_plan_keeps _ _ _ Er) as (Hn & Hd & Hl & _).
  exists d1, plan, out, p1, p2, sd.
  repeat split; try assumption.
  intros b Hbo Hb1 Hb2 Hbs. apply Hl.
  eapply Forall_impl; [exact Ht |].
  intros l [-> | [-> | [-> | ->]]]; assumption.
Qed.

(** C1: the code does not rebuild on a shape change.  After a forward
    call on an input of one shape, a forward call on a (well-formed)
    input of another shape runs the teardown of lines 58-64, which also
    deletes [kernel_], and then dereferences it at line 76. *)
Theorem forward_after_shape_change_fails (st : stage) (in1 in2 : Tensor)
  (d d2 : Device F) st1 d1 :
  forwardProp device_kernel st (TensorData in1) d = Ok (st1, d1) ->
  dim in2 ≠ dim in1 ->
  0 < ix (dim in2) 0 -> 0 < ix (dim in2) 1 -> 0 < ix (dim in2) 2 ->
  forwardProp device_kernel st1 (TensorData in2) d2 =
    Err NullPointerDereference.
Proof.
  intros Hf Hne H0 H1 H2.
  apply forwardProp_inv in Hf as (dx & _ & _ & _ & _ & _ & Hi & _).
  apply init_inv in Hi as (((out & Hout & Hdim) & _) & _).
  apply forwardProp_init_error.
  eapply init_after_shape_change; try eassumption. congruence.
Qed.

(** On an allocated stage whose plan has its tensors on the device, any
    number of forward calls on live inputs of the stage's shape succeed
    and return the stage as it was. *)
Lemma forward_all_same_shape (shape : Int3) st plan0 in0 (d0 : Device F) :
  allocated st shape ->
  launch_plan st in0 = Ok plan0 ->
  Forall (fun t => live (data t) d0) (plan_tensors plan0) ->
  forall (inputs : list TorchData) (d : Device F),
  dom (buffers d) = dom (buffers d0) ->
  all_of_shape shape d0 inputs ->
  exists d',
    forward_all device_kernel st inputs d = Ok (st, d') /\
    next_buffer d' = next_buffer d /\
    dom (buffers d') = dom (buffers d).
Proof.
  intros Ha Hp0 Hl0 inputs.
  induction inputs as [| x xs IH]; intros d Hd Hall; cbn [forward_all].
  - eauto.
  - apply Forall_cons in Hall as [(t & -> & Hshape & Hlt) Hall].
    rewrite forwardProp_plan.
    rewrite init_noop by (rewrite Hshape; exact Ha). cbn [rbind].
    destruct (launch_plan_other_input st in0 t plan0 Hp0)
      as (plan & Hplan & Hsub).
    rewrite Hplan. cbn [rbind].
    destruct (run_plan_ok plan d) as [d1 Hd1].
    { apply Forall_forall. intros u Hu.
      rewrite Forall_forall in Hsub.
      apply (live_dom _ d0 d); [exact Hd |].
      destruct (Hsub u Hu) as [-> | Hin]; [exact Hlt |].
      rewrite Forall_forall in Hl0. apply Hl0. exact Hin. }
    rewrite Hd1. cbn [rbind].
    apply run_plan_keeps in Hd1 as (Hn1 & Hdom1 & _).
    destruct (IH d1) as (d' & Hf & Hn & Hdom); [congruence | exact Hall |].
    exists d'. split; [exact Hf |]. split; congruence.
Qed.

(** C4: after a forward call on an input of shape S, any number of
    forward calls on inputs of shape S succeed and leave every member of
    the stage as it is (the output tensor and its buffer handle, the
    normalized kernel, the coefficient tensor), allocate and release no
    buffer, and [init] does nothing on such an input: nothing is computed
    again. *)
Theorem forward_same_shape_keeps_state (st : stage) (in1 : Tensor)
  (d : Device F) st1 d1 (inputs : list TorchData) :
  forwardProp device_kernel st (TensorData in1) d = Ok (st1, d1) ->
  all_of_shape (dim in1) d1 inputs ->
  (exists d2,
     forward_all device_kernel st1 inputs d1 = Ok (st1, d2) /\
     next_buffer d2 = next_buffer d1 /\
     dom (buffers d2) = dom (buffers d1)) /\
  (forall t (dx : Device F), dim t = dim in1 ->
                init st1 (TensorData t) dx = Ok (st1, dx)).
Proof.
  intros Hf Hall.
  apply forwardProp_inv in Hf
    as (dx & plan & _ & _ & _ & _ & Hi & Hp & Hr & _ & _ & _ & _ & _ & Hd & _).
  apply init_inv in Hi as (Ha & _).
  apply run_plan_keeps in Hr as (_ & _ & _ & Hlive).
  split.
  - apply (forward_all_same_shape (dim in1) st1 plan in1 d1 Ha Hp);
      [| reflexivity | exact Hall].
    eapply Forall_impl; [exact Hlive |].
    intros t Ht. cbn beta in Ht. eapply live_dom; eassumption.
  - intros t dy Ht. apply init_noop. rewrite Ht. exact Ha.
Qed.

(** *** The normalized kernel *)

Lemma clone_inv (t : Tensor) (d : Device F) t' d' :
  clone t d = Ok (t', d') ->
  exists l,
    load (data t) d = Ok l /\
    t' = {| dim := dim t; data := next_buffer d |} /\
    load (next_buffer d) d' = Ok l /\
    next_buffer d' = S (next_buffer d) /\
    (forall b, b ≠ next_buffer d -> load b d' = load b d).
Proof.
  intros Hc.
  assert (Hc' := Hc). unfold clone, getData in Hc'.
  destruct (load (data t) d) as [l |] eqn:El; cbn [rbind] in Hc';
    [| discriminate].
  destruct (Tensor_new (dim t) d) as [[t1 d1] |] eqn:Et;
    cbn [rbind] in Hc'; [| discriminate].
  apply Tensor_new_inv in Et as (Hpos & _ & _).
  destruct (clone_ok t d l Hpos El) as (dx & Hok & Hl & Hn & Hother).
  rewrite Hok in Hc. injection Hc as <- <-.
  exists l. auto.
Qed.

Lemma normalize_kernel_inv (k : Tensor) (in_dim : Int3) (d : Device F)
  kn d' :
  normalize_kernel k in_dim d = Ok (kn, d') ->
  exists l,
    load (data k) d = Ok l /\
    kn = {| dim := dim k; data := next_buffer d |} /\
    load (next_buffer d) d' =
      Ok (normalized_kernel (ix (dim k) 1 =? 1) (ix in_dim 2) l) /\
    next_buffer d' = S (next_buffer d) /\
    (forall b, b ≠ next_buffer d -> load b d' = load b d).
Proof.
  unfold normalize_kernel.
  destruct (clone k d) as [[k1 d1] |] eqn:Ec; cbn [rbind]; [| discriminate].
  apply clone_inv in Ec as (l & Hl & -> & Hl1 & Hn1 & Ho1).
  unfold slowSum, div, getData. cbn [data].
  rewrite Hl1. cbn [rbind].
  destruct (store _ _ d1) as [d2 |] eqn:Es; cbn [rbind]; [| discriminate].
  intros [= <- <-]. exists l.
  apply store_keeps in Es as Hk. destruct Hk as (Hn2 & _ & Ho2).
  repeat split; try assumption.
  - apply load_store_same in Es. rewrite Es. reflexivity.
  - congruence.
  - intros b Hb. rewrite Ho2 by assumption. apply Ho1. assumption.
Qed.

Lemma ensure_kernel_norm_fresh st k inp (d : Device F) st' d' :
  kernel_norm_ st = None -> kernel_ st = Some k ->
  ensure_kernel_norm st inp d = Ok (st', d') ->
  exists l,
    load (data k) d = Ok l /\
    kernel_norm_ st' = Some {| dim := dim k; data := next_buffer d |} /\
    load (next_buffer d) d' =
      Ok (normalized_kernel (ix (dim k) 1 =? 1) (ix (dim inp) 2) l) /\
    next_buffer d' = S (next_buffer d).
Proof.
  intros Hkn Hk. unfold ensure_kernel_norm. rewrite Hkn, Hk.
  cbn [deref rbind].
  destruct (normalize_kernel k (dim inp) d) as [[kn d1] |] eqn:En;
    cbn [rbind]; [| discriminate].
  intros [= <- <-]. cbn [kernel_norm_].
  apply normalize_kernel_inv in En as (l & Hl & -> & Hl' & Hn & _).
  exists l. auto.
Qed.

Lemma ensure_std_coef_fresh st (d : Device F) st' d' :
  std_coef_ st = None ->
  ensure_std_coef st d = Ok (st', d') ->
  next_buffer d' = S (next_buffer d) /\
  (forall b, (b < next_buffer d)%nat -> load b d' = load b d).
Proof.
  intros Hsc. unfold ensure_std_coef. rewrite Hsc.
  destruct (output st) as [out |]; cbn [deref rbind]; [| discriminate].
  destruct (Tensor_new _ d) as [[sc d1] |] eqn:Et; cbn [rbind];
    [| discriminate].
  apply Tensor_new_inv in Et as (_ & -> & ->).
  destruct (kernel_norm_ st) as [kn |]; cbn [deref rbind]; [| discriminate].
  destruct (getData kn _) as [l |]; cbn [rbind]; [| discriminate].
  destruct (kernel_ st) as [k |]; cbn [deref rbind]; [| discriminate].
  unfold setData. destruct (_ <=? _)%nat; [| discriminate].
  destruct (store _ _ _) as [d2 |] eqn:Es; cbn [rbind]; [| discriminate].
  intros [= <- <-].
  apply store_keeps in Es as (Hn & _ & Ho). cbn [data] in Ho.
  split; [rewrite Hn; reflexivity |].
  intros b Hb. rewrite Ho by lia. apply load_alloc_other. lia.
Qed.

Lemma ensure_std_fresh st (d : Device F) st' d' :
  std_ st = None ->
  ensure_std st d = Ok (st', d') ->
  (exists dims, std_ st' = Some {| dim := dims; data := next_buffer d |}) /\
  (forall b, (b < next_buffer d)%nat -> load b d' = load b d).
Proof.
  intros Hsd. unfold ensure_std. rewrite Hsd.
  destruct (output st) as [out |]; cbn [deref rbind]; [| discriminate].
  destruct (Tensor_new _ d) as [[sd d1] |] eqn:Et; cbn [rbind];
    [| discriminate].
  apply Tensor_new_inv in Et as (_ & -> & ->).
  intros [= <- <-]. cbn [std_]. split; [eauto |].
  intros b Hb. apply load_alloc_other. lia.
Qed.

(** C10: the first forward call of a stage as constructed leaves, as the
    cached normalized kernel, the constructor's kernel divided elementwise
    by [sum * sqrtf(n_feats)] when the kernel's second extent is 1 and by
    [sum * n_feats] otherwise, [n_feats] being the input's third
    extent. *)
Theorem first_forward_normalizes_kernel (st : stage) (kernel inp : Tensor)
  (kernel_data : list F) (d : Device F) st' d' :
  constructed st kernel ->
  load (data kernel) d = Ok kernel_data ->
  (data kernel < next_buffer d)%nat ->
  forwardProp device_kernel st (TensorData inp) d = Ok (st', d') ->
  exists kernel_norm,
    kernel_norm_ st' = Some kernel_norm /\
    dim kernel_norm = dim kernel /\
    load (data kernel_norm) d' =
      Ok (normalized_kernel (ix (dim kernel) 1 =? 1) (ix (dim inp) 2)
            kernel_data) /\
    kernel_divisor (ix (dim kernel) 1 =? 1) (ix (dim inp) 2) kernel_data =
      (if ix (dim kernel) 1 =? 1
       then fmul (fold_left fadd kernel_data fzero)
                 (fsqrt (of_int (ix (dim inp) 2)))
       else fmul (fold_left fadd kernel_data fzero)
                 (of_int (ix (dim inp) 2))).
Proof.
  intros (Hk & Hkn & Hout & Hsc & Hp1 & Hp2 & Hsd) Hload Hlt Hf.
  apply forwardProp_inv in Hf
    as (d1 & plan & out & p1 & p2 & sd & Hi & _ & _ &
        Ho' & Hp1' & Hp2' & Hsd' & _ & _ & Hkeep).
  unfold init, on_shape_change in Hi. rewrite Hout in Hi.
  destruct (ensure_output st inp d) as [[sa da] |] eqn:Ea;
    cbn [rbind] in Hi; [| discriminate].
  destruct (ensure_kernel_norm sa inp da) as [[sb db] |] eqn:Eb;
    cbn [rbind] in Hi; [| discriminate].
  destruct (ensure_std_coef sb db) as [[sc dc] |] eqn:Ec;
    cbn [rbind] in Hi; [| discriminate].
  apply ensure_output_inv in Ea
    as (Hka & Hkna & Hsca & Hsda & _ & Hcase).
  destruct Hcase as [([o Ho] & _) | (_ & _ & Hoa & Hp1a & Hp2a & Hna & Hla)];
    [congruence |].
  assert (Eb' := Eb).
  apply ensure_kernel_norm_fresh with (k := kernel) in Eb
    as (l & Hl & Hknb & Hlb & Hnb); [| congruence | congruence].
  rewrite Hla in Hl by exact Hlt.
  assert (l = kernel_data) as -> by congruence.
  apply ensure_kernel_norm_inv in Eb'
    as (Hkb & Hob & Hscb & Hsdb & Hp1b & Hp2b & _).
  assert (Ec' := Ec).
  apply ensure_std_coef_fresh in Ec as (Hnc & Hlc); [| congruence].
  apply ensure_std_coef_inv in Ec'
    as (Hkc & Hoc & Hknc & Hsdc & Hp1c & Hp2c & _).
  assert (Hi' := Hi).
  apply ensure_std_fresh in Hi as ((dims & Hsdd) & Hld); [| congruence].
  apply ensure_std_inv in Hi'
    as (Hkd & Hod & Hknd & Hscd & Hp1d & Hp2d & _).
  exists {| dim := dim kernel; data := next_buffer da |}.
  split; [congruence |]. split; [reflexivity |]. split; [| reflexivity].
  cbn [data].
  assert (out = {| dim := dim inp; data := next_buffer d |}) as ->
    by congruence.
  assert (p1 = {| dim := dim inp; data := S (next_buffer d) |}) as ->
    by congruence.
  assert (p2 = {| dim := dim inp; data := S (S (next_buffer d)) |}) as ->
    by congruence.
  assert (sd = {| dim := dims; data := next_buffer dc |}) as ->
    by congruence.
  cbn [data] in Hkeep.
  rewrite Hkeep by lia.
  rewrite Hld by lia. rewrite Hlc by lia. exact Hlb.
Qed.

End SDNFacts.

(** ** The Linear stage *)

Section LinearFacts.
Import Linear.
Context {F : Type} {ops : FloatOps F}.

Lemma Linear_Tensor_new_inv dims extents (d : Device F) t d' :
  Tensor_new dims extents d = Ok (t, d') ->
  t = {| dim := dims; size := extents; storage := next_buffer d |} /\
  d' = (alloc (Z.to_nat (nelems extents)) d).2.
Proof.
  unfold Tensor_new. destruct (_ && _); [| discriminate].
  cbn. intros [= <- <-]. auto.
Qed.

Lemma Linear_Tensor_new_ok dims extents (d : Device F) :
  1 <= dims <= 3 -> Forall (fun e => 0 < e) extents ->
  Tensor_new dims extents d =
  Ok ({| dim := dims; size := extents; storage := next_buffer d |},
      (alloc (Z.to_nat (nelems extents)) d).2).
Proof.
  intros Hd He. unfold Tensor_new.
  assert (Hc : (1 <=? dims) && (dims <=? 3)
               && forallb (fun e => 0 <? e) extents = true).
  { rewrite !andb_true_iff, !Z.leb_le, forallb_forall. repeat split;
      try lia.
    intros e He'. apply Z.ltb_lt.
    rewrite Forall_forall in He. apply He.
    apply list_elem_of_In. exact He'. }
  rewrite Hc. reflexivity.
Qed.

(** What the constructor leaves: three tensors in three new buffers. *)
Lemma new_inv n_inputs n_outputs (d : Device F) st d' :
  new n_inputs n_outputs d = Ok (st, d') ->
  st = {| n_inputs_ := to_u32 n_inputs;
          n_outputs_ := to_u32 n_outputs;
          output := Some {| dim := 1; size := [to_u32 n_outputs];
                            storage := next_buffer d |};
          weights_ := Some {| dim := 2;
                              size := [to_u32 n_outputs; to_u32 n_inputs];
                              storage := S (next_buffer d) |};
          biases_ := Some {| dim := 1; size := [to_u32 n_outputs];
                             storage := S (S (next_buffer d)) |} |} /\
  next_buffer d' = S (S (S (next_buffer d))).
Proof.
  unfold new.
  destruct (Tensor_new 1 _ d) as [[t1 d1] |] eqn:E1; cbn [rbind];
    [| discriminate].
  destruct (Tensor_new 2 _ d1) as [[t2 d2] |] eqn:E2; cbn [rbind];
    [| discriminate].
  destruct (Tensor_new 1 _ d2) as [[t3 d3] |] eqn:E3; cbn [rbind];
    [| discriminate].
  apply Linear_Tensor_new_inv in E1 as [-> ->].
  apply Linear_Tensor_new_inv in E2 as [-> ->].
  apply Linear_Tensor_new_inv in E3 as [-> ->].
  intros [= <- <-]. split; reflexivity.
Qed.

(** [forwardProp] assigns no member and writes one buffer, the output's;
    it neither creates nor releases a buffer. *)
Lemma Linear_forwardProp_inv lim st x (d : Device F) st' d' :
  forwardProp lim st x d = Ok (st', d') ->
  st' = st /\ next_buffer d' = next_buffer d /\
  dom (buffers d') = dom (buffers d) /\
  (exists inp, x = TensorData inp /\ dim inp = 1 /\
               nth 0 (size inp) 0 = n_inputs_ st) /\
  (forall out b, output st = Some out -> b ≠ storage out ->
                 load b d' = load b d).
Proof.
  unfold forwardProp.
  destruct (init st x) as [inp |] eqn:Ei; cbn [rbind]; [| discriminate].
  destruct (Partition.work_partition lim (n_outputs_ st)) as [sz |];
    cbn [rbind]; [| discriminate].
  destruct (weights_ st) as [w |]; cbn [deref rbind]; [| discriminate].
  destruct (output st) as [out |]; cbn [deref rbind]; [| discriminate].
  destruct (load (storage w) d) as [A |]; cbn [rbind]; [| discriminate].
  destruct (load (storage inp) d) as [X |]; cbn [rbind]; [| discriminate].
  destruct (load (storage out) d) as [Y |]; cbn [rbind]; [| discriminate].
  destruct (launch_legal lim sz); [| discriminate].
  destruct (store (storage out) _ d) as [d1 |] eqn:E1; cbn [rbind];
    [| discriminate].
  destruct (biases_ st) as [b |]; cbn [deref rbind]; [| discriminate].
  destruct (load (storage out) d1) as [Y1 |]; cbn [rbind]; [| discriminate].
  destruct (load (storage b) d1) as [B |]; cbn [rbind]; [| discriminate].
  destruct (store (storage out) _ d1) as [d2 |] eqn:E2; cbn [rbind];
    [| discriminate].
  intros [= <- <-].
  apply store_inv in E1 as E1'. destruct E1' as [_ Hd1].
  pose proof (store_next_buffer _ _ _ _ E1) as Hn1.
  pose proof (store_next_buffer _ _ _ _ E2) as Hn2.
  pose proof (store_dom _ _ _ _ E1) as Hdom1.
  pose proof (store_dom _ _ _ _ E2) as Hdom2.
  split; [reflexivity |]. split; [congruence |]. split; [congruence |].
  split.
  - unfold init, RASSERT in Ei. destruct x as [t |]; [| discriminate].
    cbn [rbind] in Ei.
    destruct ((dim t =? 1) && (nth 0 (size t) 0 =? n_inputs_ st)) eqn:Hc;
      [| discriminate].
    apply andb_true_iff in Hc as [Hc1 Hc2].
    apply Z.eqb_eq in Hc1, Hc2. eauto.
  - intros out' b' [= <-] Hb.
    rewrite (load_store_other _ _ _ _ _ E2) by exact Hb.
    apply (load_store_other _ _ _ _ _ E1). exact Hb.
Qed.

Lemma Linear_forward_all_inv lim (inputs : list TorchData) :
  forall st (d : Device F) st' d',
  forward_all lim st inputs d = Ok (st', d') ->
  st' = st /\ next_buffer d' = next_buffer d /\
  dom (buffers d') = dom (buffers d).
Proof.
  induction inputs as [| x xs IH]; intros st d st' d'; cbn [forward_all].
  - intros [= <- <-]. auto.
  - destruct (forwardProp lim st x d) as [[s1 d1] |] eqn:Ef; cbn [rbind];
      [| discriminate].
    intros Hrest.
    apply Linear_forwardProp_inv in Ef as (-> & Hn & Hd & _).
    apply IH in Hrest as (-> & Hn' & Hd').
    repeat split; congruence.
Qed.

(** The fuel of the kernel's two loops is enough: more of it changes
    nothing. *)
Lemma reduce_fuel_enough fuel : forall rows cols (work : list F),
  (Z.to_nat cols <= fuel)%nat ->
  reduce (S fuel) rows cols work = reduce fuel rows cols work.
Proof.
  induction fuel as [| fuel IH]; intros rows cols work Hf.
  - cbn [reduce]. destruct (Z.ltb_spec 1 cols); [lia | reflexivity].
  - cbn [reduce] in *. destruct (Z.ltb_spec 1 cols) as [Hc | _];
      [| reflexivity].
    apply IH. rewrite Z.shiftr_div_pow2 by lia. change (2 ^ 1) with 2.
    assert (cols / 2 < cols) by (apply Z.div_lt; lia). lia.
Qed.

Lemma partial_dot_fuel_enough (A X : list F) M N row stride : 1 <= stride ->
  forall fuel k sum, (Z.to_nat (N - k) <= fuel)%nat ->
  partial_dot (S fuel) A X M N row k stride sum =
  partial_dot fuel A X M N row k stride sum.
Proof.
  intros Hs. induction fuel as [| fuel IH]; intros k sum Hf.
  - cbn [partial_dot]. destruct (Z.ltb_spec k N); [lia | reflexivity].
  - cbn [partial_dot] in *. destruct (Z.ltb_spec k N); [| reflexivity].
    apply IH. lia.
Qed.

(** The constructor leaves the output's buffer zero-initialised, with one
    cell per output. *)
Lemma new_output_buffer n_inputs n_outputs (d : Device F) st d' :
  new n_inputs n_outputs d = Ok (st, d') ->
  load (next_buffer d) d' =
    Ok (replicate (Z.to_nat (to_u32 n_outputs)) fzero).
Proof.
  unfold new.
  destruct (Tensor_new 1 _ d) as [[t1 d1] |] eqn:E1; cbn [rbind];
    [| discriminate].
  destruct (Tensor_new 2 _ d1) as [[t2 d2] |] eqn:E2; cbn [rbind];
    [| discriminate].
  destruct (Tensor_new 1 _ d2) as [[t3 d3] |] eqn:E3; cbn [rbind];
    [| discriminate].
  apply Linear_Tensor_new_inv in E1 as [-> ->].
  apply Linear_Tensor_new_inv in E2 as [-> ->].
  apply Linear_Tensor_new_inv in E3 as [-> ->].
  intros [= <- <-].
  unfold load. cbn [buffers].
  rewrite !lookup_insert_ne by lia. rewrite lookup_insert_eq.
  rewrite Z.mul_1_r. reflexivity.
Qed.

Lemma fold_left_keeps_length {B} (f : list F -> B -> list F) (l : list B) :
  (forall Y b, length (f Y b) = length Y) ->
  forall Y, length (fold_left f l Y) = length Y.
Proof.
  intros Hf. induction l as [| b l IH]; intros Y; cbn [fold_left];
    [reflexivity |].
  rewrite IH. apply Hf.
Qed.

(** The kernel writes cells of [Y]; it never makes [Y] longer or
    shorter, whatever the partition. *)
Lemma MatVecMultThreads_keeps_length (A X Y : list F) M N sz :
  length (MatVecMultThreads A X Y M N sz) = length Y.
Proof.
  unfold MatVecMultThreads.
  destruct (Partition.global_size sz) as [g0 g1].
  destruct (Partition.local_size sz) as [l0 l1].
  apply fold_left_keeps_length. intros Y1 grow.
  apply fold_left_keeps_length. intros Y2 gcol.
  apply length_inserts.
Qed.

Lemma Accum_keeps_length (output biases : list F) n :
  length (Accum output biases n) = length output.
Proof. unfold Accum. apply length_imap. Qed.

(** A forward call leaves the output's buffer with as many cells as it
    had. *)
Lemma forwardProp_keeps_output_length lim st x (d : Device F) st' d' out Y :
  forwardProp lim st x d = Ok (st', d') ->
  output st = Some out -> load (storage out) d = Ok Y ->
  exists Y', load (storage out) d' = Ok Y' /\ length Y' = length Y.
Proof.
  unfold forwardProp. intros Hf Hout HY.
  destruct (init st x) as [inp |]; cbn [rbind] in Hf; [| discriminate].
  destruct (Partition.work_partition lim (n_outputs_ st)) as [sz |];
    cbn [rbind] in Hf; [| discriminate].
  destruct (weights_ st) as [w |]; cbn [deref rbind] in Hf; [| discriminate].
  rewrite Hout in Hf. cbn [deref rbind] in Hf.
  destruct (load (storage w) d) as [A |]; cbn [rbind] in Hf; [| discriminate].
  destruct (load (storage inp) d) as [X |]; cbn [rbind] in Hf;
    [| discriminate].
  rewrite HY in Hf. cbn [rbind] in Hf.
  destruct (launch_legal lim sz); [| discriminate].
  destruct (store (storage out) _ d) as [d1 |] eqn:E1; cbn [rbind] in Hf;
    [| discriminate].
  destruct (biases_ st) as [b |]; cbn [deref rbind] in Hf; [| discriminate].
  rewrite (load_store_same _ _ _ _ E1) in Hf. cbn [rbind] in Hf.
  destruct (load (storage b) d1) as [B |]; cbn [rbind] in Hf;
    [| discriminate].
  destruct (store (storage out) _ d1) as [d2 |] eqn:E2; cbn [rbind] in Hf;
    [| discriminate].
  injection Hf as <- <-.
  rewrite (load_store_same _ _ _ _ E2).
  eexists. split; [reflexivity |].
  rewrite Accum_keeps_length. apply MatVecMultThreads_keeps_length.
Qed.

Lemma forward_all_keeps_output_length lim (inputs : list TorchData) :
  forall st (d : Device F) st' d' out Y,
  forward_all lim st inputs d = Ok (st', d') ->
  output st = Some out -> load (storage out) d = Ok Y ->
  exists Y', load (storage out) d' = Ok Y' /\ length Y' = length Y.
Proof.
  induction inputs as [| x xs IH]; intros st d st' d' out Y;
    cbn [forward_all].
  - intros [= <- <-] _ HY. eauto.
  - destruct (forwardProp lim st x d) as [[s1 d1] |] eqn:Ef; cbn [rbind];
      [| discriminate].
    intros Hrest Hout HY.
    destruct (forwardProp_keeps_output_length _ _ _ _ _ _ _ _ Ef Hout HY)
      as (Y1 & HY1 & Hlen1).
    apply Linear_forwardProp_inv in Ef as (-> & _).
    destruct (IH _ _ _ _ _ _ Hrest Hout HY1) as (Y' & HY' & Hlen').
    exists Y'. split; [exact HY' | congruence].
Qed.

(** C9: the constructor allocates the output tensor, one-dimensional of
    length [n_outputs], in the first of the three buffers it takes, and
    that buffer holds [n_outputs] zeros; whatever the device limits and
    however many forward calls follow, the stage still holds that tensor
    and that buffer handle, no buffer was created or released, and the
    output's buffer has as many cells as before the calls. *)
Theorem linear_output_allocated_once (n_inputs n_outputs : Z)
  (d0 : Device F) st d1 :
  new n_inputs n_outputs d0 = Ok (st, d1) ->
  output st = Some {| dim := 1; size := [to_u32 n_outputs];
                      storage := next_buffer d0 |} /\
  next_buffer d1 = S (S (S (next_buffer d0))) /\
  load (next_buffer d0) d1 =
    Ok (replicate (Z.to_nat (to_u32 n_outputs)) fzero) /\
  (forall lim inputs (d : Device F) st' d',
     forward_all lim st inputs d = Ok (st', d') ->
     st' = st /\
     output st' = Some {| dim := 1; size := [to_u32 n_outputs];
                          storage := next_buffer d0 |} /\
     next_buffer d' = next_buffer d /\
     dom (buffers d') = dom (buffers d) /\
     (forall Y, load (next_buffer d0) d = Ok Y ->
        exists Y', load (next_buffer d0) d' = Ok Y' /\
                   length Y' = length Y)).
Proof.
  intros Hnew. pose proof (new_output_buffer _ _ _ _ _ Hnew) as Hbuf.
  apply new_inv in Hnew as [-> Hn].
  split; [reflexivity |]. split; [exact Hn |]. split; [exact Hbuf |].
  intros lim inputs d st' d' Hf.
  assert (Hlen : forall Y, load (next_buffer d0) d = Ok Y ->
            exists Y', load (next_buffer d0) d' = Ok Y' /\
                       length Y' = length Y).
  { intros Y HY.
    exact (forward_all_keeps_output_length lim inputs _ d st' d' _ Y
             Hf eq_refl HY). }
  apply Linear_forward_all_inv in Hf as (-> & Hn' & Hd').
  repeat split; try assumption.
Qed.

End LinearFacts.

(** ** When the output tensor comes to be *)

Section OutputLifetime.
Context {F : Type} {ops : FloatOps F}.

Lemma new_constructed (K : SpatialDivisiveNormalization.Tensor)
  (threshold : F) (d : Device F) st d' :
  SpatialDivisiveNormalization.new K threshold d = Ok (st, d') ->
  SpatialDivisiveNormalization.constructed st
    {| SpatialDivisiveNormalization.dim :=
         SpatialDivisiveNormalization.dim K;
       SpatialDivisiveNormalization.data := next_buffer d |} /\
  next_buffer d' = S (next_buffer d) /\
  load (next_buffer d) d' =
    load (SpatialDivisiveNormalization.data K) d.
Proof.
  unfold SpatialDivisiveNormalization.new.
  destruct (_ || _ || _); [discriminate |].
  destruct (SpatialDivisiveNormalization.clone K d) as [[k d1] |] eqn:Ec;
    cbn [rbind]; [| discriminate].
  apply clone_inv in Ec as (l & Hl & -> & Hl' & Hn & _).
  intros [= <- <-].
  split; [repeat split |]. split; [exact Hn | congruence].
Qed.

Lemma init_fresh_output (st : SpatialDivisiveNormalization.stage)
  (inp : SpatialDivisiveNormalization.Tensor) (d : Device F) st' d' :
  SpatialDivisiveNormalization.output st = None ->
  SpatialDivisiveNormalization.init st
    (SpatialDivisiveNormalization.TensorData inp) d = Ok (st', d') ->
  SpatialDivisiveNormalization.output st' =
    Some {| SpatialDivisiveNormalization.dim :=
              SpatialDivisiveNormalization.dim inp;
            SpatialDivisiveNormalization.data := next_buffer d |}.
Proof.
  intros Hout.
  unfold SpatialDivisiveNormalization.init,
    SpatialDivisiveNormalization.on_shape_change.
  rewrite Hout.
  destruct (SpatialDivisiveNormalization.ensure_output st inp d)
    as [[sa da] |] eqn:Ea; cbn [rbind]; [| discriminate].
  destruct (SpatialDivisiveNormalization.ensure_kernel_norm sa inp da)
    as [[sb db] |] eqn:Eb; cbn [rbind]; [| discriminate].
  destruct (SpatialDivisiveNormalization.ensure_std_coef sb db)
    as [[sc dc] |] eqn:Ec; cbn [rbind]; [| discriminate].
  intros Ed.
  apply ensure_output_inv in Ea as (_ & _ & _ & _ & _ & Hcase).
  destruct Hcase as [([o Ho] & _) | (_ & _ & Hoa & _)]; [congruence |].
  apply ensure_kernel_norm_inv in Eb as (_ & Hob & _).
  apply ensure_std_coef_inv in Ec as (_ & Hoc & _).
  apply ensure_std_inv in Ed as (_ & Hod & _).
  congruence.
Qed.

(** C7, as amended: the normalization stage has no output tensor from
    construction on, and gets one, of the input's shape and in a new
    buffer, from [init] in the first forward call; the Linear stage has
    its output tensor from construction on. *)
Theorem output_allocation_time :
  (forall (K : SpatialDivisiveNormalization.Tensor) (threshold : F)
          (d : Device F) st d',
     SpatialDivisiveNormalization.new K threshold d = Ok (st, d') ->
     SpatialDivisiveNormalization.output st = None /\
     forall inp (dx : Device F) st1 d1,
       SpatialDivisiveNormalization.init st
         (SpatialDivisiveNormalization.TensorData inp) dx = Ok (st1, d1) ->
       SpatialDivisiveNormalization.output st1 =
         Some {| SpatialDivisiveNormalization.dim :=
                   SpatialDivisiveNormalization.dim inp;
                 SpatialDivisiveNormalization.data := next_buffer dx |}) /\
  (forall (n_inputs n_outputs : Z) (d : Device F) st d',
     Linear.new n_inputs n_outputs d = Ok (st, d') ->
     Linear.output st =
       Some {| Linear.dim := 1; Linear.size := [to_u32 n_outputs];
               Linear.storage := next_buffer d |}).
Proof.
  split.
  - intros K threshold d st d' Hnew.
    apply new_constructed in Hnew as ((_ & _ & Hout & _) & _).
    split; [exact Hout |].
    intros inp dx st1 d1 Hi. eapply init_fresh_output; eassumption.
  - intros n_inputs n_outputs d st d' Hnew.
    apply new_inv in Hnew as [-> _]. reflexivity.
Qed.

End OutputLifetime.

(** C7, as stated, fails on the Linear stage: its constructor stores a new
    tensor in [output]. *)
Lemma linear_output_set_by_constructor :
  exists st d',
    Linear.new 3 2 (empty_device (F := Z)) = Ok (st, d') /\
    Linear.output st ≠ None.
Proof.
  destruct (Linear.new 3 2 (empty_device (F := Z))) as [[st d'] |] eqn:E;
    [| vm_compute in E; discriminate].
  exists st, d'. split; [reflexivity |].
  apply new_inv in E as [-> _]. discriminate.
Qed.

Lemma output_allocation_time_witness :
  (exists st d',
     SpatialDivisiveNormalization.new Examples.kernel3 1 Examples.device0 =
       Ok (st, d') /\
     SpatialDivisiveNormalization.output st = None) /\
  (exists st d',
     Linear.new 3 2 (empty_device (F := Z)) = Ok (st, d') /\
     Linear.output st =
       Some {| Linear.dim := 1; Linear.size := [2]; Linear.storage := 0 |}).
Proof.
  split.
  - destruct (SpatialDivisiveNormalization.new Examples.kernel3 1
                Examples.device0) as [[st d'] |] eqn:E;
      [| vm_compute in E; discriminate].
    exists st, d'. split; [reflexivity |].
    exact (proj1 (proj1 output_allocation_time _ _ _ _ _ E)).
  - destruct (Linear.new 3 2 (empty_device (F := Z))) as [[st d'] |] eqn:E;
      [| vm_compute in E; discriminate].
    exists st, d'. split; [reflexivity |].
    exact (proj2 output_allocation_time _ _ _ _ _ E).
Defined.

(** ** Examples of the normalization stage *)

Lemma new_fails_iff_bad_kernel_witness :
  (SpatialDivisiveNormalization.new Examples.kernel3 1 Examples.device0 =
     Err InvalidKernelShapeError <->
   Z.even 3 = true \/ Z.even 1 = true \/ 1 ≠ 1) /\
  (Z.odd 3 = true -> Z.odd 1 = true -> 1 = 1 ->
   exists st d',
     SpatialDivisiveNormalization.new Examples.kernel3 1 Examples.device0 =
       Ok (st, d') /\
     SpatialDivisiveNormalization.kernel_ st =
       Some {| SpatialDivisiveNormalization.dim := (3, 1, 1);
               SpatialDivisiveNormalization.data := 4 |} /\
     SpatialDivisiveNormalization.threshold_ st = 1).
Proof.
  apply (new_fails_iff_bad_kernel Examples.kernel3 1 Examples.device0).
  split; [cbn; lia |]. vm_compute. eauto.
Defined.

Lemma forward_after_shape_change_fails_witness :
  exists st0 d0 st1 d1,
    SpatialDivisiveNormalization.new Examples.kernel3 1 Examples.device0 =
      Ok (st0, d0) /\
    SpatialDivisiveNormalization.forwardProp Examples.idle_kernel st0
      (SpatialDivisiveNormalization.TensorData Examples.input_a) d0 =
      Ok (st1, d1) /\
    SpatialDivisiveNormalization.forwardProp Examples.idle_kernel st1
      (SpatialDivisiveNormalization.TensorData Examples.input_c) d1 =
      Err NullPointerDereference.
Proof.
  destruct (SpatialDivisiveNormalization.new Examples.kernel3 1
              Examples.device0) as [[st0 d0] |] eqn:E0;
    [| vm_compute in E0; discriminate].
  destruct (SpatialDivisiveNormalization.forwardProp Examples.idle_kernel st0
              (SpatialDivisiveNormalization.TensorData Examples.input_a) d0)
    as [[st1 d1] |] eqn:E1.
  2: { vm_compute in E0. injection E0 as <- <-.
       vm_compute in E1. discriminate. }
  exists st0, d0, st1, d1. split; [reflexivity |]. split; [exact E1 |].
  apply (forward_after_shape_change_fails Examples.idle_kernel st0
           Examples.input_a Examples.input_c d0 d1 st1 d1 E1);
    cbn; [congruence | lia | lia | lia].
Defined.

Lemma forward_same_shape_keeps_state_witness :
  exists st0 d0 st1 d1 d2,
    SpatialDivisiveNormalization.new Examples.kernel3 1 Examples.device0 =
      Ok (st0, d0) /\
    SpatialDivisiveNormalization.forwardProp Examples.idle_kernel st0
      (SpatialDivisiveNormalization.TensorData Examples.input_a) d0 =
      Ok (st1, d1) /\
    SpatialDivisiveNormalization.forward_all Examples.idle_kernel st1
      [SpatialDivisiveNormalization.TensorData Examples.input_b;
       SpatialDivisiveNormalization.TensorData Examples.input_a] d1 =
      Ok (st1, d2) /\
    next_buffer d2 = next_buffer d1 /\
    dom (buffers d2) = dom (buffers d1).
Proof.
  destruct (SpatialDivisiveNormalization.new Examples.kernel3 1
              Examples.device0) as [[st0 d0] |] eqn:E0;
    [| vm_compute in E0; discriminate].
  destruct (SpatialDivisiveNormalization.forwardProp Examples.idle_kernel st0
              (SpatialDivisiveNormalization.TensorData Examples.input_a) d0)
    as [[st1 d1] |] eqn:E1.
  2: { vm_compute in E0. injection E0 as <- <-.
       vm_compute in E1. discriminate. }
  assert (Hall : SpatialDivisiveNormalization.all_of_shape
                   (SpatialDivisiveNormalization.dim Examples.input_a) d1
                   [SpatialDivisiveNormalization.TensorData Examples.input_b;
                    SpatialDivisiveNormalization.TensorData Examples.input_a]).
  { vm_compute in E0. injection E0 as <- <-.
    vm_compute in E1. injection E1 as <- <-.
    repeat constructor; eexists; (split; [reflexivity |]);
      (split; [reflexivity |]); vm_compute; eauto. }
  destruct (forward_same_shape_keeps_state Examples.idle_kernel st0
              Examples.input_a d0 st1 d1 _ E1 Hall)
    as [(d2 & Hf & Hn & Hd) _].
  exists st0, d0, st1, d1, d2.
  split; [reflexivity |]. split; [exact E1 |]. auto.
Defined.

Lemma first_forward_normalizes_kernel_witness :
  exists st0 d0 st1 d1 kernel_norm,
    SpatialDivisiveNormalization.new Examples.kernel3 1 Examples.device0 =
      Ok (st0, d0) /\
    SpatialDivisiveNormalization.forwardProp Examples.idle_kernel st0
      (SpatialDivisiveNormalization.TensorData Examples.input_a) d0 =
      Ok (st1, d1) /\
    SpatialDivisiveNormalization.kernel_norm_ st1 = Some kernel_norm /\
    load (SpatialDivisiveNormalization.data kernel_norm) d1 =
      Ok (SpatialDivisiveNormalization.normalized_kernel true 4 [1; 2; 1]).
Proof.
  destruct (SpatialDivisiveNormalization.new Examples.kernel3 1
              Examples.device0) as [[st0 d0] |] eqn:E0;
    [| vm_compute in E0; discriminate].
  destruct (SpatialDivisiveNormalization.forwardProp Examples.idle_kernel st0
              (SpatialDivisiveNormalization.TensorData Examples.input_a) d0)
    as [[st1 d1] |] eqn:E1.
  2: { vm_compute in E0. injection E0 as <- <-.
       vm_compute in E1. discriminate. }
  destruct (new_constructed _ _ _ _ _ E0) as (Hc & Hn & Hl).
  destruct (first_forward_normalizes_kernel Examples.idle_kernel st0
              _ Examples.input_a [1; 2; 1] d0 st1 d1 Hc)
    as (kn & Hkn & _ & Hload & _).
  - cbn [SpatialDivisiveNormalization.data]. rewrite Hl.
    vm_compute. reflexivity.
  - cbn [SpatialDivisiveNormalization.data]. lia.
  - exact E1.
  - exists st0, d0, st1, d1, kn.
    split; [reflexivity |]. split; [exact E1 |]. split; [exact Hkn |].
    exact Hload.
Defined.

(** ** Examples of the Linear stage *)

Lemma linear_output_allocated_once_witness :
  exists st d1 x d2 st' d' Y',
    Linear.new 3 2 (empty_device (F := Z)) = Ok (st, d1) /\
    load 0%nat d1 = Ok [0; 0] /\
    Examples.linear_setup st [1; 2; 3; 4; 5; 6] [10; 20] [1; 1; 1] d1 =
      Ok (x, d2) /\
    Linear.forward_all Examples.limits16 st [x; x; x] d2 = Ok (st', d') /\
    st' = st /\
    Linear.output st' =
      Some {| Linear.dim := 1; Linear.size := [2]; Linear.storage := 0 |} /\
    next_buffer d' = next_buffer d2 /\
    dom (buffers d') = dom (buffers d2) /\
    load 0%nat d' = Ok Y' /\ length Y' = 2%nat.
Proof.
  destruct (Linear.new 3 2 (empty_device (F := Z))) as [[st d1] |] eqn:E0;
    [| vm_compute in E0; discriminate].
  destruct (Examples.linear_setup st [1; 2; 3; 4; 5; 6] [10; 20] [1; 1; 1] d1)
    as [[x d2] |] eqn:E1.
  2: { vm_compute in E0. injection E0 as <- <-.
       vm_compute in E1. discriminate. }
  destruct (Linear.forward_all Examples.limits16 st [x; x; x] d2)
    as [[st' d'] |] eqn:E2.
  2: { vm_compute in E0. injection E0 as <- <-.
       vm_compute in E1. injection E1 as <- <-.
       vm_compute in E2. discriminate. }
  assert (EY : load 0%nat d2 = Ok [0; 0]).
  { vm_compute in E0. injection E0 as <- <-.
    vm_compute in E1. injection E1 as <- <-. reflexivity. }
  destruct (linear_output_allocated_once 3 2 empty_device st d1 E0)
    as (_ & _ & Hbuf & Hall).
  destruct (Hall _ _ _ _ _ E2) as (Hst & Hout & Hn & Hd & Hlen).
  destruct (Hlen _ EY) as (Y' & HY' & HL).
  exists st, d1, x, d2, st', d', Y'.
  split; [reflexivity |]. split; [exact Hbuf |].
  split; [exact E1 |]. split; [exact E2 |].
  split; [exact Hst |]. split; [exact Hout |].
  split; [exact Hn |]. split; [exact Hd |].
  split; [exact HY' | exact HL].
Defined.

(** C3: with a second work-item limit of 3 the column factor is 3, the
    local size (1, 3) is legal, and the reduction of [MatVecMultThreads]
    halves 3 to 1 and adds column 1 to column 0 only: for the 1 x 3 matrix
    of ones, the input of ones and a zero bias the output buffer holds 2,
    where [W x + b] is 3.  With a column factor of 16 it holds 3; the last
    section shows that every power of two does. *)
Theorem linear_forward_drops_a_column :
  Partition.work_partition Examples.limits3 1 =
    Ok {| Partition.global_size := (1, 3);
          Partition.local_size := (1, 3) |} /\
  launch_legal Examples.limits3
    {| Partition.global_size := (1, 3);
       Partition.local_size := (1, 3) |} = true /\
  Linear.forward_once Examples.limits3 3 1 [1; 1; 1] [0] [1; 1; 1] =
    Ok [2] /\
  Linear.affine [1; 1; 1] [1; 1; 1] [0] 1 3 = [3] /\
  Linear.forward_once Examples.limits16 3 1 [1; 1; 1] [0] [1; 1; 1] =
    Ok [3].
Proof. repeat split; vm_compute; reflexivity. Qed.

(** ** Loading from a model file *)

Section LoadFacts.
Context {F : Type} {ops : FloatOps F}.

Lemma length_indeterminate junk obj n :
  length (Stream.indeterminate junk obj n) = n.
Proof.
  unfold Stream.indeterminate. rewrite length_fmap. apply length_seq.
Qed.

Lemma length_floats n : forall bs,
  length (Stream.floats (F := F) n bs) = n.
Proof.
  induction n as [| n IH]; intros bs; cbn; [reflexivity |].
  rewrite IH. reflexivity.
Qed.

(** A [read] that finds its bytes. *)
Lemma read_enough n dest f :
  Stream.failbit f = false ->
  (Stream.pos f + n <= length (Stream.contents f))%nat ->
  length dest = n ->
  Stream.read n dest f =
  (take n (drop (Stream.pos f) (Stream.contents f)),
   {| Stream.contents := Stream.contents f;
      Stream.pos := (Stream.pos f + n)%nat;
      Stream.failbit := false |}).
Proof.
  intros Hf Hn Hd. unfold Stream.read. rewrite Hf.
  assert (Hle : (n <=? length (drop (Stream.pos f) (Stream.contents f)))%nat
                = true).
  { apply Nat.leb_le. rewrite length_drop. lia. }
  rewrite Hle. rewrite (drop_ge dest n) by lia. rewrite app_nil_r. reflexivity.
Qed.

(** A [read] raises [failbit] exactly when it is short of bytes, and a
    raised [failbit] stays up. *)
Lemma read_failbit n dest f :
  Stream.failbit (Stream.read n dest f).2 =
  Stream.failbit f
  || (length (Stream.contents f) - Stream.pos f <? n)%nat.
Proof.
  unfold Stream.read. destruct (Stream.failbit f) eqn:Hf; cbn.
  - exact Hf.
  - rewrite length_drop.
    destruct (Nat.leb_spec n (length (Stream.contents f) - Stream.pos f))
      as [Hle | Hgt]; cbn; symmetry.
    + apply Nat.ltb_ge. exact Hle.
    + apply Nat.ltb_lt. exact Hgt.
Qed.

Lemma read_position n dest f :
  Stream.contents (Stream.read n dest f).2 = Stream.contents f /\
  (Stream.failbit (Stream.read n dest f).2 = false ->
   Stream.pos (Stream.read n dest f).2 = (Stream.pos f + n)%nat).
Proof.
  unfold Stream.read. destruct (Stream.failbit f) eqn:Hf; cbn.
  - split; [reflexivity |]. congruence.
  - destruct (n <=? _)%nat; cbn; split; try reflexivity. discriminate.
Qed.

(** Two reads in a row: the stream ends up failed exactly when the bytes
    left were fewer than the two reads ask for. *)
Lemma two_reads_failbit n m dest1 dest2 f :
  Stream.failbit f = false ->
  Stream.failbit (Stream.read m dest2 (Stream.read n dest1 f).2).2 = true
  <-> (length (Stream.contents f) - Stream.pos f < n + m)%nat.
Proof.
  intros Hf.
  rewrite read_failbit.
  destruct (read_position n dest1 f) as [Hc Hp].
  rewrite Hc.
  destruct (Stream.failbit (Stream.read n dest1 f).2) eqn:H1.
  - rewrite orb_true_l.
    rewrite read_failbit, Hf, orb_false_l in H1.
    apply Nat.ltb_lt in H1. split; [lia | reflexivity].
  - rewrite orb_false_l, (Hp eq_refl).
    rewrite read_failbit, Hf, orb_false_l in H1.
    apply Nat.ltb_ge in H1.
    rewrite Nat.ltb_lt. lia.
Qed.

Lemma live_alloc_fresh n (d : Device F) :
  live (next_buffer d) (alloc n d).2.
Proof. unfold live, alloc. cbn. rewrite lookup_insert_eq. eauto. Qed.

Lemma live_alloc_old n b (d : Device F) :
  live b d -> live b (alloc n d).2.
Proof.
  unfold live, alloc. cbn. intros Hb.
  rewrite lookup_insert_is_Some. destruct (decide (next_buffer d = b)); auto.
Qed.

Lemma live_store b b' l (d d' : Device F) :
  store b l d = Ok d' -> live b' d -> live b' d'.
Proof.
  intros Hs Hb. apply store_inv in Hs as [_ ->]. unfold live in *. cbn.
  rewrite lookup_insert_is_Some. destruct (decide (b = b')); auto.
Qed.

Lemma Linear_setData_ok (t : Linear.Tensor) host (d : Device F) :
  live (Linear.storage t) d ->
  (Z.to_nat (Linear.nelems (Linear.size t)) <= length host)%nat ->
  exists d', Linear.setData t host d = Ok d' /\
             (forall b, live b d -> live b d').
Proof.
  intros Hl Hn. unfold Linear.setData.
  apply Nat.leb_le in Hn. rewrite Hn.
  destruct (store_live _ (take (Z.to_nat (Linear.nelems (Linear.size t)))
                            host) d Hl) as [d' Hd'].
  exists d'. split; [exact Hd' |].
  intros b Hb. eapply live_store; eassumption.
Qed.

Lemma Linear_new_ok (n_inputs n_outputs : Z) (d : Device F) :
  1 <= n_inputs < 2 ^ 32 -> 1 <= n_outputs < 2 ^ 32 ->
  exists st d',
    Linear.new n_inputs n_outputs d = Ok (st, d') /\
    Linear.n_inputs_ st = n_inputs /\ Linear.n_outputs_ st = n_outputs /\
    Linear.output st =
      Some {| Linear.dim := 1; Linear.size := [n_outputs];
              Linear.storage := next_buffer d |} /\
    Linear.weights_ st =
      Some {| Linear.dim := 2; Linear.size := [n_outputs; n_inputs];
              Linear.storage := S (next_buffer d) |} /\
    Linear.biases_ st =
      Some {| Linear.dim := 1; Linear.size := [n_outputs];
              Linear.storage := S (S (next_buffer d)) |} /\
    live (S (next_buffer d)) d' /\ live (S (S (next_buffer d))) d'.
Proof.
  intros Hi Ho. unfold Linear.new.
  rewrite !to_u32_small by lia.
  rewrite Linear_Tensor_new_ok by (try lia; repeat constructor; lia).
  cbn [rbind].
  rewrite Linear_Tensor_new_ok by (try lia; repeat constructor; lia).
  cbn [rbind].
  rewrite Linear_Tensor_new_ok by (try lia; repeat constructor; lia).
  cbn [rbind].
  eexists _, _. split; [reflexivity |]. cbn.
  repeat split; try reflexivity.
  - unfold live. cbn. rewrite lookup_insert_ne by lia.
    rewrite lookup_insert_eq. eauto.
  - unfold live. cbn. rewrite lookup_insert_eq. eauto.
Qed.

(** On a file whose two header fields are there and describe a stage,
    [Linear::loadFromFile] returns the stage whatever the length of the
    payload; a short read shows in the stream's [failbit] only. *)
Lemma Linear_loadFromFile_ok junk (bytes : list Byte.byte) (d : Device F) :
  let n_outputs := Stream.le_i32 (take 4 bytes) in
  let n_inputs := Stream.le_i32 (take 4 (drop 4 bytes)) in
  (8 <= length bytes)%nat ->
  1 <= n_outputs -> 1 <= n_inputs -> n_outputs * n_inputs < 2 ^ 31 ->
  exists st d' f',
    Linear.loadFromFile junk (Stream.open bytes) d = Ok (st, d', f') /\
    Linear.n_outputs_ st = n_outputs /\ Linear.n_inputs_ st = n_inputs /\
    is_Some (Linear.output st) /\
    (Stream.failbit f' = true <->
     (length bytes <
      8 + 4 * Z.to_nat (n_outputs * n_inputs) + 4 * Z.to_nat n_outputs)%nat).
Proof.
  intros n_outputs n_inputs Hlen Ho Hi Hprod.
  assert (Ho' : n_outputs < 2 ^ 31) by nia.
  assert (Hi' : n_inputs < 2 ^ 31) by nia.
  unfold Linear.loadFromFile.
  rewrite read_enough;
    [| reflexivity | cbn; lia | apply length_indeterminate].
  cbn [Stream.open Stream.pos Stream.contents drop].
  rewrite read_enough;
    [| reflexivity | cbn; lia | apply length_indeterminate].
  cbn [Stream.pos Stream.contents Nat.add].
  change (drop 0 bytes) with bytes.
  fold n_outputs. fold n_inputs.
  destruct (Linear_new_ok n_inputs n_outputs d) as
    (st & d1 & Hnew & Hni & Hno & Hout & Hw & Hb & Hlw & Hlb);
    [lia | lia |].
  rewrite Hnew. cbn [rbind].
  rewrite to_i32_small by lia.
  destruct (Z.ltb_spec (n_outputs * n_inputs) 0) as [Hneg | _]; [nia |].
  set (f2 := {| Stream.contents := bytes; Stream.pos := 8;
                Stream.failbit := false |}).
  set (n := Z.to_nat (n_outputs * n_inputs)).
  set (m := Z.to_nat n_outputs).
  pose proof (two_reads_failbit (4 * n) (4 * m)
                (Stream.indeterminate junk 2 (4 * n))
                (Stream.indeterminate junk 3 (4 * m)) f2 eq_refl)
    as Hfail.
  destruct (Stream.read (4 * n) (Stream.indeterminate junk 2 (4 * n)) f2)
    as [weights_cpu f3].
  unfold Linear.setWeights. rewrite Hw. cbn [Linear.deref rbind].
  destruct (Linear_setData_ok
              {| Linear.dim := 2; Linear.size := [n_outputs; n_inputs];
                 Linear.storage := S (next_buffer d) |}
              (Stream.floats n weights_cpu) d1) as (d2 & Hd2 & Hl2).
  { exact Hlw. }
  { rewrite length_floats. cbn. subst n. lia. }
  rewrite Hd2. cbn [rbind].
  destruct (Z.ltb_spec n_outputs 0) as [Hneg | _]; [lia |].
  cbn [snd] in Hfail.
  destruct (Stream.read (4 * m) (Stream.indeterminate junk 3 (4 * m)) f3)
    as [bias_cpu f4].
  unfold Linear.setBiases. rewrite Hb. cbn [Linear.deref rbind].
  destruct (Linear_setData_ok
              {| Linear.dim := 1; Linear.size := [n_outputs];
                 Linear.storage := S (S (next_buffer d)) |}
              (Stream.floats m bias_cpu) d2) as (d3 & Hd3 & Hl3).
  { apply Hl2. exact Hlb. }
  { rewrite length_floats. cbn. subst m. lia. }
  rewrite Hd3. cbn [rbind].
  exists st, d3, f4. split; [reflexivity |].
  split; [exact Hno |]. split; [exact Hni |].
  split; [rewrite Hout; eauto |].
  cbn [snd] in Hfail. rewrite Hfail. subst f2. cbn. lia.
Qed.

Lemma SDN_setData_ok (t : SpatialDivisiveNormalization.Tensor) host
  (d : Device F) :
  live (SpatialDivisiveNormalization.data t) d ->
  (Z.to_nat (SpatialDivisiveNormalization.dataSize t) <= length host)%nat ->
  exists d', SpatialDivisiveNormalization.setData t host d = Ok d' /\
             next_buffer d' = next_buffer d /\
             (forall b, live b d -> live b d').
Proof.
  intros Hl Hn. unfold SpatialDivisiveNormalization.setData.
  apply Nat.leb_le in Hn. rewrite Hn.
  destruct (store_live _
              (take (Z.to_nat (SpatialDivisiveNormalization.dataSize t))
                 host) d Hl) as [d' Hd'].
  exists d'. split; [exact Hd' |].
  split; [eapply store_next_buffer; eassumption |].
  intros b Hb. eapply live_store; eassumption.
Qed.

(** The same for the normalization stage: with the two header fields
    there, odd and positive, the factory returns a constructed stage
    whatever the length of the rest. *)
Lemma SDN_loadFromFile_ok junk (bytes : list Byte.byte) (d : Device F) :
  let kernel_size_1 := Stream.le_i32 (take 4 bytes) in
  let kernel_size_2 := Stream.le_i32 (take 4 (drop 4 bytes)) in
  (8 <= length bytes)%nat ->
  1 <= kernel_size_1 -> Z.odd kernel_size_1 = true ->
  1 <= kernel_size_2 -> Z.odd kernel_size_2 = true ->
  exists st d' f',
    SpatialDivisiveNormalization.loadFromFile junk (Stream.open bytes) d =
      Ok (st, d', f') /\
    SpatialDivisiveNormalization.constructed st
      {| SpatialDivisiveNormalization.dim :=
           (kernel_size_1, kernel_size_2, 1);
         SpatialDivisiveNormalization.data := S (next_buffer d) |} /\
    (Stream.failbit f' = true <->
     (length bytes <
      8 + 4 * Z.to_nat (kernel_size_1 * kernel_size_2) + 4)%nat).
Proof.
  intros k1 k2 Hlen H1 Ho1 H2 Ho2.
  unfold SpatialDivisiveNormalization.loadFromFile.
  rewrite read_enough;
    [| reflexivity | cbn; lia | apply length_indeterminate].
  cbn [Stream.open Stream.pos Stream.contents].
  rewrite read_enough;
    [| reflexivity | cbn; lia | apply length_indeterminate].
  cbn [Stream.pos Stream.contents Nat.add].
  change (drop 0 bytes) with bytes.
  fold k1. fold k2.
  assert (Hk : (if 1 <? k2
                then SpatialDivisiveNormalization.Tensor_new (k1, k2, 1) d
                else SpatialDivisiveNormalization.Tensor_new (k1, 1, 1) d)
               = SpatialDivisiveNormalization.Tensor_new (k1, k2, 1) d).
  { destruct (Z.ltb_spec 1 k2) as [_ | Hle]; [reflexivity |].
    replace k2 with 1 by lia. reflexivity. }
  rewrite Hk. clear Hk.
  rewrite Tensor_new_ok by (cbn; lia).
  cbn [rbind].
  set (kernel := {| SpatialDivisiveNormalization.dim := (k1, k2, 1);
                    SpatialDivisiveNormalization.data := next_buffer d |}).
  set (d1 := (alloc _ d).2).
  set (n := Z.to_nat (SpatialDivisiveNormalization.dataSize kernel)).
  assert (Hn : n = Z.to_nat (k1 * k2)).
  { subst n. unfold SpatialDivisiveNormalization.dataSize. cbn.
    f_equal. lia. }
  set (f2 := {| Stream.contents := bytes; Stream.pos := 8;
                Stream.failbit := false |}).
  pose proof (two_reads_failbit (4 * n) 4
                (Stream.indeterminate junk 2 (4 * n))
                (Stream.indeterminate junk 3 4) f2 eq_refl) as Hfail.
  destruct (Stream.read (4 * n) (Stream.indeterminate junk 2 (4 * n)) f2)
    as [kernel_cpu f3].
  destruct (SDN_setData_ok kernel (Stream.floats n kernel_cpu) d1)
    as (d2 & Hd2 & Hn2 & Hl2).
  { subst d1 kernel. apply live_alloc_fresh. }
  { rewrite length_floats. subst n. lia. }
  rewrite Hd2. cbn [rbind].
  cbn [snd] in Hfail.
  destruct (Stream.read 4 (Stream.indeterminate junk 3 4) f3)
    as [bs f4].
  destruct (new_ok kernel (of_bits (Stream.le_u32 bs)) d2)
    as (st & d3 & Hnew & _); try assumption; try reflexivity.
  { split; [cbn; lia |]. apply Hl2. subst d1 kernel. apply live_alloc_fresh. }
  rewrite Hnew. cbn [rbind].
  eexists st, _, f4. split; [reflexivity |].
  apply new_constructed in Hnew as (Hc & _).
  rewrite Hn2 in Hc. subst d1. cbn in Hc.
  split; [exact Hc |].
  cbn [snd] in Hfail. rewrite Hfail. subst f2. cbn. lia.
Qed.

End LoadFacts.

(** C2, as amended: neither factory looks at the result of a read.  When
    the two header fields are in the file and describe a stage (positive
    counts whose product fits [int32_t] for Linear, odd positive kernel
    sizes for the normalization stage), the factory returns a constructed
    stage of the header's dimensions however short the rest of the file
    is; the stream's [failbit] is up at the end exactly when the file holds
    fewer bytes than the header declares. *)
Theorem loadFromFile_ignores_short_reads {F : Type} {ops : FloatOps F} :
  (forall junk (bytes : list Byte.byte) (d : Device F),
     let n_outputs := Stream.le_i32 (take 4 bytes) in
     let n_inputs := Stream.le_i32 (take 4 (drop 4 bytes)) in
     (8 <= length bytes)%nat ->
     1 <= n_outputs -> 1 <= n_inputs -> n_outputs * n_inputs < 2 ^ 31 ->
     exists st d' f',
       Linear.loadFromFile junk (Stream.open bytes) d = Ok (st, d', f') /\
       Linear.n_outputs_ st = n_outputs /\ Linear.n_inputs_ st = n_inputs /\
       is_Some (Linear.output st) /\
       (Stream.failbit f' = true <->
        (length bytes <
         8 + 4 * Z.to_nat (n_outputs * n_inputs)
         + 4 * Z.to_nat n_outputs)%nat)) /\
  (forall junk (bytes : list Byte.byte) (d : Device F),
     let kernel_size_1 := Stream.le_i32 (take 4 bytes) in
     let kernel_size_2 := Stream.le_i32 (take 4 (drop 4 bytes)) in
     (8 <= length bytes)%nat ->
     1 <= kernel_size_1 -> Z.odd kernel_size_1 = true ->
     1 <= kernel_size_2 -> Z.odd kernel_size_2 = true ->
     exists st d' f',
       SpatialDivisiveNormalization.loadFromFile junk (Stream.open bytes) d =
         Ok (st, d', f') /\
       SpatialDivisiveNormalization.constructed st
         {| SpatialDivisiveNormalization.dim :=
              (kernel_size_1, kernel_size_2, 1);
            SpatialDivisiveNormalization.data := S (next_buffer d) |} /\
       (Stream.failbit f' = true <->
        (length bytes <
         8 + 4 * Z.to_nat (kernel_size_1 * kernel_size_2) + 4)%nat)).
Proof.
  split.
  - intros junk bytes d. apply Linear_loadFromFile_ok.
  - intros junk bytes d. apply SDN_loadFromFile_ok.
Qed.

Lemma loadFromFile_ignores_short_reads_witness :
  (exists st d' f',
     Linear.loadFromFile Examples.zero_junk
       (Stream.open Examples.linear_header_only) (empty_device (F := Z)) =
       Ok (st, d', f') /\
     Linear.n_outputs_ st = 1 /\ Linear.n_inputs_ st = 1 /\
     is_Some (Linear.output st) /\
     (Stream.failbit f' = true <-> (8 < 8 + 4 * 1 + 4 * 1)%nat)) /\
  (exists st d' f',
     SpatialDivisiveNormalization.loadFromFile Examples.zero_junk
       (Stream.open Examples.sdn_cut_in_kernel) (empty_device (F := Z)) =
       Ok (st, d', f') /\
     SpatialDivisiveNormalization.constructed st
       {| SpatialDivisiveNormalization.dim := (3, 1, 1);
          SpatialDivisiveNormalization.data := 1 |} /\
     (Stream.failbit f' = true <-> (12 < 8 + 4 * 3 + 4)%nat)).
Proof.
  split.
  - apply (proj1 loadFromFile_ignores_short_reads Examples.zero_junk
             Examples.linear_header_only empty_device);
      first [vm_compute; lia | vm_compute; congruence
            | vm_compute; reflexivity].
  - apply (proj2 loadFromFile_ignores_short_reads Examples.zero_junk
             Examples.sdn_cut_in_kernel empty_device);
      first [vm_compute; lia | vm_compute; congruence
            | vm_compute; reflexivity].
Defined.

(** C2, as stated, fails: a Linear file that ends after its header
    declares one weight and one bias it does not hold, and is loaded into
    a stage all the same. *)
Lemma truncated_linear_file_loads :
  (length Examples.linear_header_only < 8 + 4 * 1 + 4 * 1)%nat /\
  exists st d' f',
    Linear.loadFromFile Examples.zero_junk
      (Stream.open Examples.linear_header_only) (empty_device (F := Z)) =
      Ok (st, d', f') /\
    Linear.n_outputs_ st = 1 /\ Linear.n_inputs_ st = 1 /\
    Linear.output st =
      Some {| Linear.dim := 1; Linear.size := [1]; Linear.storage := 0 |} /\
    Stream.failbit f' = true.
Proof.
  split; [cbn; lia |].
  destruct (Linear.loadFromFile Examples.zero_junk
              (Stream.open Examples.linear_header_only)
              (empty_device (F := Z))) as [[[st d'] f'] |] eqn:E;
    [| vm_compute in E; discriminate].
  exists st, d', f'. split; [reflexivity |].
  vm_compute in E. injection E as <- <- <-.
  repeat split.
Qed.

(** ** The kernels of the Linear stage in exact arithmetic *)

Section ExactKernels.
Import Exact.

Lemma sumZ_ext c g h :
  (forall j, 0 <= j < Z.of_nat c -> g j = h j) -> sumZ c g = sumZ c h.
Proof.
  induction c as [| c IH]; intros Hgh; cbn [sumZ]; [reflexivity |].
  rewrite IH by (intros j Hj; apply Hgh; lia).
  rewrite Hgh by lia. reflexivity.
Qed.

Lemma sumZ_add c g h :
  sumZ c (fun j => g j + h j) = sumZ c g + sumZ c h.
Proof.
  induction c as [| c IH]; cbn [sumZ]; [reflexivity |]. rewrite IH. lia.
Qed.

Lemma sumZ_indicator c m v :
  sumZ c (fun j => if m =? j then v else 0) =
  if (0 <=? m) && (m <? Z.of_nat c) then v else 0.
Proof.
  induction c as [| c IH]; cbn [sumZ].
  - destruct (Z.leb_spec 0 m); cbn [andb]; [| reflexivity].
    destruct (Z.ltb_spec m (Z.of_nat 0)); [lia | reflexivity].
  - rewrite IH.
    destruct (Z.eqb_spec m (Z.of_nat c)) as [-> | Hne].
    + replace (Z.of_nat c <? Z.of_nat c) with false
        by (symmetry; apply Z.ltb_ge; lia).
      replace (Z.of_nat c <? Z.of_nat (S c)) with true
        by (symmetry; apply Z.ltb_lt; lia).
      replace (0 <=? Z.of_nat c) with true by (symmetry; apply Z.leb_le; lia).
      cbn. lia.
    + destruct (Z.leb_spec 0 m); cbn [andb]; [| lia].
      destruct (Z.ltb_spec m (Z.of_nat c)),
        (Z.ltb_spec m (Z.of_nat (S c))); lia.
Qed.

Lemma sumZ_split c g :
  sumZ (c + c) g = sumZ c g + sumZ c (fun j => g (j + Z.of_nat c)).
Proof.
  assert (Hgen : forall k,
            sumZ (c + k) g =
            sumZ c g + sumZ k (fun j => g (j + Z.of_nat c))).
  { induction k as [| k IH].
    - rewrite Nat.add_0_r. cbn. lia.
    - rewrite Nat.add_succ_r. cbn [sumZ]. rewrite IH.
      replace (Z.of_nat (c + k)) with (Z.of_nat k + Z.of_nat c) by lia. lia. }
  apply Hgen.
Qed.

(** The columns together hold every term once. *)
Lemma sumZ_colsum n p f :
  1 <= p -> sumZ (Z.to_nat p) (fun jj => colsum n jj p f) = sumZ n f.
Proof.
  intros Hp. induction n as [| n IH]; cbn [colsum sumZ].
  - rewrite (sumZ_ext _ _ (fun _ => 0 + 0)) by reflexivity.
    induction (Z.to_nat p) as [| c IHc]; cbn [sumZ]; [reflexivity | lia].
  - rewrite sumZ_add, IH.
    rewrite sumZ_indicator.
    pose proof (Z.mod_pos_bound (Z.of_nat n) p ltac:(lia)) as Hm.
    replace (0 <=? Z.of_nat n mod p) with true
      by (symmetry; apply Z.leb_le; lia).
    replace (Z.of_nat n mod p <? Z.of_nat (Z.to_nat p)) with true
      by (symmetry; apply Z.ltb_lt; lia).
    reflexivity.
Qed.

Lemma fold_left_sumZ (f : Z -> Z) n :
  fold_left (fun sum k => sum + f k) (seqZ 0 (Z.of_nat n)) 0 = sumZ n f.
Proof.
  induction n as [| n IH]; [reflexivity |].
  rewrite seqZ_S, fold_left_app, IH. cbn. reflexivity.
Qed.

Lemma partial_dot_done fuel A X M N row k p s :
  N <= k -> Linear.partial_dot fuel A X M N row k p s = s.
Proof.
  intros Hk. destruct fuel as [| fuel]; cbn [Linear.partial_dot];
    [reflexivity |].
  destruct (Z.ltb_spec k N); [lia | reflexivity].
Qed.

Lemma partial_dot_succ A X M N row p : 1 <= p ->
  forall fuel k s, (Z.to_nat (N + 1 - k) <= fuel)%nat ->
  Linear.partial_dot fuel A X M (N + 1) row k p s =
  Linear.partial_dot fuel A X M N row k p s
  + (if (k <=? N) && ((N - k) mod p =? 0) then term A X M row N else 0).
Proof.
  intros Hp. induction fuel as [| fuel IH]; intros k s Hf.
  - rewrite !partial_dot_done by lia.
    destruct (Z.leb_spec k N); [lia |]. cbn. lia.
  - cbn [Linear.partial_dot].
    destruct (Z.ltb_spec k N) as [Hlt | Hge].
    + destruct (Z.ltb_spec k (N + 1)); [| lia].
      rewrite IH by lia. f_equal.
      replace (N - (k + p)) with ((N - k) + (-1) * p) by lia.
      rewrite Z.mod_add by lia.
      destruct (Z.eqb_spec ((N - k) mod p) 0) as [Hm | Hm].
      * apply Z.mod_divide in Hm; [| lia]. destruct Hm as [q Hq].
        assert (1 <= q) by nia.
        replace (k + p <=? N) with true by (symmetry; apply Z.leb_le; nia).
        replace (k <=? N) with true by (symmetry; apply Z.leb_le; lia).
        reflexivity.
      * rewrite !andb_false_r. reflexivity.
    + destruct (Z.ltb_spec k (N + 1)) as [Hlt1 | Hge1].
      * assert (k = N) as -> by lia.
        rewrite partial_dot_done by lia.
        rewrite Z.sub_diag, Z.mod_0_l by lia.
        replace (N <=? N) with true by (symmetry; apply Z.leb_le; lia).
        cbn. unfold term. reflexivity.
      * destruct (Z.leb_spec k N); [lia |]. cbn. lia.
Qed.

Lemma partial_dot_colsum A X M row p jj : 1 <= p -> 0 <= jj < p ->
  forall n,
  Linear.partial_dot n A X M (Z.of_nat n) row jj p 0 =
  colsum n jj p (term A X M row).
Proof.
  intros Hp Hjj. induction n as [| n IH]; [reflexivity |].
  replace (Z.of_nat (S n)) with (Z.of_nat n + 1) by lia.
  rewrite partial_dot_succ by lia.
  rewrite partial_dot_fuel_enough by lia.
  rewrite IH. cbn [colsum]. f_equal.
  destruct (Z.eqb_spec (Z.of_nat n mod p) jj) as [Hm | Hm].
  - assert (Hn : Z.of_nat n = p * (Z.of_nat n / p) + jj)
      by (rewrite <- Hm; apply Z.div_mod; lia).
    assert (0 <= Z.of_nat n / p) by (apply Z.div_pos; lia).
    replace (jj <=? Z.of_nat n) with true by (symmetry; apply Z.leb_le; nia).
    replace ((Z.of_nat n - jj) mod p) with 0.
    + reflexivity.
    + symmetry. apply Z.mod_divide; [lia |]. exists (Z.of_nat n / p). lia.
  - destruct (Z.leb_spec jj (Z.of_nat n)); cbn [andb]; [| reflexivity].
    destruct (Z.eqb_spec ((Z.of_nat n - jj) mod p) 0) as [Hz | Hz];
      [| reflexivity].
    exfalso. apply Hm.
    apply Z.mod_divide in Hz; [| lia]. destruct Hz as [q Hq].
    replace (Z.of_nat n) with (jj + q * p) by lia.
    rewrite Z.mod_add by lia. apply Z.mod_small. lia.
Qed.

Lemma lookup_at_index (l : list Z) (i : nat) :
  (i < length l)%nat -> l !! i = Some (at_index l (Z.of_nat i)).
Proof.
  intros Hi. unfold at_index. rewrite Nat2Z.id, nth_lookup.
  destruct (lookup_lt_is_Some_2 l i Hi) as [x ->]. reflexivity.
Qed.

Lemma at_index_fmap_seqZ (f : Z -> Z) n i :
  0 <= i < n -> at_index (f <$> seqZ 0 n) i = f i.
Proof.
  intros Hi. unfold at_index. rewrite nth_lookup, list_lookup_fmap.
  rewrite lookup_seqZ_lt by lia. cbn. f_equal. lia.
Qed.

Lemma length_reduce_round rows c (work : list Z) :
  length (Linear.reduce_round rows c work) = length work.
Proof. unfold Linear.reduce_round. apply length_imap. Qed.

Lemma length_reduce fuel : forall rows c (work : list Z),
  length (Linear.reduce fuel rows c work) = length work.
Proof.
  induction fuel as [| fuel IH]; intros rows c work; cbn [Linear.reduce];
    [reflexivity |].
  destruct (1 <? c); [| reflexivity].
  rewrite IH. apply length_reduce_round.
Qed.

Lemma reduce_round_at rows c (work : list Z) i :
  0 <= i < Z.of_nat (length work) ->
  at_index (Linear.reduce_round rows c work) i =
  if i / rows <? c then at_index work i + at_index work (i + rows * c)
  else at_index work i.
Proof.
  intros Hi. unfold Linear.reduce_round.
  unfold at_index at 1. rewrite nth_lookup, list_lookup_imap.
  rewrite (lookup_at_index work (Z.to_nat i)) by lia.
  cbn. rewrite !Z2Nat.id by lia. reflexivity.
Qed.

Lemma reduce_pow2 rows : 1 <= rows ->
  forall e fuel (work : list Z) ii,
  (e <= fuel)%nat ->
  rows * Z.of_nat (2 ^ e) <= Z.of_nat (length work) ->
  0 <= ii < rows ->
  at_index (Linear.reduce fuel rows (Z.of_nat (2 ^ e)) work) ii =
  sumZ (2 ^ e) (fun jj => at_index work (ii + rows * jj)).
Proof.
  intros Hrows. induction e as [| e IH]; intros fuel work ii Hf Hlen Hii.
  - cbn [Nat.pow sumZ]. rewrite Z.mul_0_r, Z.add_0_r.
    destruct fuel; cbn [Linear.reduce]; reflexivity.
  - destruct fuel as [| fuel]; [lia |]. cbn [Linear.reduce].
    assert (Hpow : Z.of_nat (2 ^ S e) = 2 * Z.of_nat (2 ^ e))
      by (cbn [Nat.pow]; lia).
    assert (Hpos : 1 <= Z.of_nat (2 ^ e)).
    { pose proof (Nat.pow_nonzero 2 e). lia. }
    destruct (Z.ltb_spec 1 (Z.of_nat (2 ^ S e))) as [_ | Hbad]; [| lia].
    assert (Hhalf : Z.shiftr (Z.of_nat (2 ^ S e)) 1 = Z.of_nat (2 ^ e)).
    { rewrite Z.shiftr_div_pow2 by lia. rewrite Hpow.
      change (2 ^ 1) with 2. rewrite Z.mul_comm. apply Z.div_mul. lia. }
    rewrite Hhalf.
    rewrite IH; [| lia | rewrite length_reduce_round; nia | exact Hii].
    replace (2 ^ S e)%nat with (2 ^ e + 2 ^ e)%nat by (cbn [Nat.pow]; lia).
    rewrite sumZ_split, <- sumZ_add.
    apply sumZ_ext. intros jj Hjj.
    rewrite reduce_round_at by nia.
    replace ((ii + rows * jj) / rows) with jj.
    2: { replace (ii + rows * jj) with (ii + jj * rows) by lia.
         rewrite Z.div_add by lia. rewrite Z.div_small by lia. lia. }
    destruct (Z.ltb_spec jj (Z.of_nat (2 ^ e))); [| lia].
    f_equal. f_equal. lia.
Qed.

Lemma group_result_pow2 A X M N rows e grow :
  1 <= rows -> 0 <= N ->
  Linear.group_result A X M N (Z.of_nat (2 ^ e)) rows (Z.of_nat (2 ^ e))
    grow 0 =
  (fun ii => dotv A X M N (grow * rows + ii)) <$> seqZ 0 rows.
Proof.
  intros Hrows HN.
  assert (Hpos : 1 <= Z.of_nat (2 ^ e)).
  { pose proof (Nat.pow_nonzero 2 e). lia. }
  unfold Linear.group_result. apply list_eq. intros i.
  rewrite list_lookup_fmap.
  destruct (Z_lt_ge_dec (Z.of_nat i) rows) as [Hi | Hi].
  - rewrite lookup_take_lt by lia.
    rewrite lookup_at_index.
    2: { rewrite length_reduce. unfold Linear.work_init.
         rewrite length_fmap, length_seqZ. nia. }
    rewrite lookup_seqZ_lt by lia. cbn [fmap option_fmap option_map].
    f_equal. rewrite Nat2Z.id.
    rewrite reduce_pow2; try lia.
    2: { pose proof (Nat.pow_gt_lin_r 2 e). lia. }
    2: { unfold Linear.work_init. rewrite length_fmap, length_seqZ. nia. }
    unfold dotv.
    rewrite <- (sumZ_colsum (Z.to_nat N) (Z.of_nat (2 ^ e))) by lia.
    rewrite Nat2Z.id. apply sumZ_ext. intros jj Hjj.
    unfold Linear.work_init. rewrite at_index_fmap_seqZ by nia.
    cbn beta zeta.
    replace ((Z.of_nat i + rows * jj) mod rows) with (Z.of_nat i).
    2: { replace (Z.of_nat i + rows * jj) with (Z.of_nat i + jj * rows) by lia.
         rewrite Z.mod_add by lia. rewrite Z.mod_small by lia. reflexivity. }
    replace ((Z.of_nat i + rows * jj) / rows) with jj.
    2: { replace (Z.of_nat i + rows * jj) with (Z.of_nat i + jj * rows) by lia.
         rewrite Z.div_add by lia. rewrite Z.div_small by lia. lia. }
    rewrite Z.mul_0_l, (Z.add_0_l jj).
    change (@fzero Z exact_ops) with 0.
    assert (HNn : N = Z.of_nat (Z.to_nat N)) by lia.
    rewrite HNn at 2. rewrite partial_dot_colsum by lia. reflexivity.
  - rewrite lookup_take_ge by lia.
    rewrite lookup_seqZ_ge by lia. reflexivity.
Qed.

Lemma length_group_result A X M N rows e grow :
  1 <= rows -> 0 <= N ->
  length (Linear.group_result A X M N (Z.of_nat (2 ^ e)) rows
            (Z.of_nat (2 ^ e)) grow 0) = Z.to_nat rows.
Proof.
  intros Hr HN. rewrite group_result_pow2 by assumption.
  rewrite length_fmap, length_seqZ. reflexivity.
Qed.

Lemma fmap_shift_seqZ (f : Z -> Z) m n :
  (fun ii => f (m + ii)) <$> seqZ 0 n = f <$> seqZ m n.
Proof.
  replace (seqZ m n) with (seqZ (m + 0) n) by (f_equal; lia).
  rewrite <- fmap_add_seqZ, <- list_fmap_compose. reflexivity.
Qed.

(** The groups, in turn, fill the rows of [Y] from the first on. *)
Lemma groups_fill A X M N rows e (Y : list Z) :
  1 <= rows -> 0 <= N ->
  forall q : nat,
  (q * Z.to_nat rows <= length Y)%nat ->
  fold_left
    (fun Y grow =>
       fold_left
         (fun Y gcol =>
            list_inserts (Z.to_nat (grow * rows))
              (Linear.group_result A X M N (Z.of_nat (2 ^ e)) rows
                 (Z.of_nat (2 ^ e)) grow gcol) Y)
         (seqZ 0 (Z.of_nat (2 ^ e) / Z.of_nat (2 ^ e))) Y)
    (seqZ 0 (Z.of_nat q)) Y =
  (dotv A X M N <$> seqZ 0 (Z.of_nat q * rows))
  ++ drop (q * Z.to_nat rows) Y.
Proof.
  intros Hrows HN.
  assert (Hpos : 1 <= Z.of_nat (2 ^ e)).
  { pose proof (Nat.pow_nonzero 2 e). lia. }
  rewrite Z.div_same by lia.
  change (seqZ 0 1) with [0].
  induction q as [| q IH]; intros Hlen.
  - cbn. reflexivity.
  - rewrite seqZ_S, fold_left_app, IH by lia.
    cbn [fold_left]. rewrite Z.add_0_l.
    rewrite group_result_pow2 by assumption.
    replace (Z.to_nat (Z.of_nat q * rows))
      with (length (dotv A X M N <$> seqZ 0 (Z.of_nat q * rows)) + 0)%nat
      by (rewrite length_fmap, length_seqZ; lia).
    rewrite list_inserts_app_r.
    rewrite <- (take_drop (Z.to_nat rows) (drop (q * Z.to_nat rows) Y)).
    rewrite list_inserts_0_r.
    2: { rewrite length_fmap, length_seqZ, length_take, length_drop. lia. }
    rewrite drop_drop.
    replace (q * Z.to_nat rows + Z.to_nat rows)%nat
      with (S q * Z.to_nat rows)%nat by lia.
    rewrite app_assoc. f_equal.
    replace (Z.of_nat (S q) * rows) with (Z.of_nat q * rows + rows) by lia.
    rewrite seqZ_app by nia. rewrite fmap_app. f_equal.
    rewrite Z.add_0_l.
    apply (fmap_shift_seqZ (dotv A X M N)).
Qed.

Lemma Accum_dotv A X B M N :
  0 <= N ->
  Linear.Accum (dotv A X M N <$> seqZ 0 M) B M = Linear.affine A X B M N.
Proof.
  intros HN. unfold Linear.Accum, Linear.affine.
  apply list_eq. intros i.
  rewrite list_lookup_imap, !list_lookup_fmap.
  destruct (Z_lt_ge_dec (Z.of_nat i) M) as [Hi | Hi].
  - rewrite lookup_seqZ_lt by lia. cbn [fmap option_fmap option_map].
    destruct (Z.ltb_spec (Z.of_nat i) M); [| lia].
    f_equal. rewrite Z.add_0_l.
    change (@fadd Z exact_ops) with Z.add.
    change (@fmul Z exact_ops) with Z.mul.
    change (@fzero Z exact_ops) with 0.
    f_equal. unfold dotv.
    rewrite <- (Z2Nat.id N) at 2 by lia.
    rewrite (fold_left_sumZ (term A X M (Z.of_nat i))). reflexivity.
  - rewrite lookup_seqZ_ge by lia. reflexivity.
Qed.

Proposition matvec_power_of_two A X Y B M N rows e :
  1 <= rows -> (rows | M) -> 0 <= M -> 0 <= N ->
  length Y = Z.to_nat M ->
  Linear.Accum
    (Linear.MatVecMultThreads A X Y M N
       {| Partition.global_size := (M, Z.of_nat (2 ^ e));
          Partition.local_size := (rows, Z.of_nat (2 ^ e)) |}) B M =
  Linear.affine A X B M N.
Proof.
  intros Hrows [q Hq] HM HN HY.
  assert (Hq0 : 0 <= q) by nia.
  unfold Linear.MatVecMultThreads.
  cbn [Partition.global_size Partition.local_size].
  replace (M / rows) with (Z.of_nat (Z.to_nat q)).
  2: { rewrite Hq, Z.div_mul by lia. lia. }
  rewrite (groups_fill A X M N rows e Y Hrows HN (Z.to_nat q)) by nia.
  rewrite drop_ge by nia. rewrite app_nil_r.
  replace (Z.of_nat (Z.to_nat q) * rows) with M by lia.
  apply Accum_dotv. exact HN.
Qed.

Lemma Linear_init_inv (st : Linear.Linear) x t :
  Linear.init st x = Ok t -> x = Linear.TensorData t.
Proof.
  unfold Linear.init, Linear.RASSERT.
  destruct x as [t' |]; [| discriminate]. cbn [rbind].
  destruct (_ && _); [| discriminate]. intros [= ->]. reflexivity.
Qed.

(** With a column factor that is a power of two, and in exact arithmetic,
    a forward call leaves [W x + b] in the output buffer. *)
Proposition forwardProp_power_of_two (lim : DeviceLimits) (st : Linear.Linear)
  inp (d : Device Z) st' d' out w b (A X Y B : list Z) (e : nat) :
  let n := Linear.n_outputs_ st in
  let item1 := workitem_size lim 1 in
  let kmax := max_workgroup_size_kernel lim in
  let devmax := max_workgroup_size lim in
  Linear.forwardProp lim st (Linear.TensorData inp) d = Ok (st', d') ->
  1 <= n -> n + 1 < 2 ^ 31 -> 0 <= Linear.n_inputs_ st < 2 ^ 31 ->
  1 <= item1 < 2 ^ 31 -> 1 <= kmax < 2 ^ 31 -> 1 <= devmax < 2 ^ 32 ->
  Partition.spec_column_factor item1 kmax = Z.of_nat (2 ^ e) ->
  Z.of_nat (2 ^ e) <= devmax ->
  Linear.output st = Some out -> Linear.weights_ st = Some w ->
  Linear.biases_ st = Some b ->
  Linear.storage b ≠ Linear.storage out ->
  load (Linear.storage w) d = Ok A ->
  load (Linear.storage inp) d = Ok X ->
  load (Linear.storage out) d = Ok Y ->
  load (Linear.storage b) d = Ok B ->
  length Y = Z.to_nat n ->
  load (Linear.storage out) d' =
    Ok (Linear.affine A X B n (Linear.n_inputs_ st)).
Proof.
  intros n item1 kmax devmax Hf Hn Hn1 Hni Hi Hk Hd Hp Hpd
    Hout Hw Hb Hne HA HX HY HB Hlen.
  destruct (work_partition_shape lim n Hn Hn1 Hi Hk Hd) as
    (r & Hwp & Hr1 & Hrd & _).
  { fold item1 kmax. rewrite Hp. exact Hpd. }
  fold item1 kmax in Hwp. rewrite Hp in Hwp.
  unfold Linear.forwardProp in Hf.
  destruct (Linear.init st (Linear.TensorData inp)) as [inp' |] eqn:Ei;
    cbn [rbind] in Hf; [| discriminate].
  apply Linear_init_inv in Ei. injection Ei as <-.
  fold n in Hf. rewrite Hwp in Hf. cbn [rbind] in Hf.
  rewrite Hw, Hout in Hf. cbn [Linear.deref rbind] in Hf.
  rewrite HA, HX, HY in Hf. cbn [rbind] in Hf.
  destruct (launch_legal lim _); [| discriminate].
  destruct (store (Linear.storage out) _ d) as [d1 |] eqn:E1;
    cbn [rbind] in Hf; [| discriminate].
  rewrite Hb in Hf. cbn [Linear.deref rbind] in Hf.
  rewrite (load_store_same _ _ _ _ E1) in Hf. cbn [rbind] in Hf.
  rewrite (load_store_other _ _ _ _ _ E1 Hne), HB in Hf. cbn [rbind] in Hf.
  destruct (store (Linear.storage out) _ d1) as [d2 |] eqn:E2;
    cbn [rbind] in Hf; [| discriminate].
  injection Hf as <- <-.
  rewrite (load_store_same _ _ _ _ E2). f_equal.
  rewrite !to_i32_small by lia.
  apply matvec_power_of_two; try assumption; lia.
Qed.

End ExactKernels.

(** * Further properties of the two stages *)

(** ** The work partition, whatever the limits *)

Lemma shrink_from_positive fuel : forall n ls0 p kmax,
  1 <= ls0 < 2 ^ 32 -> (Z.to_nat ls0 <= fuel)%nat ->
  exists r, Partition.shrink fuel n ls0 p kmax = Ok r /\ 1 <= r <= ls0.
Proof.
  induction fuel as [| fuel IH]; intros n ls0 p kmax Hls Hfuel; [lia |].
  cbn [Partition.shrink].
  destruct (Z.eqb_spec ls0 0) as [-> | _]; [lia |].
  destruct (Partition.shrink_cond n ls0 p kmax) eqn:Hc.
  - unfold Partition.shrink_cond in Hc.
    apply andb_true_iff in Hc as [_ Hgt]. apply Z.ltb_lt in Hgt.
    rewrite to_u32_small by lia.
    destruct (IH n (ls0 - 1) p kmax) as (r & Hr & Hb); [lia | lia |].
    exists r. split; [exact Hr | lia].
  - exists ls0. split; [reflexivity | lia].
Qed.

(** X1: whatever the device reports, the work partition of
    [Linear::forwardProp] ends: it divides by zero exactly when the column
    factor or the starting row factor is 0, and otherwise hands
    [runKernel] the global size (rows, p) and a local size (r, p) with [r]
    between 1 and the starting row factor. *)
Theorem work_partition_outcome (lim : DeviceLimits) (n : Z) :
  let p := Partition.column_factor (workitem_size lim 1)
             (max_workgroup_size_kernel lim) in
  let start := to_u32 (min_i32 (to_u32 (n / p + 1))
                               (max_workgroup_size lim / p)) in
  (p = 0 \/ start = 0 ->
   Partition.work_partition lim n = Err DivisionByZero) /\
  (p <> 0 -> start <> 0 ->
   exists r,
     Partition.work_partition lim n =
       Ok {| Partition.global_size := (n, p);
             Partition.local_size := (r, p) |} /\
     1 <= r <= start).
Proof.
  intros p start. unfold Partition.work_partition.
  fold p. unfold Partition.row_factor_start.
  pose proof (to_u32_range (min_i32 (to_u32 (n / p + 1))
                              (max_workgroup_size lim / p))) as Hs.
  fold start in Hs.
  split.
  - intros [Hp | Hstart].
    + rewrite Hp. reflexivity.
    + destruct (Z.eqb_spec p 0) as [_ | _]; [reflexivity |].
      cbn [rbind]. fold start. rewrite Hstart. reflexivity.
  - intros Hp Hstart.
    destruct (Z.eqb_spec p 0) as [Hp0 | _]; [contradiction |].
    cbn [rbind]. fold start.
    destruct (shrink_from_positive (Z.to_nat start) n start p
                (max_workgroup_size_kernel lim)) as (r & Hr & Hb);
      [lia | lia |].
    rewrite Hr. cbn [rbind]. exists r. split; [reflexivity | exact Hb].
Qed.

Lemma spec_shrink_largest n p kmax s r :
  Partition.spec_shrink n p kmax s r ->
  forall r', r < r' <= s -> ~ ((r' | n) /\ r' * p <= kmax).
Proof.
  induction 1 as [r Hd Hle | | r r1 Hnot Hgt _ IH]; intros r' Hr'.
  - lia.
  - lia.
  - destruct (Z.eq_dec r' r) as [-> | Hne]; [exact Hnot |].
    apply IH. lia.
Qed.

(** X2: on limits that fit [int32_t], the row factor [Linear::forwardProp]
    settles on is the largest one, not above its starting value, that
    divides the row count and keeps the work-group within the kernel's
    limit. *)
Theorem work_partition_largest_row_factor (lim : DeviceLimits) (n : Z) :
  let item1 := workitem_size lim 1 in
  let kmax := max_workgroup_size_kernel lim in
  let devmax := max_workgroup_size lim in
  let p := Z.min 16 (Z.min item1 kmax) in
  let start := Z.min (n / p + 1) (devmax / p) in
  1 <= n -> n + 1 < 2 ^ 31 ->
  1 <= item1 < 2 ^ 31 -> 1 <= kmax < 2 ^ 31 ->
  p <= devmax < 2 ^ 31 ->
  exists r,
    Partition.work_partition lim n =
      Ok {| Partition.global_size := (n, p);
            Partition.local_size := (r, p) |} /\
    1 <= r <= start /\ (r | n) /\ r * p <= kmax /\
    (forall r', r < r' <= start -> ~ ((r' | n) /\ r' * p <= kmax)).
Proof.
  intros item1 kmax devmax p start Hn Hn1 Hi Hk Hd.
  assert (Hp : 1 <= p <= kmax) by (subst p; lia).
  unfold Partition.work_partition. fold item1 kmax devmax.
  rewrite column_factor_small by assumption.
  unfold Partition.spec_column_factor. fold p.
  rewrite row_factor_start_small by lia.
  unfold Partition.spec_row_start. fold start.
  cbn [rbind].
  assert (Hstart : 1 <= start /\ start * p <= devmax).
  { subst start.
    assert (0 <= n / p) by (apply Z.div_pos; lia).
    assert (1 <= devmax / p) by (apply Z.div_le_lower_bound; lia).
    assert (p * (devmax / p) <= devmax) by (apply Z.mul_div_le; lia).
    split; [lia | nia]. }
  destruct (shrink_result (Z.to_nat start) n start p kmax)
    as (r & Hr & Hb & Hdiv & Hle & Hspec); [lia | lia | lia | lia | lia |].
  exists r. rewrite Hr. cbn [rbind].
  repeat split; try assumption; try lia.
  intros r' Hr'. exact (spec_shrink_largest _ _ _ _ _ Hspec r' Hr').
Qed.

Lemma work_partition_largest_row_factor_witness :
  exists r,
    Partition.work_partition
      {| max_workitem_size := (1024, 1024, 64);
         max_workgroup_size := 1024;
         max_workgroup_size_kernel := 256 |} 60 =
      Ok {| Partition.global_size := (60, 16);
            Partition.local_size := (r, 16) |} /\
    1 <= r <= 4 /\ (r | 60) /\ r * 16 <= 256 /\
    (forall r', r < r' <= 4 -> ~ ((r' | 60) /\ r' * 16 <= 256)).
Proof.
  apply (work_partition_largest_row_factor
           {| max_workitem_size := (1024, 1024, 64);
              max_workgroup_size := 1024;
              max_workgroup_size_kernel := 256 |} 60);
    unfold workitem_size; simpl; lia.
Defined.

(** ** Linear: what a forward call reads and writes *)

Import Linear.

Section LinearForward.
Context {F : Type} {ops : FloatOps F}.

Lemma work_partition_inv (lim : DeviceLimits) (n : Z) sz :
  Partition.work_partition lim n = Ok sz ->
  exists r p,
    sz = {| Partition.global_size := (n, p);
            Partition.local_size := (r, p) |} /\
    0 <= r /\ 0 <= p.
Proof.
  unfold Partition.work_partition, Partition.row_factor_start.
  set (p := Partition.column_factor _ _).
  assert (Hp : 0 <= p) by (subst p; apply to_u32_range).
  destruct (Z.eqb_spec p 0) as [_ | Hp0]; cbn [rbind]; [discriminate |].
  set (start := to_u32 _).
  assert (Hs : 0 <= start < 2 ^ 32) by (subst start; apply to_u32_range).
  destruct (Z.eq_dec start 0) as [Hs0 | Hs0].
  - rewrite Hs0. destruct (Z.to_nat 0); cbn; discriminate.
  - destruct (shrink_from_positive (Z.to_nat start) n start p
                (max_workgroup_size_kernel lim)) as (r & Hr & Hb);
      [lia | lia |].
    rewrite Hr. cbn [rbind]. intros [= <-].
    exists r, p. split; [reflexivity | lia].
Qed.

Lemma launch_legal_inv lim n r p :
  launch_legal lim {| Partition.global_size := (n, p);
                      Partition.local_size := (r, p) |} = true ->
  r <> 0 /\ p <> 0 /\ n mod r = 0.
Proof.
  unfold launch_legal. cbn [Partition.global_size Partition.local_size].
  intros H. repeat (apply andb_true_iff in H as [H ?]).
  repeat match goal with
         | H : negb _ = true |- _ => apply negb_true_iff, Z.eqb_neq in H
         | H : (_ =? _) = true |- _ => apply Z.eqb_eq in H
         end.
  auto.
Qed.

Lemma length_reduce_round_any rows c (work : list F) :
  length (reduce_round rows c work) = length work.
Proof. unfold reduce_round. apply length_imap. Qed.

Lemma length_reduce_any fuel : forall rows c (work : list F),
  length (reduce fuel rows c work) = length work.
Proof.
  induction fuel as [| fuel IH]; intros rows c work; cbn [reduce];
    [reflexivity |].
  destruct (1 <? c); [| reflexivity].
  rewrite IH. apply length_reduce_round_any.
Qed.

Lemma length_group_result_any (A X : list F) M N g1 rows cols grow gcol :
  1 <= rows -> 1 <= cols ->
  length (group_result A X M N g1 rows cols grow gcol) = Z.to_nat rows.
Proof.
  intros Hr Hc. unfold group_result.
  rewrite length_take, length_reduce_any. unfold work_init.
  rewrite length_fmap, length_seqZ. nia.
Qed.

Lemma length_groups (A X : list F) M N g1 rows cols (q : nat) :
  1 <= rows -> 1 <= cols ->
  length (grow ← seqZ 0 (Z.of_nat q);
          group_result A X M N g1 rows cols grow 0) =
  (q * Z.to_nat rows)%nat.
Proof.
  intros Hrows Hcols.
  induction q as [| q IHq]; [reflexivity |].
  rewrite seqZ_S, bind_app, length_app, IHq.
  cbn [mbind list_bind]. rewrite app_nil_r, Z.add_0_l.
  rewrite length_group_result_any by assumption. lia.
Qed.

(** With the rows a multiple of the row factor, the work-groups write
    every cell of [Y]: what it held before does not matter. *)
Lemma groups_overwrite (A X : list F) M N g1 rows cols :
  1 <= rows -> 1 <= cols ->
  forall (q : nat) (Y : list F),
  (q * Z.to_nat rows <= length Y)%nat ->
  fold_left
    (fun Y grow =>
       fold_left
         (fun Y gcol =>
            list_inserts (Z.to_nat (grow * rows))
              (group_result A X M N g1 rows cols grow gcol) Y)
         (seqZ 0 1) Y)
    (seqZ 0 (Z.of_nat q)) Y =
  (grow ← seqZ 0 (Z.of_nat q);
   group_result A X M N g1 rows cols grow 0)
  ++ drop (q * Z.to_nat rows) Y.
Proof.
  intros Hrows Hcols.
  change (seqZ 0 1) with [0].
  induction q as [| q IH]; intros Y Hlen.
  - cbn. reflexivity.
  - rewrite seqZ_S, fold_left_app, IH by lia.
    cbn [fold_left]. rewrite Z.add_0_l.
    rewrite bind_app. cbn [mbind list_bind]. rewrite app_nil_r.
    set (done := seqZ 0 (Z.of_nat q) ≫= _).
    assert (Hdone : length done = (q * Z.to_nat rows)%nat)
      by (apply length_groups; assumption).
    replace (Z.to_nat (Z.of_nat q * rows)) with (length done + 0)%nat
      by (rewrite Hdone; lia).
    rewrite list_inserts_app_r.
    rewrite <- (take_drop (Z.to_nat rows) (drop (q * Z.to_nat rows) Y)).
    rewrite list_inserts_0_r.
    2: { rewrite length_group_result_any, length_take, length_drop
           by assumption. lia. }
    rewrite drop_drop.
    replace (q * Z.to_nat rows + Z.to_nat rows)%nat
      with (S q * Z.to_nat rows)%nat by lia.
    rewrite app_assoc. reflexivity.
Qed.

Lemma MatVecMultThreads_overwrites (A X Y Y' : list F) M N n r p :
  1 <= r -> 1 <= p -> 0 <= n -> n mod r = 0 ->
  length Y = Z.to_nat n -> length Y' = Z.to_nat n ->
  MatVecMultThreads A X Y M N
    {| Partition.global_size := (n, p); Partition.local_size := (r, p) |} =
  MatVecMultThreads A X Y' M N
    {| Partition.global_size := (n, p); Partition.local_size := (r, p) |}.
Proof.
  intros Hr Hp Hn Hmod HY HY'. unfold MatVecMultThreads.
  cbn [Partition.global_size Partition.local_size].
  rewrite Z.div_same by lia.
  assert (Hq : n = r * (n / r)) by (apply Z.div_exact; lia).
  assert (Hq0 : 0 <= n / r) by (apply Z.div_pos; lia).
  replace (n / r) with (Z.of_nat (Z.to_nat (n / r))) by lia.
  rewrite !groups_overwrite by (try assumption; nia).
  rewrite !drop_ge by nia. reflexivity.
Qed.

Lemma length_MatVecMultThreads (A X Y : list F) M N n r p :
  1 <= r -> 1 <= p -> 0 <= n -> n mod r = 0 ->
  length Y = Z.to_nat n ->
  length (MatVecMultThreads A X Y M N
            {| Partition.global_size := (n, p);
               Partition.local_size := (r, p) |}) = Z.to_nat n.
Proof.
  intros Hr Hp Hn Hmod HY. unfold MatVecMultThreads.
  cbn [Partition.global_size Partition.local_size].
  rewrite Z.div_same by lia.
  assert (Hq : n = r * (n / r)) by (apply Z.div_exact; lia).
  assert (Hq0 : 0 <= n / r) by (apply Z.div_pos; lia).
  replace (n / r) with (Z.of_nat (Z.to_nat (n / r))) by lia.
  rewrite groups_overwrite by (try assumption; nia).
  rewrite drop_ge by nia. rewrite app_nil_r.
  rewrite length_groups by assumption. nia.
Qed.

Lemma length_Accum (output biases : list F) n :
  length (Accum output biases n) = length output.
Proof. unfold Accum. apply length_imap. Qed.


Lemma Linear_init_checks (st : Linear) x t :
  init st x = Ok t ->
  x = TensorData t /\ dim t = 1 /\ nth 0 (size t) 0 = n_inputs_ st.
Proof.
  unfold init, RASSERT. destruct x as [t' |]; [| discriminate].
  cbn [rbind].
  destruct ((dim t' =? 1) && (nth 0 (size t') 0 =? n_inputs_ st)) eqn:Hc;
    [| discriminate].
  intros [= ->].
  apply andb_true_iff in Hc as [Hc1 Hc2].
  apply Z.eqb_eq in Hc1, Hc2. auto.
Qed.

Lemma Linear_init_refuses (st : Linear) x :
  ~ (exists t, x = TensorData t /\ dim t = 1 /\
               nth 0 (size t) 0 = n_inputs_ st) ->
  init st x = Err AssertionFailure.
Proof.
  intros Hn. unfold init, RASSERT. destruct x as [t |]; [| reflexivity].
  cbn [rbind].
  destruct ((dim t =? 1) && (nth 0 (size t) 0 =? n_inputs_ st)) eqn:Hc;
    [| reflexivity].
  exfalso. apply Hn. exists t.
  apply andb_true_iff in Hc as [Hc1 Hc2].
  apply Z.eqb_eq in Hc1, Hc2. auto.
Qed.

(** X3: both builds of [Linear::forwardProp] refuse, with a failed
    assertion, every input that is not a one-dimensional tensor of
    [n_inputs_] elements; they do so before a device limit is asked for or
    a buffer is read. *)
Theorem forward_refuses_other_inputs (lim : DeviceLimits) (st : Linear)
  (x : TorchData) (d : Device F) :
  ~ (exists t, x = TensorData t /\ dim t = 1 /\
               nth 0 (size t) 0 = n_inputs_ st) ->
  forwardProp lim st x d = Err AssertionFailure /\
  forwardProp_simple st x d = Err AssertionFailure.
Proof.
  intros Hn. unfold forwardProp, forwardProp_simple.
  rewrite (Linear_init_refuses st x Hn). split; reflexivity.
Qed.

Lemma forwardProp_simple_inv st x (d : Device F) st' d' :
  forwardProp_simple st x d = Ok (st', d') ->
  st' = st /\ next_buffer d' = next_buffer d /\
  dom (buffers d') = dom (buffers d) /\
  (forall out b, output st = Some out -> b ≠ storage out ->
                 load b d' = load b d).
Proof.
  unfold forwardProp_simple.
  destruct (init st x) as [inp |] eqn:Ei; cbn [rbind]; [| discriminate].
  destruct (weights_ st) as [w |]; cbn [deref rbind]; [| discriminate].
  destruct (output st) as [out |]; cbn [deref rbind]; [| discriminate].
  destruct (load (storage w) d) as [A |]; cbn [rbind]; [| discriminate].
  destruct (load (storage inp) d) as [X |]; cbn [rbind]; [| discriminate].
  destruct (load (storage out) d) as [Y |]; cbn [rbind]; [| discriminate].
  destruct (store (storage out) _ d) as [d1 |] eqn:E1; cbn [rbind];
    [| discriminate].
  destruct (biases_ st) as [b |]; cbn [deref rbind]; [| discriminate].
  destruct (load (storage out) d1) as [Y1 |]; cbn [rbind]; [| discriminate].
  destruct (load (storage b) d1) as [B |]; cbn [rbind]; [| discriminate].
  destruct (store (storage out) _ d1) as [d2 |] eqn:E2; cbn [rbind];
    [| discriminate].
  intros [= <- <-].
  pose proof (store_next_buffer _ _ _ _ E1) as Hn1.
  pose proof (store_next_buffer _ _ _ _ E2) as Hn2.
  pose proof (store_dom _ _ _ _ E1) as Hdom1.
  pose proof (store_dom _ _ _ _ E2) as Hdom2.
  split; [reflexivity |]. split; [congruence |]. split; [congruence |].
  intros out' b' [= <-] Hb.
  rewrite (load_store_other _ _ _ _ _ E2) by exact Hb.
  apply (load_store_other _ _ _ _ _ E1). exact Hb.
Qed.

(** X4: a forward call of either build allocates nothing, leaves the
    stage as it was, and writes to no buffer but the one of the output
    tensor: the input, the weights and the biases are read only. *)
Theorem forward_writes_only_output (lim : DeviceLimits) (st : Linear)
  (x : TorchData) (d : Device F) st' d' out :
  forwardProp lim st x d = Ok (st', d') \/
  forwardProp_simple st x d = Ok (st', d') ->
  output st = Some out ->
  st' = st /\ next_buffer d' = next_buffer d /\
  (forall b, b ≠ storage out -> buffers d' !! b = buffers d !! b).
Proof.
  intros Hf Hout.
  assert (Hinv : st' = st /\ next_buffer d' = next_buffer d /\
                 (forall b, b ≠ storage out -> load b d' = load b d)).
  { destruct Hf as [Hf | Hf].
    - apply Linear_forwardProp_inv in Hf as (Hs & Hn & _ & _ & Hl).
      split; [exact Hs |]. split; [exact Hn |].
      intros b Hb. apply (Hl out b Hout Hb).
    - apply forwardProp_simple_inv in Hf as (Hs & Hn & _ & Hl).
      split; [exact Hs |]. split; [exact Hn |].
      intros b Hb. apply (Hl out b Hout Hb). }
  destruct Hinv as (Hs & Hn & Hl).
  split; [exact Hs |]. split; [exact Hn |].
  intros b Hb. specialize (Hl b Hb). unfold load in Hl.
  destruct (buffers d' !! b), (buffers d !! b); congruence.
Qed.


(** X6: the default build overwrites its output, it does not accumulate
    in it: a second forward call on the same input, with the input, the
    weights and the biases in buffers of their own, succeeds and leaves
    the device exactly as the first call left it. *)
Theorem forwardProp_idempotent (lim : DeviceLimits) (st : Linear)
  (inp out w b : Tensor) (d : Device F) st1 d1 (Y : list F) :
  forwardProp lim st (TensorData inp) d = Ok (st1, d1) ->
  output st = Some out -> weights_ st = Some w -> biases_ st = Some b ->
  storage w ≠ storage out -> storage b ≠ storage out ->
  storage inp ≠ storage out ->
  0 <= n_outputs_ st ->
  load (storage out) d = Ok Y -> length Y = Z.to_nat (n_outputs_ st) ->
  forwardProp lim st (TensorData inp) d1 = Ok (st, d1).
Proof.
  intros Hf Hout Hw Hb Hwo Hbo Hio Hn HY Hlen.
  unfold forwardProp in Hf |- *.
  destruct (init st (TensorData inp)) as [inp' |] eqn:Ei;
    cbn [rbind] in Hf |- *; [| discriminate].
  apply Linear_init_checks in Ei as Ei'. destruct Ei' as ([= <-] & _ & _).
  destruct (Partition.work_partition lim (n_outputs_ st)) as [sz |] eqn:Ewp;
    cbn [rbind] in Hf |- *; [| discriminate].
  apply work_partition_inv in Ewp as (r & p & -> & Hr0 & Hp0).
  rewrite Hw, Hout in Hf |- *. cbn [deref rbind] in Hf |- *.
  destruct (load (storage w) d) as [A |] eqn:HA; cbn [rbind] in Hf;
    [| discriminate].
  destruct (load (storage inp) d) as [X |] eqn:HX; cbn [rbind] in Hf;
    [| discriminate].
  rewrite HY in Hf. cbn [rbind] in Hf.
  destruct (launch_legal lim _) eqn:Hlegal; [| discriminate].
  apply launch_legal_inv in Hlegal as (Hr & Hp & Hmod).
  set (M := to_i32 (n_outputs_ st)) in *.
  set (N := to_i32 (n_inputs_ st)) in *.
  set (sz := {| Partition.global_size := (n_outputs_ st, p);
                Partition.local_size := (r, p) |}) in *.
  destruct (store (storage out) (MatVecMultThreads A X Y M N sz) d)
    as [da |] eqn:E1; cbn [rbind] in Hf; [| discriminate].
  rewrite Hb in Hf |- *. cbn [deref rbind] in Hf |- *.
  rewrite (load_store_same _ _ _ _ E1) in Hf. cbn [rbind] in Hf.
  rewrite (load_store_other _ _ _ _ _ E1 Hbo) in Hf.
  destruct (load (storage b) d) as [B |] eqn:HB; cbn [rbind] in Hf;
    [| discriminate].
  set (Ya := MatVecMultThreads A X Y M N sz) in *.
  set (Yb := Accum Ya B (n_outputs_ st)) in *.
  destruct (store (storage out) Yb da) as [db |] eqn:E2;
    cbn [rbind] in Hf; [| discriminate].
  injection Hf as <- <-.
  (* the second call reads what the first one read, but for [Y] *)
  rewrite (load_store_other _ _ _ _ _ E2 Hwo),
    (load_store_other _ _ _ _ _ E1 Hwo), HA. cbn [rbind].
  rewrite (load_store_other _ _ _ _ _ E2 Hio),
    (load_store_other _ _ _ _ _ E1 Hio), HX. cbn [rbind].
  rewrite (load_store_same _ _ _ _ E2). cbn [rbind].
  assert (HYa : length Ya = Z.to_nat (n_outputs_ st)).
  { subst Ya sz. apply length_MatVecMultThreads; try assumption; lia. }
  assert (HYb : length Yb = Z.to_nat (n_outputs_ st)).
  { subst Yb. rewrite length_Accum. exact HYa. }
  replace (MatVecMultThreads A X Yb M N sz) with Ya.
  2: { subst Ya sz.
       apply MatVecMultThreads_overwrites; try assumption; lia. }
  apply store_inv in E1 as [_ ->]. apply store_inv in E2 as [_ ->].
  unfold store, load. cbn [buffers next_buffer].
  rewrite !lookup_insert_eq. cbn [buffers next_buffer rbind].
  rewrite !lookup_insert_eq. cbn [buffers next_buffer rbind].
  rewrite !lookup_insert_ne by congruence.
  unfold load in HB.
  destruct (buffers d !! storage b) as [B' |]; [| discriminate].
  injection HB as ->. cbn [buffers next_buffer rbind].
  fold Yb. rewrite !insert_insert_eq. reflexivity.
Qed.

End LinearForward.

Lemma forward_refuses_other_inputs_witness :
  Linear.forwardProp Examples.limits16 Examples.linear32
    Linear.TableData Examples.linear_device = Err AssertionFailure /\
  Linear.forwardProp_simple Examples.linear32
    Linear.TableData Examples.linear_device = Err AssertionFailure.
Proof.
  apply (forward_refuses_other_inputs Examples.limits16 Examples.linear32
           Linear.TableData Examples.linear_device).
  intros (t & Ht & _). discriminate Ht.
Defined.

Lemma forward_writes_only_output_witness :
  exists d',
    Linear.forwardProp Examples.limits16 Examples.linear32
      (Linear.TensorData Examples.linear_input) Examples.linear_device =
      Ok (Examples.linear32, d') /\
    next_buffer d' = next_buffer Examples.linear_device /\
    (forall b, b ≠ 0%nat ->
               buffers d' !! b = buffers Examples.linear_device !! b).
Proof.
  destruct (Linear.forwardProp Examples.limits16 Examples.linear32
              (Linear.TensorData Examples.linear_input)
              Examples.linear_device) as [[st' d'] |] eqn:E;
    [| vm_compute in E; discriminate].
  destruct (forward_writes_only_output Examples.limits16 Examples.linear32
              (Linear.TensorData Examples.linear_input)
              Examples.linear_device st' d'
              {| Linear.dim := 1; Linear.size := [2]; Linear.storage := 0 |}
              (or_introl E) eq_refl) as (-> & Hn & Hb).
  exists d'. split; [reflexivity |]. split; [exact Hn | exact Hb].
Defined.


Lemma forwardProp_idempotent_witness :
  exists d1,
    Linear.forwardProp Examples.limits16 Examples.linear32
      (Linear.TensorData Examples.linear_input) Examples.linear_device =
      Ok (Examples.linear32, d1) /\
    Linear.forwardProp Examples.limits16 Examples.linear32
      (Linear.TensorData Examples.linear_input) d1 =
      Ok (Examples.linear32, d1).
Proof.
  destruct (Linear.forwardProp Examples.limits16 Examples.linear32
              (Linear.TensorData Examples.linear_input)
              Examples.linear_device) as [[st1 d1] |] eqn:E;
    [| vm_compute in E; discriminate].
  pose proof (forwardProp_idempotent Examples.limits16 Examples.linear32
           Examples.linear_input
           {| Linear.dim := 1; Linear.size := [2]; Linear.storage := 0 |}
           {| Linear.dim := 2; Linear.size := [2; 3]; Linear.storage := 1 |}
           {| Linear.dim := 1; Linear.size := [2]; Linear.storage := 2 |}
           Examples.linear_device st1 d1 [0; 0] E eq_refl eq_refl eq_refl)
    as H2.
  assert (Hst : st1 = Examples.linear32).
  { vm_compute in E. injection E as <- _. reflexivity. }
  exists d1. rewrite <- Hst at 1. split; [reflexivity |].
  apply H2; first [reflexivity | vm_compute; lia | vm_compute; congruence].
Defined.

(** ** When the launch of a partition is legal *)

Import Linear.


(** ** Loading complete files *)

Section LoadRoundTrip.
Context {F : Type} {ops : FloatOps F}.

Lemma floats_take n : forall (bs : list Byte.byte) k,
  (4 * n <= k)%nat ->
  Stream.floats (F := F) n (take k bs) = Stream.floats n bs.
Proof.
  induction n as [| n IH]; intros bs k Hk; cbn [Stream.floats];
    [reflexivity |].
  f_equal.
  - f_equal. unfold Stream.le_u32. rewrite take_take.
    replace (4 `min` k)%nat with 4%nat by lia. reflexivity.
  - rewrite skipn_firstn_comm. apply IH. lia.
Qed.

Lemma le_u32_take (bs : list Byte.byte) k :
  (4 <= k)%nat -> Stream.le_u32 (take k bs) = Stream.le_u32 bs.
Proof.
  intros Hk. unfold Stream.le_u32. rewrite take_take.
  replace (4 `min` k)%nat with 4%nat by lia. reflexivity.
Qed.

Lemma Linear_setData_load (t : Linear.Tensor) host (d d' : Device F) :
  Linear.setData t host d = Ok d' ->
  load (Linear.storage t) d' =
    Ok (take (Z.to_nat (Linear.nelems (Linear.size t))) host) /\
  next_buffer d' = next_buffer d /\
  (forall b, b ≠ Linear.storage t -> load b d' = load b d).
Proof.
  unfold Linear.setData.
  destruct (_ <=? _)%nat; [| discriminate]. intros Hs.
  split; [apply (load_store_same _ _ _ _ Hs) |].
  apply store_keeps in Hs as (Hn & _ & Hl). auto.
Qed.

(** X8: [Linear::loadFromFile] on a file that holds all it declares: the
    stage has the sizes of the header (outputs first), its weight buffer
    holds the [n_outputs * n_inputs] floats that follow the header, in
    file order, its bias buffer the [n_outputs] floats after them, and the
    stream is left in a good state just behind the biases.  Nothing of
    the result depends on what uninitialised memory held. *)
Theorem Linear_loadFromFile_complete junk (bytes : list Byte.byte)
  (d : Device F) :
  let n_outputs := Stream.le_i32 (take 4 bytes) in
  let n_inputs := Stream.le_i32 (take 4 (drop 4 bytes)) in
  let n := Z.to_nat (n_outputs * n_inputs) in
  let m := Z.to_nat n_outputs in
  1 <= n_outputs -> 1 <= n_inputs -> n_outputs * n_inputs < 2 ^ 31 ->
  (8 + 4 * n + 4 * m <= length bytes)%nat ->
  exists st d' f' w b,
    Linear.loadFromFile junk (Stream.open bytes) d = Ok (st, d', f') /\
    Linear.n_outputs_ st = n_outputs /\ Linear.n_inputs_ st = n_inputs /\
    Linear.weights_ st = Some w /\ Linear.biases_ st = Some b /\
    load (Linear.storage w) d' = Ok (Stream.floats n (drop 8 bytes)) /\
    load (Linear.storage b) d' =
      Ok (Stream.floats m (drop (8 + 4 * n) bytes)) /\
    Stream.failbit f' = false /\
    Stream.pos f' = (8 + 4 * n + 4 * m)%nat.
Proof.
  intros n_outputs n_inputs n m Ho Hi Hprod Hlen.
  assert (Ho' : n_outputs < 2 ^ 31) by nia.
  assert (Hi' : n_inputs < 2 ^ 31) by nia.
  unfold Linear.loadFromFile.
  rewrite read_enough;
    [| reflexivity | cbn; lia | apply length_indeterminate].
  cbn [Stream.open Stream.pos Stream.contents drop].
  rewrite read_enough;
    [| reflexivity | cbn; lia | apply length_indeterminate].
  cbn [Stream.pos Stream.contents Nat.add].
  change (drop 0 bytes) with bytes.
  fold n_outputs. fold n_inputs.
  destruct (Linear_new_ok n_inputs n_outputs d) as
    (st & d1 & Hnew & Hni & Hno & Hout & Hw & Hb & Hlw & Hlb);
    [lia | lia |].
  rewrite Hnew. cbn [rbind].
  rewrite to_i32_small by lia.
  destruct (Z.ltb_spec (n_outputs * n_inputs) 0) as [Hneg | _]; [nia |].
  fold n.
  rewrite read_enough;
    [| reflexivity | cbn; lia | apply length_indeterminate].
  cbn [Stream.pos Stream.contents].
  unfold Linear.setWeights. rewrite Hw. cbn [Linear.deref rbind].
  set (tw := {| Linear.dim := 2; Linear.size := [n_outputs; n_inputs];
                Linear.storage := S (next_buffer d) |}) in *.
  set (tb := {| Linear.dim := 1; Linear.size := [n_outputs];
                Linear.storage := S (S (next_buffer d)) |}) in *.
  destruct (Linear_setData_ok tw
              (Stream.floats n (take (4 * n) (drop 8 bytes))) d1)
    as (d2 & Hd2 & Hl2).
  { exact Hlw. }
  { rewrite length_floats. cbn. subst n. lia. }
  rewrite Hd2. cbn [rbind].
  destruct (Z.ltb_spec n_outputs 0) as [Hneg | _]; [lia |].
  fold m.
  rewrite read_enough;
    [| reflexivity | cbn; lia | apply length_indeterminate].
  cbn [Stream.pos Stream.contents].
  unfold Linear.setBiases. rewrite Hb. cbn [Linear.deref rbind].
  destruct (Linear_setData_ok tb
              (Stream.floats m (take (4 * m) (drop (8 + 4 * n) bytes))) d2)
    as (d3 & Hd3 & Hl3).
  { apply Hl2. exact Hlb. }
  { rewrite length_floats. cbn. subst m. lia. }
  rewrite Hd3. cbn [rbind].
  apply Linear_setData_load in Hd2 as (Hw2 & _ & _).
  apply Linear_setData_load in Hd3 as (Hb3 & _ & Ho3).
  eexists st, d3, _, tw, tb. split; [reflexivity |].
  split; [exact Hno |]. split; [exact Hni |].
  split; [exact Hw |]. split; [exact Hb |].
  split; [| split; [| split; [reflexivity | reflexivity]]].
  - rewrite Ho3 by (subst tw tb; cbn; lia). rewrite Hw2.
    rewrite floats_take by lia. f_equal.
    apply take_ge. rewrite length_floats. subst tw n. cbn. lia.
  - rewrite Hb3. rewrite floats_take by lia. f_equal.
    apply take_ge. rewrite length_floats. subst tb m. cbn. lia.
Qed.

Lemma SDN_setData_load (t : SpatialDivisiveNormalization.Tensor) host
  (d d' : Device F) :
  SpatialDivisiveNormalization.setData t host d = Ok d' ->
  load (SpatialDivisiveNormalization.data t) d' =
    Ok (take (Z.to_nat (SpatialDivisiveNormalization.dataSize t)) host) /\
  next_buffer d' = next_buffer d /\
  (forall b, b ≠ SpatialDivisiveNormalization.data t ->
             load b d' = load b d).
Proof.
  unfold SpatialDivisiveNormalization.setData.
  destruct (_ <=? _)%nat; [| discriminate]. intros Hs.
  split; [apply (load_store_same _ _ _ _ Hs) |].
  apply store_keeps in Hs as (Hn & _ & Hl). auto.
Qed.

Lemma SDN_new_inv (K : SpatialDivisiveNormalization.Tensor) (threshold : F)
  (d : Device F) st d' :
  SpatialDivisiveNormalization.new K threshold d = Ok (st, d') ->
  st = {| SpatialDivisiveNormalization.kernel_ :=
            Some {| SpatialDivisiveNormalization.dim :=
                      SpatialDivisiveNormalization.dim K;
                    SpatialDivisiveNormalization.data := next_buffer d |};
          SpatialDivisiveNormalization.kernel_norm_ := None;
          SpatialDivisiveNormalization.output := None;
          SpatialDivisiveNormalization.std_coef_ := None;
          SpatialDivisiveNormalization.std_pass1_ := None;
          SpatialDivisiveNormalization.std_pass2_ := None;
          SpatialDivisiveNormalization.std_ := None;
          SpatialDivisiveNormalization.threshold_ := threshold |} /\
  next_buffer d' = S (next_buffer d) /\
  load (next_buffer d) d' = load (SpatialDivisiveNormalization.data K) d /\
  (forall b, b ≠ next_buffer d -> load b d' = load b d).
Proof.
  unfold SpatialDivisiveNormalization.new.
  destruct (_ || _); [discriminate |].
  destruct (SpatialDivisiveNormalization.clone K d) as [[k d1] |] eqn:Ec;
    cbn [rbind]; [| discriminate].
  intros [= <- <-].
  apply clone_inv in Ec as (l & Hl & -> & Hl' & Hn & Hother).
  split; [reflexivity |]. split; [exact Hn |].
  split; [congruence | exact Hother].
Qed.

Lemma load_release_other b x (d : Device F) :
  b ≠ x -> load b (release x d) = load b d.
Proof.
  intros Hb. unfold load, release. cbn [buffers].
  rewrite lookup_delete_ne by congruence. reflexivity.
Qed.

Lemma release_not_live x (d : Device F) : ~ live x (release x d).
Proof.
  unfold live, release. cbn [buffers]. rewrite lookup_delete_eq.
  intros [l Hl]. discriminate Hl.
Qed.

(** X9: [SpatialDivisiveNormalization::loadFromFile] on a file that holds
    all it declares.  A second size above 1 gives a two-dimensional
    kernel, any other a one-dimensional one.  The stage owns a buffer with
    the kernel floats of the file, in file order, and has the threshold
    that follows them; the tensor the factory built on the way is
    released again, no older buffer is touched, and the stream is left in
    a good state behind the threshold. *)
Theorem SDN_loadFromFile_complete junk (bytes : list Byte.byte)
  (d : Device F) :
  let kernel_size_1 := Stream.le_i32 (take 4 bytes) in
  let kernel_size_2 := Stream.le_i32 (take 4 (drop 4 bytes)) in
  let rows := if 1 <? kernel_size_2 then kernel_size_2 else 1 in
  let n := Z.to_nat (kernel_size_1 * rows) in
  1 <= kernel_size_1 -> Z.odd kernel_size_1 = true -> Z.odd rows = true ->
  (8 + 4 * n + 4 <= length bytes)%nat ->
  exists st d' f',
    SpatialDivisiveNormalization.loadFromFile junk (Stream.open bytes) d =
      Ok (st, d', f') /\
    SpatialDivisiveNormalization.kernel_ st =
      Some {| SpatialDivisiveNormalization.dim := (kernel_size_1, rows, 1);
              SpatialDivisiveNormalization.data := S (next_buffer d) |} /\
    load (S (next_buffer d)) d' = Ok (Stream.floats n (drop 8 bytes)) /\
    SpatialDivisiveNormalization.threshold_ st =
      of_bits (Stream.le_u32 (drop (8 + 4 * n) bytes)) /\
    ~ live (next_buffer d) d' /\
    (forall b, (b < next_buffer d)%nat -> load b d' = load b d) /\
    Stream.failbit f' = false /\
    Stream.pos f' = (8 + 4 * n + 4)%nat.
Proof.
  intros k1 k2 rows n H1 Ho1 Ho2 Hlen.
  assert (Hrows : 1 <= rows).
  { subst rows. destruct (Z.ltb_spec 1 k2); lia. }
  unfold SpatialDivisiveNormalization.loadFromFile.
  rewrite read_enough;
    [| reflexivity | cbn; lia | apply length_indeterminate].
  cbn [Stream.open Stream.pos Stream.contents].
  rewrite read_enough;
    [| reflexivity | cbn; lia | apply length_indeterminate].
  cbn [Stream.pos Stream.contents Nat.add].
  change (drop 0 bytes) with bytes.
  fold k1. fold k2.
  assert (Hk : (if 1 <? k2
                then SpatialDivisiveNormalization.Tensor_new (k1, k2, 1) d
                else SpatialDivisiveNormalization.Tensor_new (k1, 1, 1) d)
               = SpatialDivisiveNormalization.Tensor_new (k1, rows, 1) d).
  { subst rows. destruct (1 <? k2); reflexivity. }
  rewrite Hk. clear Hk.
  rewrite Tensor_new_ok by (cbn; lia).
  cbn [rbind].
  set (kernel := {| SpatialDivisiveNormalization.dim := (k1, rows, 1);
                    SpatialDivisiveNormalization.data := next_buffer d |}).
  set (d1 := (alloc _ d).2).
  assert (Hn : Z.to_nat (SpatialDivisiveNormalization.dataSize kernel) = n).
  { subst n. unfold SpatialDivisiveNormalization.dataSize. cbn.
    f_equal. lia. }
  rewrite Hn.
  rewrite read_enough;
    [| reflexivity | cbn; lia | apply length_indeterminate].
  cbn [Stream.pos Stream.contents].
  destruct (SDN_setData_ok kernel
              (Stream.floats n (take (4 * n) (drop 8 bytes))) d1)
    as (d2 & Hd2 & Hn2 & Hl2).
  { subst d1 kernel. apply live_alloc_fresh. }
  { rewrite length_floats. lia. }
  rewrite Hd2. cbn [rbind].
  rewrite read_enough;
    [| reflexivity | cbn; lia | apply length_indeterminate].
  cbn [Stream.pos Stream.contents].
  rewrite le_u32_take by lia.
  destruct (new_ok kernel (of_bits (Stream.le_u32 (drop (8 + 4 * n) bytes)))
              d2)
    as (st & d3 & Hnew & _); try assumption; try reflexivity.
  { split; [cbn; lia |]. apply Hl2. subst d1 kernel. apply live_alloc_fresh. }
  rewrite Hnew. cbn [rbind].
  apply SDN_new_inv in Hnew as (-> & Hn3 & Hk3 & Ho3).
  apply SDN_setData_load in Hd2 as (Hk2 & _ & Ho2').
  assert (Hnb : next_buffer d2 = S (next_buffer d)).
  { rewrite Hn2. subst d1. apply next_buffer_alloc. }
  eexists _, _, _. split; [reflexivity |].
  cbn [SpatialDivisiveNormalization.kernel_
         SpatialDivisiveNormalization.threshold_
         SpatialDivisiveNormalization.dim
         SpatialDivisiveNormalization.data kernel].
  rewrite Hnb in *.
  split; [reflexivity |].
  split; [| split; [reflexivity |]].
  - rewrite load_release_other by lia.
    rewrite Hk3, Hk2, Hn. rewrite floats_take by lia. f_equal.
    apply take_ge. rewrite length_floats. lia.
  - split; [apply release_not_live |].
    split; [| split; reflexivity].
    intros b Hb.
    rewrite load_release_other by lia.
    rewrite Ho3 by lia.
    rewrite Ho2' by (cbn; lia).
    subst d1. apply load_alloc_other. lia.
Qed.

(** X10: which headers [SpatialDivisiveNormalization::loadFromFile]
    accepts.  It yields a stage exactly when the first size is positive
    and odd and the second is odd or at most 1; a first size of 0 or less
    is refused by the tensor constructor, an even size by the stage
    constructor, whatever else the file holds. *)
Theorem SDN_loadFromFile_outcome junk (bytes : list Byte.byte)
  (d : Device F) :
  let kernel_size_1 := Stream.le_i32 (take 4 bytes) in
  let kernel_size_2 := Stream.le_i32 (take 4 (drop 4 bytes)) in
  let rows := if 1 <? kernel_size_2 then kernel_size_2 else 1 in
  (8 <= length bytes)%nat ->
  match
    SpatialDivisiveNormalization.loadFromFile junk (Stream.open bytes) d
  with
  | Ok _ =>
      1 <= kernel_size_1 /\ Z.odd kernel_size_1 = true /\
      Z.odd rows = true
  | Err e =>
      (kernel_size_1 <= 0 /\ e = InvalidShapeError) \/
      (1 <= kernel_size_1 /\
       (Z.even kernel_size_1 = true \/ Z.even rows = true) /\
       e = InvalidKernelShapeError)
  end.
Proof.
  intros k1 k2 rows Hlen.
  assert (Hrows : 1 <= rows).
  { subst rows. destruct (Z.ltb_spec 1 k2); lia. }
  unfold SpatialDivisiveNormalization.loadFromFile.
  rewrite read_enough;
    [| reflexivity | cbn; lia | apply length_indeterminate].
  cbn [Stream.open Stream.pos Stream.contents].
  rewrite read_enough;
    [| reflexivity | cbn; lia | apply length_indeterminate].
  cbn [Stream.pos Stream.contents Nat.add].
  change (drop 0 bytes) with bytes.
  fold k1. fold k2.
  assert (Hk : (if 1 <? k2
                then SpatialDivisiveNormalization.Tensor_new (k1, k2, 1) d
                else SpatialDivisiveNormalization.Tensor_new (k1, 1, 1) d)
               = SpatialDivisiveNormalization.Tensor_new (k1, rows, 1) d).
  { subst rows. destruct (1 <? k2); reflexivity. }
  rewrite Hk. clear Hk.
  destruct (Z_le_gt_dec k1 0) as [Hneg | Hpos].
  - unfold SpatialDivisiveNormalization.Tensor_new.
    cbn [SpatialDivisiveNormalization.ix].
    destruct (Z.ltb_spec 0 k1) as [Hlt | _]; [lia |].
    cbn. left. split; [exact Hneg | reflexivity].
  - rewrite Tensor_new_ok by (cbn; lia).
    cbn [rbind].
    set (kernel := {| SpatialDivisiveNormalization.dim := (k1, rows, 1);
                      SpatialDivisiveNormalization.data := next_buffer d |}).
    set (d1 := (alloc _ d).2).
    set (n := Z.to_nat (SpatialDivisiveNormalization.dataSize kernel)).
    destruct (Stream.read (4 * n) _ _) as [kernel_cpu f3].
    destruct (SDN_setData_ok kernel (Stream.floats n kernel_cpu) d1)
      as (d2 & Hd2 & Hn2 & Hl2).
    { subst d1 kernel. apply live_alloc_fresh. }
    { rewrite length_floats. subst n. lia. }
    rewrite Hd2. cbn [rbind].
    destruct (Stream.read 4 _ f3) as [bs f4].
    destruct (Z.odd k1) eqn:Eo1; [destruct (Z.odd rows) eqn:Eo2 |].
    + destruct (new_ok kernel (of_bits (Stream.le_u32 bs)) d2)
        as (st & d3 & Hnew & _); try assumption; try reflexivity.
      { split; [cbn; lia |]. apply Hl2. subst d1 kernel.
        apply live_alloc_fresh. }
      rewrite Hnew. cbn [rbind]. repeat split; lia.
    + assert (He : Z.even rows = true)
        by (rewrite <- Z.negb_odd, Eo2; reflexivity).
      unfold SpatialDivisiveNormalization.new.
      cbn [SpatialDivisiveNormalization.dim kernel
             SpatialDivisiveNormalization.ix].
      apply rem2_even in He. rewrite He. cbn [Z.eqb].
      rewrite orb_true_r. cbn.
      right. split; [lia |]. split; [| reflexivity].
      right. apply rem2_even. exact He.
    + assert (He : Z.even k1 = true)
        by (rewrite <- Z.negb_odd, Eo1; reflexivity).
      unfold SpatialDivisiveNormalization.new.
      cbn [SpatialDivisiveNormalization.dim kernel
             SpatialDivisiveNormalization.ix].
      apply rem2_even in He. rewrite He. cbn.
      right. split; [lia |]. split; [| reflexivity].
      left. apply rem2_even. exact He.
Qed.

End LoadRoundTrip.

Lemma Linear_loadFromFile_complete_witness :
  exists st d' f' w b,
    Linear.loadFromFile Examples.zero_junk
      (Stream.open Examples.linear_file) (empty_device (F := Z)) =
      Ok (st, d', f') /\
    Linear.n_outputs_ st = 1 /\ Linear.n_inputs_ st = 2 /\
    Linear.weights_ st = Some w /\ Linear.biases_ st = Some b /\
    load (Linear.storage w) d' = Ok [3; 4] /\
    load (Linear.storage b) d' = Ok [5] /\
    Stream.failbit f' = false /\
    Stream.pos f' = 20%nat.
Proof.
  exact (Linear_loadFromFile_complete Examples.zero_junk
           Examples.linear_file (empty_device (F := Z))
           ltac:(vm_compute; intuition congruence)
           ltac:(vm_compute; intuition congruence)
           ltac:(vm_compute; reflexivity)
           ltac:(vm_compute; lia)).
Defined.

Lemma SDN_loadFromFile_complete_witness :
  exists st d' f',
    SpatialDivisiveNormalization.loadFromFile Examples.zero_junk
      (Stream.open Examples.sdn_file) (empty_device (F := Z)) =
      Ok (st, d', f') /\
    SpatialDivisiveNormalization.kernel_ st =
      Some {| SpatialDivisiveNormalization.dim := (3, 1, 1);
              SpatialDivisiveNormalization.data := 1 |} /\
    load 1%nat d' = Ok [1; 2; 1] /\
    SpatialDivisiveNormalization.threshold_ st = 7 /\
    ~ live 0%nat d' /\
    (forall b, (b < 0)%nat -> load b d' = load b (empty_device (F := Z))) /\
    Stream.failbit f' = false /\
    Stream.pos f' = 24%nat.
Proof.
  exact (SDN_loadFromFile_complete Examples.zero_junk Examples.sdn_file
           (empty_device (F := Z))
           ltac:(vm_compute; intuition congruence)
           ltac:(vm_compute; reflexivity)
           ltac:(vm_compute; reflexivity)
           ltac:(vm_compute; lia)).
Defined.

Lemma SDN_loadFromFile_outcome_witness :
  SpatialDivisiveNormalization.loadFromFile Examples.zero_junk
    (Stream.open Examples.sdn_even_header) (empty_device (F := Z)) =
    Err InvalidKernelShapeError /\
  exists st d' f',
    SpatialDivisiveNormalization.loadFromFile Examples.zero_junk
      (Stream.open Examples.sdn_file) (empty_device (F := Z)) =
      Ok (st, d', f').
Proof.
  split.
  - pose proof (SDN_loadFromFile_outcome Examples.zero_junk
                  Examples.sdn_even_header (empty_device (F := Z))) as H.
    cbv zeta in H.
    destruct (SpatialDivisiveNormalization.loadFromFile Examples.zero_junk
                (Stream.open Examples.sdn_even_header) empty_device)
      as [r | e].
    + exfalso. destruct H as (_ & Hodd & _); [vm_compute; lia |].
      vm_compute in Hodd. discriminate Hodd.
    + destruct H as [(Hneg & _) | (_ & _ & ->)]; [vm_compute; lia | |].
      * exfalso. vm_compute in Hneg. apply Hneg. reflexivity.
      * reflexivity.
  - destruct (SpatialDivisiveNormalization.loadFromFile Examples.zero_junk
                (Stream.open Examples.sdn_file) empty_device)
      as [[[st d'] f'] | e] eqn:E; [eauto |].
    vm_compute in E. discriminate E.
Defined.

(** ** The normalization stage from its first forward call to its end *)

Import SpatialDivisiveNormalization.

Section SDNLifetime.
Context {F : Type} {ops : FloatOps F}.
Variable device_kernel :
  entry -> list (list F) -> list Z -> list F -> Int3 -> list F.

Lemma bind_singleton_fmap {A B} (g : A -> B) (l : list A) :
  (x ← l; [g x]) = g <$> l.
Proof.
  induction l as [| a l IH]; [reflexivity |].
  cbn [mbind list_bind fmap list_fmap] in *. rewrite IH. reflexivity.
Qed.

Lemma length_bind_const {A B} (l : list A) (f : A -> list B) n :
  (forall x, length (f x) = n) -> length (l ≫= f) = (length l * n)%nat.
Proof.
  intros Hf. induction l as [| a l IH]; [reflexivity |].
  cbn [mbind list_bind length] in *. rewrite length_app, Hf, IH. lia.
Qed.

Lemma length_std_coef_cpu onedim kd (kn : list F) (out_dim : Int3) :
  0 <= ix out_dim 0 -> 0 <= ix out_dim 1 ->
  length (std_coef_cpu onedim kd kn out_dim) =
  Z.to_nat (ix out_dim 0 * ix out_dim 1).
Proof.
  intros Hw Hh. unfold std_coef_cpu.
  rewrite (length_bind_const _ _ (Z.to_nat (ix out_dim 0))).
  - rewrite length_seqZ, Z2Nat.inj_mul by lia. lia.
  - intros v. rewrite (length_bind_const _ _ 1%nat).
    + rewrite length_seqZ. lia.
    + intros u. reflexivity.
Qed.

Lemma live_fresh_step (d d' : Device F) x l :
  load x d' = Ok l ->
  (forall b, b ≠ x -> load b d' = load b d) ->
  forall b, live b d' <-> b = x \/ live b d.
Proof.
  intros Hx Ho b. unfold live.
  destruct (decide (b = x)) as [-> | Hne].
  - apply load_live in Hx. rewrite Hx. split; eauto.
  - specialize (Ho b Hne). unfold load in Ho.
    destruct (buffers d' !! b), (buffers d !! b); try discriminate.
    + split; eauto.
    + split; [intros [? ?]; discriminate | intros [? | [? ?]];
                [contradiction | discriminate]].
Qed.

Lemma Tensor_new_fresh dims (d : Device F) :
  0 < ix dims 0 -> 0 < ix dims 1 -> 0 < ix dims 2 ->
  exists d',
    Tensor_new dims d = Ok ({| dim := dims; data := next_buffer d |}, d') /\
    next_buffer d' = S (next_buffer d) /\
    load (next_buffer d) d' =
      Ok (replicate (Z.to_nat (ix dims 0 * ix dims 1 * ix dims 2)) fzero) /\
    (forall b, b ≠ next_buffer d -> load b d' = load b d).
Proof.
  intros H0 H1 H2. rewrite Tensor_new_ok by assumption.
  eexists. split; [reflexivity |].
  split; [apply next_buffer_alloc |].
  split; [apply load_alloc_fresh |].
  intros b Hb. apply load_alloc_other. exact Hb.
Qed.

Lemma normalize_kernel_ok (k : Tensor) (in_dim : Int3) (d : Device F) l :
  0 < ix (dim k) 0 -> 0 < ix (dim k) 1 -> 0 < ix (dim k) 2 ->
  load (data k) d = Ok l ->
  exists d',
    normalize_kernel k in_dim d =
      Ok ({| dim := dim k; data := next_buffer d |}, d') /\
    next_buffer d' = S (next_buffer d) /\
    load (next_buffer d) d' =
      Ok (normalized_kernel (ix (dim k) 1 =? 1) (ix in_dim 2) l) /\
    (forall b, b ≠ next_buffer d -> load b d' = load b d).
Proof.
  intros H0 H1 H2 Hl. unfold normalize_kernel.
  destruct (clone_ok k d l (conj H0 (conj H1 H2)) Hl)
    as (d1 & Hc & Hl1 & Hn1 & Ho1).
  rewrite Hc. cbn [rbind]. unfold slowSum, div, getData. cbn [data].
  rewrite Hl1. cbn [rbind].
  match goal with
  | |- context [store (next_buffer d) ?x d1] =>
      destruct (store_live (next_buffer d) x d1) as [d2 Hs]
  end.
  { apply load_live in Hl1. rewrite Hl1. eauto. }
  rewrite Hs. cbn [rbind]. exists d2. split; [reflexivity |].
  apply store_keeps in Hs as Hk. destruct Hk as (Hn2 & _ & Ho2).
  split; [congruence |].
  split; [apply (load_store_same _ _ _ _ Hs) |].
  intros b Hb. rewrite Ho2 by exact Hb. apply Ho1. exact Hb.
Qed.

(** What [init] makes of a stage fresh from its constructor. *)
Lemma init_first_ok (st : stage) (k inp : Tensor) (d : Device F)
  (l : list F) :
  constructed st k ->
  0 < ix (dim inp) 0 -> 0 < ix (dim inp) 1 -> 0 < ix (dim inp) 2 ->
  0 < ix (dim k) 0 -> 0 < ix (dim k) 1 -> 0 < ix (dim k) 2 ->
  load (data k) d = Ok l -> (data k < next_buffer d)%nat ->
  let nb := next_buffer d in
  let flat := (ix (dim inp) 0, ix (dim inp) 1, 1) in
  let onedim := ix (dim k) 1 =? 1 in
  let kn := normalized_kernel onedim (ix (dim inp) 2) l in
  exists d',
    init st (TensorData inp) d =
      Ok ({| kernel_ := Some k;
             kernel_norm_ := Some {| dim := dim k; data := 3 + nb |};
             output := Some {| dim := dim inp; data := nb |};
             std_coef_ := Some {| dim := flat; data := 4 + nb |};
             std_pass1_ := Some {| dim := dim inp; data := 1 + nb |};
             std_pass2_ := Some {| dim := dim inp; data := 2 + nb |};
             std_ := Some {| dim := flat; data := 5 + nb |};
             threshold_ := threshold_ st |}, d') /\
    next_buffer d' = (6 + nb)%nat /\
    (forall b, live b d' <-> (nb <= b < 6 + nb)%nat \/ live b d) /\
    load (3 + nb)%nat d' = Ok kn /\
    load (4 + nb)%nat d' = Ok (std_coef_cpu onedim (dim k) kn (dim inp)) /\
    (forall b, (b < nb)%nat -> load b d' = load b d).
Proof.
  intros (Hk & Hkn & Hout & Hsc & Hp1 & Hp2 & Hsd)
    Hi0 Hi1 Hi2 Hk0 Hk1 Hk2 Hl Hlt nb flat onedim kn.
  unfold init, on_shape_change. rewrite Hout.
  unfold ensure_output. rewrite Hout.
  destruct (Tensor_new_fresh (dim inp) d Hi0 Hi1 Hi2)
    as (d1 & E1 & N1 & L1 & O1).
  rewrite E1. cbn [rbind].
  destruct (Tensor_new_fresh (dim inp) d1 Hi0 Hi1 Hi2)
    as (d2 & E2 & N2 & L2 & O2).
  rewrite E2. cbn [rbind].
  destruct (Tensor_new_fresh (dim inp) d2 Hi0 Hi1 Hi2)
    as (d3 & E3 & N3 & L3 & O3).
  rewrite E3. cbn [rbind].
  fold nb in N1, L1, O1, E1. rewrite N1 in N2, L2, O2 |- *.
  rewrite N2 in N3, L3, O3 |- *.
  (* the normalized kernel *)
  unfold ensure_kernel_norm. cbn [kernel_norm_ kernel_].
  rewrite Hkn, Hk. cbn [deref rbind].
  assert (Hl3 : load (data k) d3 = Ok l).
  { rewrite O3, O2, O1 by lia. exact Hl. }
  destruct (normalize_kernel_ok k (dim inp) d3 l Hk0 Hk1 Hk2 Hl3)
    as (d4 & E4 & N4 & L4 & O4).
  rewrite N3 in E4, N4, L4, O4.
  rewrite E4. cbn [rbind].
  (* the coefficients *)
  unfold ensure_std_coef.
  cbn [std_coef_ output kernel_norm_ kernel_ deref rbind dim].
  rewrite ?Hsc. cbn [deref rbind].
  destruct (Tensor_new_fresh flat d4) as (d5 & E5 & N5 & L5 & O5);
    [assumption | assumption | cbn; lia |].
  rewrite N4 in E5, N5, L5, O5.
  fold flat. rewrite E5. cbn [rbind].
  rewrite ?Hk. cbn [deref rbind].
  unfold getData. cbn [data]. rewrite O5 by lia.
  rewrite L4. cbn [rbind].
  fold onedim. fold kn.
  unfold setData. cbn [data].
  assert (Hlen : (Z.to_nat (dataSize {| dim := flat;
                                        data := S (S (S (S nb))) |})
                  <=? length (std_coef_cpu onedim (dim k) kn (dim inp)))%nat
                 = true).
  { apply Nat.leb_le. rewrite length_std_coef_cpu by lia.
    unfold dataSize, flat. cbn [dim ix]. lia. }
  rewrite Hlen.
  match goal with
  | |- context [store ?b ?x d5] =>
      destruct (store_live b x d5) as [d6 E6]
  end.
  { apply load_live in L5. rewrite L5. eauto. }
  rewrite E6. cbn [rbind].
  apply store_keeps in E6 as K6. destruct K6 as (N6 & _ & O6).
  pose proof (load_store_same _ _ _ _ E6) as L6.
  rewrite N5 in N6.
  (* the standard deviation *)
  unfold ensure_std. cbn [std_ output deref rbind dim].
  rewrite ?Hsd. cbn [deref rbind].
  destruct (Tensor_new_fresh flat d6) as (d7 & E7 & N7 & L7 & O7);
    [assumption | assumption | cbn; lia |].
  rewrite N6 in E7, N7, L7, O7.
  fold flat. rewrite E7. cbn [rbind].
  exists d7. split; [reflexivity |].
  split; [exact N7 |].
  split.
  - intros b.
    rewrite (live_fresh_step d6 d7 _ _ L7 O7).
    rewrite (live_fresh_step d4 d6 (4 + nb)%nat _ L6).
    2: { intros b' Hb. rewrite O6 by exact Hb. apply O5. exact Hb. }
    rewrite (live_fresh_step d3 d4 _ _ L4 O4).
    rewrite (live_fresh_step d2 d3 _ _ L3 O3).
    rewrite (live_fresh_step d1 d2 _ _ L2 O2).
    rewrite (live_fresh_step d d1 _ _ L1 O1).
    intuition lia.
  - split.
    { rewrite O7, O6, O5 by lia. exact L4. }
    split.
    { rewrite O7 by lia. refine (eq_trans L6 _). f_equal. apply take_ge.
      rewrite length_std_coef_cpu by lia.
      unfold dataSize, flat. cbn [dim ix]. lia. }
    intros b Hb.
    rewrite O7, O6, O5, O4, O3, O2, O1 by lia. reflexivity.
Qed.

Lemma live_load b (d d' : Device F) :
  load b d' = load b d -> live b d' <-> live b d.
Proof.
  unfold load, live. intros H.
  destruct (buffers d' !! b), (buffers d !! b); try discriminate;
    split; intros [? ?]; eauto; discriminate.
Qed.

Lemma live_same_dom b (d d' : Device F) :
  dom (buffers d') = dom (buffers d) -> live b d' <-> live b d.
Proof.
  intros Hd. unfold live. rewrite <- !elem_of_dom, Hd. reflexivity.
Qed.

(** X11: the first forward call on a stage fresh from its constructor
    succeeds on every live input with positive extents.  It allocates six
    tensors next to the kernel: the output and the two pass tensors with
    the input's shape, the normalized kernel with the kernel's shape, and
    the coefficient and deviation tensors with the input's width and
    height and depth 1.  The coefficient tensor holds [std_coef_cpu] of
    the normalized kernel, and no buffer that was live before is
    written. *)
Theorem first_forward_succeeds (st : stage) (k inp : Tensor)
  (d : Device F) (l : list F) :
  constructed st k ->
  0 < ix (dim inp) 0 -> 0 < ix (dim inp) 1 -> 0 < ix (dim inp) 2 ->
  0 < ix (dim k) 0 -> 0 < ix (dim k) 1 -> 0 < ix (dim k) 2 ->
  load (data k) d = Ok l -> (data k < next_buffer d)%nat ->
  live (data inp) d -> (data inp < next_buffer d)%nat ->
  let nb := next_buffer d in
  let flat := (ix (dim inp) 0, ix (dim inp) 1, 1) in
  let onedim := ix (dim k) 1 =? 1 in
  let kn := normalized_kernel onedim (ix (dim inp) 2) l in
  exists d',
    forwardProp device_kernel st (TensorData inp) d =
      Ok ({| kernel_ := Some k;
             kernel_norm_ := Some {| dim := dim k; data := 3 + nb |};
             output := Some {| dim := dim inp; data := nb |};
             std_coef_ := Some {| dim := flat; data := 4 + nb |};
             std_pass1_ := Some {| dim := dim inp; data := 1 + nb |};
             std_pass2_ := Some {| dim := dim inp; data := 2 + nb |};
             std_ := Some {| dim := flat; data := 5 + nb |};
             threshold_ := threshold_ st |}, d') /\
    next_buffer d' = (6 + nb)%nat /\
    (forall b, live b d' <-> (nb <= b < 6 + nb)%nat \/ live b d) /\
    load (3 + nb)%nat d' = Ok kn /\
    load (4 + nb)%nat d' = Ok (std_coef_cpu onedim (dim k) kn (dim inp)) /\
    (forall b, (b < nb)%nat -> load b d' = load b d).
Proof.
  intros Hc Hi0 Hi1 Hi2 Hk0 Hk1 Hk2 Hl Hlt Hlive Hilt nb flat onedim kn.
  destruct (init_first_ok st k inp d l Hc Hi0 Hi1 Hi2 Hk0 Hk1 Hk2 Hl Hlt)
    as (d1 & Hinit & Hn1 & Hlive1 & Hkn1 & Hsc1 & Hold1).
  fold nb flat onedim kn in Hinit, Hn1, Hlive1, Hkn1, Hsc1, Hold1.
  rewrite forwardProp_plan, Hinit. cbn [rbind].
  set (st1 := {| kernel_ := Some k; kernel_norm_ := _; output := _;
                 std_coef_ := _; std_pass1_ := _; std_pass2_ := _;
                 std_ := _; threshold_ := _ |}).
  destruct (launch_plan st1 inp) as [plan |] eqn:Hplan;
    [| cbn in Hplan; discriminate].
  cbn [rbind].
  assert (Hin : live (data inp) d1).
  { apply Hlive1. right. exact Hlive. }
  assert (Hown : forall i, (i < 6)%nat -> live (i + nb)%nat d1).
  { intros i Hi. apply Hlive1. left. lia. }
  destruct (launch_plan_targets st1 inp plan Hplan)
    as (out & p1 & p2 & sd & Ho & Hp1 & Hp2 & Hsd & Htargets).
  cbn in Ho, Hp1, Hp2, Hsd.
  injection Ho as <-. injection Hp1 as <-. injection Hp2 as <-.
  injection Hsd as <-.
  destruct (run_plan_ok device_kernel plan d1) as [d2 Hrun].
  { unfold launch_plan in Hplan. cbn in Hplan. injection Hplan as <-.
    pose proof (Hown 0%nat ltac:(lia)) as H0.
    pose proof (Hown 1%nat ltac:(lia)) as H1.
    pose proof (Hown 2%nat ltac:(lia)) as H2.
    pose proof (Hown 3%nat ltac:(lia)) as H3.
    pose proof (Hown 4%nat ltac:(lia)) as H4.
    pose proof (Hown 5%nat ltac:(lia)) as H5.
    destruct (ix (dim k) 1 =? 1); cbn; repeat constructor; assumption. }
  rewrite Hrun. cbn [rbind].
  apply run_plan_keeps in Hrun as (Hn2 & Hdom2 & Hkeep2 & _).
  assert (Hframe : forall b, b ≠ nb -> b ≠ (1 + nb)%nat ->
                     b ≠ (2 + nb)%nat -> b ≠ (5 + nb)%nat ->
                     load b d2 = load b d1).
  { intros b Hb0 Hb1 Hb2 Hb5. apply Hkeep2.
    eapply Forall_impl; [exact Htargets |].
    intros lch [-> | [-> | [-> | ->]]]; cbn [data]; lia. }
  exists d2. split; [reflexivity |].
  split; [congruence |].
  split.
  { intros b. rewrite (live_same_dom b d1 d2 Hdom2). apply Hlive1. }
  split; [rewrite Hframe by lia; exact Hkn1 |].
  split; [rewrite Hframe by lia; exact Hsc1 |].
  intros b Hb. rewrite Hframe by lia. apply Hold1. exact Hb.
Qed.

Lemma forward_allocated_keeps (st : stage) (shape : Int3) x (d : Device F)
  st' d' :
  allocated st shape ->
  forwardProp device_kernel st x d = Ok (st', d') ->
  st' = st /\ next_buffer d' = next_buffer d /\
  dom (buffers d') = dom (buffers d).
Proof.
  intros Ha Hf. destruct x as [inp |].
  2: { unfold forwardProp, init in Hf. cbn in Hf. discriminate. }
  apply forwardProp_inv in Hf
    as (d1 & plan & _ & _ & _ & _ & Hi & _ & _ & _ & _ & _ & _ & Hn & Hd & _).
  assert (Hi' := Hi). apply init_inv in Hi' as (_ & _ & _ & Hsame).
  destruct Ha as ((out & Hout & Hdim) & Hkn & Hsc & Hsd).
  destruct (Hsame out Hout) as (Hshape & _).
  rewrite (init_noop st inp d) in Hi.
  2: { split; [exists out; split; [exact Hout | exact Hshape] |].
       auto. }
  injection Hi as <- <-. auto.
Qed.

Lemma forward_all_allocated_keeps (shape : Int3) (inputs : list TorchData) :
  forall (st : stage) (d : Device F) st' d',
  allocated st shape ->
  forward_all device_kernel st inputs d = Ok (st', d') ->
  st' = st /\ next_buffer d' = next_buffer d /\
  dom (buffers d') = dom (buffers d).
Proof.
  induction inputs as [| x xs IH]; intros st d st' d' Ha Hf;
    cbn [forward_all] in Hf.
  - injection Hf as <- <-. auto.
  - destruct (forwardProp device_kernel st x d) as [[s1 d1] |] eqn:E1;
      cbn [rbind] in Hf; [| discriminate].
    apply (forward_allocated_keeps st shape) in E1 as (-> & Hn1 & Hd1);
      [| exact Ha].
    apply IH in Hf as (-> & Hn & Hd); [| exact Ha].
    split; [reflexivity |]. split; congruence.
Qed.

Lemma live_release b x (d : Device F) :
  live b (release x d) <-> b ≠ x /\ live b d.
Proof.
  unfold live, release. cbn [buffers].
  destruct (decide (b = x)) as [-> | Hne].
  - rewrite lookup_delete_eq. split; [intros [? ?]; discriminate | tauto].
  - rewrite lookup_delete_ne by congruence. tauto.
Qed.

(** X12: a stage that is constructed, used for any number of successful
    forward calls and deleted leaves the device with exactly the buffers
    that were live before it was constructed: the destructor releases
    every tensor the stage has allocated, and nothing else. *)
Theorem stage_lifetime_releases_all (K : Tensor) (threshold : F)
  (inputs : list TorchData) (d0 d1 d : Device F) (st0 st : stage) :
  (forall b, live b d0 -> (b < next_buffer d0)%nat) ->
  new K threshold d0 = Ok (st0, d1) ->
  forward_all device_kernel st0 inputs d1 = Ok (st, d) ->
  forall b, live b (destroy st d) <-> live b d0.
Proof.
  intros Hwf Hnew Hf.
  assert (Hclone : exists l, load (data K) d0 = Ok l /\
            0 < ix (dim K) 0 /\ 0 < ix (dim K) 1 /\ 0 < ix (dim K) 2).
  { unfold new in Hnew. destruct (_ || _); [discriminate |].
    destruct (clone K d0) as [[k' dk'] |] eqn:Ec; [| discriminate].
    unfold clone, getData in Ec.
    destruct (load (data K) d0) as [l |]; cbn [rbind] in Ec;
      [| discriminate].
    destruct (Tensor_new (dim K) d0) as [[t dt] |] eqn:Et;
      cbn [rbind] in Ec; [| discriminate].
    apply Tensor_new_inv in Et as (Hpos & _). eauto. }
  destruct Hclone as (l & HlK & HK0 & HK1 & HK2).
  apply SDN_new_inv in Hnew as (-> & Hn1 & Hk1 & Ho1).
  set (nb0 := next_buffer d0) in *.
  rewrite HlK in Hk1.
  assert (Hlive1 : forall b, live b d1 <-> b = nb0 \/ live b d0)
    by (apply (live_fresh_step d0 d1 nb0 l Hk1 Ho1)).
  set (k := {| dim := dim K; data := nb0 |}) in *.
  destruct inputs as [| x xs]; cbn [forward_all] in Hf.
  - injection Hf as <- <-.
    cbn [destroy SAFE_DELETE output kernel_ kernel_norm_ std_coef_
           std_pass1_ std_pass2_ std_ data k].
    intros b. rewrite live_release, Hlive1.
    split; [intros [Hne [-> | Hb]]; [contradiction | exact Hb] |].
    intros Hb. specialize (Hwf b Hb). split; [lia | auto].
  - destruct (forwardProp device_kernel _ x d1) as [[s1 d2] |] eqn:E1;
      cbn [rbind] in Hf; [| discriminate].
    destruct x as [inp |].
    2: { unfold forwardProp, init in E1. cbn in E1. discriminate. }
    (* the input has positive extents and a live buffer *)
    assert (Hinp : (0 < ix (dim inp) 0 /\ 0 < ix (dim inp) 1 /\
                    0 < ix (dim inp) 2)).
    { apply forwardProp_inv in E1 as (dx & _ & _ & _ & _ & _ & Hi & _).
      unfold init, on_shape_change in Hi. cbn [output] in Hi.
      destruct (ensure_output _ inp d1) as [[sa da] |] eqn:Ea;
        cbn [rbind] in Hi; [| discriminate].
      apply ensure_output_inv in Ea as (_ & _ & _ & _ & _ & Hcase).
      destruct Hcase as [([o Ho] & _) | (_ & Hpos & _)];
        [cbn in Ho; discriminate | exact Hpos]. }
    destruct Hinp as (Hi0 & Hi1 & Hi2).
    match type of E1 with
    | forwardProp _ ?s0 _ _ = _ =>
        destruct (init_first_ok s0 k inp d1 l
                    ltac:(repeat split) Hi0 Hi1 Hi2 HK0 HK1 HK2 Hk1)
          as (dx & Hinit & Hnx & Hlivex & _); [cbn [data k]; lia |]
    end.
    apply forwardProp_inv in E1
      as (dx' & _ & _ & _ & _ & _ & Hi & _ & _ & _ & _ & _ & _ & Hn2 & Hd2 & _).
    rewrite Hinit in Hi. injection Hi as <- <-.
    cbn [threshold_] in Hf.
    match type of Hf with
    | forward_all _ ?s1 _ _ = _ =>
        apply (forward_all_allocated_keeps (dim inp) xs s1 d2) in Hf
          as (-> & Hn3 & Hd3)
    end.
    2: { split; [eexists; split; [reflexivity | reflexivity] |].
         cbn. eauto. }
    cbn [destroy SAFE_DELETE output kernel_ kernel_norm_ std_coef_
           std_pass1_ std_pass2_ std_ data k].
    intros b. rewrite !live_release.
    rewrite (live_same_dom b d2 d Hd3), (live_same_dom b dx d2 Hd2).
    rewrite Hlivex, Hlive1. rewrite Hn1.
    split.
    + intros (H1 & H2 & H3 & H4 & H5 & H6 & H7 & [Hr | [-> | Hb]]);
        [lia | lia | exact Hb].
    + intros Hb. specialize (Hwf b Hb). fold nb0 in Hwf.
      repeat split; try lia. right. right. exact Hb.
Qed.

End SDNLifetime.

Lemma first_forward_succeeds_witness :
  exists st0 d0 d',
    SpatialDivisiveNormalization.new Examples.kernel3 1 Examples.device0 =
      Ok (st0, d0) /\
    SpatialDivisiveNormalization.forwardProp Examples.idle_kernel st0
      (SpatialDivisiveNormalization.TensorData Examples.input_a) d0 =
      Ok ({| SpatialDivisiveNormalization.kernel_ :=
               Some {| SpatialDivisiveNormalization.dim := (3, 1, 1);
                       SpatialDivisiveNormalization.data := 4 |};
             SpatialDivisiveNormalization.kernel_norm_ :=
               Some {| SpatialDivisiveNormalization.dim := (3, 1, 1);
                       SpatialDivisiveNormalization.data := 8 |};
             SpatialDivisiveNormalization.output :=
               Some {| SpatialDivisiveNormalization.dim := (2, 2, 4);
                       SpatialDivisiveNormalization.data := 5 |};
             SpatialDivisiveNormalization.std_coef_ :=
               Some {| SpatialDivisiveNormalization.dim := (2, 2, 1);
                       SpatialDivisiveNormalization.data := 9 |};
             SpatialDivisiveNormalization.std_pass1_ :=
               Some {| SpatialDivisiveNormalization.dim := (2, 2, 4);
                       SpatialDivisiveNormalization.data := 6 |};
             SpatialDivisiveNormalization.std_pass2_ :=
               Some {| SpatialDivisiveNormalization.dim := (2, 2, 4);
                       SpatialDivisiveNormalization.data := 7 |};
             SpatialDivisiveNormalization.std_ :=
               Some {| SpatialDivisiveNormalization.dim := (2, 2, 1);
                       SpatialDivisiveNormalization.data := 10 |};
             SpatialDivisiveNormalization.threshold_ := 1 |}, d') /\
    next_buffer d' = 11%nat /\
    load 9%nat d' =
      Ok (SpatialDivisiveNormalization.std_coef_cpu true (3, 1, 1)
            (SpatialDivisiveNormalization.normalized_kernel true 4 [1; 2; 1])
            (2, 2, 4)).
Proof.
  destruct (SpatialDivisiveNormalization.new Examples.kernel3 1
              Examples.device0) as [[st0 d0] |] eqn:E0;
    [| vm_compute in E0; discriminate].
  destruct (new_constructed _ _ _ _ _ E0) as (Hc & Hn & Hl).
  assert (Hst : SpatialDivisiveNormalization.threshold_ st0 = 1).
  { vm_compute in E0. injection E0 as <- _. reflexivity. }
  assert (Hnb : next_buffer d0 = 5%nat) by exact Hn.
  assert (Hlk : load (SpatialDivisiveNormalization.data
                        {| SpatialDivisiveNormalization.dim :=
                             SpatialDivisiveNormalization.dim
                               Examples.kernel3;
                           SpatialDivisiveNormalization.data :=
                             next_buffer Examples.device0 |}) d0 =
                Ok [1; 2; 1]).
  { cbn [SpatialDivisiveNormalization.data]. rewrite Hl.
    vm_compute. reflexivity. }
  assert (Hli : live (SpatialDivisiveNormalization.data Examples.input_a)
                  d0).
  { vm_compute in E0. injection E0 as _ <-. vm_compute. eauto. }
  destruct (first_forward_succeeds Examples.idle_kernel st0
              _ Examples.input_a d0 [1; 2; 1] Hc
              ltac:(cbn; lia) ltac:(cbn; lia) ltac:(cbn; lia)
              ltac:(cbn; lia) ltac:(cbn; lia) ltac:(cbn; lia)
              Hlk ltac:(rewrite Hnb; cbn; lia)
              Hli ltac:(rewrite Hnb; cbn; lia))
    as (d' & Hf & Hn' & _ & _ & Hsc & _).
  exists st0, d0, d'. split; [reflexivity |].
  rewrite Hst, Hnb in Hf. rewrite Hnb in Hn', Hsc.
  split; [exact Hf |]. split; [exact Hn' | exact Hsc].
Defined.

Lemma stage_lifetime_releases_all_witness :
  exists st0 d1 st d,
    SpatialDivisiveNormalization.new Examples.kernel3 1 Examples.device0 =
      Ok (st0, d1) /\
    SpatialDivisiveNormalization.forward_all Examples.idle_kernel st0
      [SpatialDivisiveNormalization.TensorData Examples.input_a;
       SpatialDivisiveNormalization.TensorData Examples.input_b] d1 =
      Ok (st, d) /\
    forall b,
      live b (SpatialDivisiveNormalization.destroy st d) <->
      live b Examples.device0.
Proof.
  destruct (SpatialDivisiveNormalization.new Examples.kernel3 1
              Examples.device0) as [[st0 d1] |] eqn:E0;
    [| vm_compute in E0; discriminate].
  destruct (SpatialDivisiveNormalization.forward_all Examples.idle_kernel
              st0
              [SpatialDivisiveNormalization.TensorData Examples.input_a;
               SpatialDivisiveNormalization.TensorData Examples.input_b] d1)
    as [[st d] |] eqn:E1.
  2: { vm_compute in E0. injection E0 as <- <-.
       vm_compute in E1. discriminate. }
  exists st0, d1, st, d. split; [reflexivity |]. split; [exact E1 |].
  apply (stage_lifetime_releases_all Examples.idle_kernel Examples.kernel3 1
           [SpatialDivisiveNormalization.TensorData Examples.input_a;
            SpatialDivisiveNormalization.TensorData Examples.input_b]
           Examples.device0 d1 d st0 st); [| exact E0 | exact E1].
  intros b [l Hl]. unfold Examples.device0 in Hl |- *.
  cbn [buffers next_buffer list_to_map foldr fst snd] in Hl |- *.
  destruct (decide (b < 4)%nat) as [Hlt | Hge]; [exact Hlt |].
  rewrite !lookup_insert_ne in Hl by lia.
  rewrite lookup_empty in Hl. discriminate Hl.
Defined.

(** ** The normalization coefficients *)

Import SpatialDivisiveNormalization.

Section Coefficients.
Context {F : Type} {ops : FloatOps F}.

Lemma fold_left_ext_in {A B} (f g : A -> B -> A) (l : list B) :
  (forall acc x, x ∈ l -> f acc x = g acc x) ->
  forall a, fold_left f l a = fold_left g l a.
Proof.
  induction l as [| x l IH]; intros Hfg a; [reflexivity |].
  cbn [fold_left]. rewrite Hfg by left. apply IH.
  intros acc y Hy. apply Hfg. right. exact Hy.
Qed.

Lemma fold_left_fmap {A B C} (f : A -> B -> A) (g : C -> B) (l : list C) :
  forall a, fold_left f (g <$> l) a = fold_left (fun a x => f a (g x)) l a.
Proof.
  induction l as [| x l IH]; intros a; [reflexivity |].
  cbn [fmap list_fmap fold_left]. apply IH.
Qed.

Lemma offsets_shift (r : Z) :
  offsets r = Z.add (- r) <$> seqZ 0 (2 * r + 1).
Proof.
  unfold offsets. rewrite fmap_add_seqZ. f_equal. lia.
Qed.

Lemma elem_of_offsets (r f : Z) : f ∈ offsets r <-> - r <= f <= r.
Proof. unfold offsets. rewrite elem_of_seqZ. lia. Qed.

Lemma at_index_lookup (l : list F) (i : Z) x :
  0 <= i -> l !! Z.to_nat i = Some x -> at_index l i = x.
Proof.
  intros Hi Hl. unfold at_index. rewrite nth_lookup, Hl. reflexivity.
Qed.

(** A run of [n] cells from [off] on, added up in the order of the
    index. *)
Lemma fold_fadd_run (k : list F) (off : Z) (n : nat) :
  0 <= off -> (Z.to_nat off + n <= length k)%nat ->
  forall acc,
  fold_left (fun tmp j => fadd tmp (at_index k (off + j)))
    (seqZ 0 (Z.of_nat n)) acc =
  fold_left fadd (take n (drop (Z.to_nat off) k)) acc.
Proof.
  intros Hoff Hlen acc.
  replace (take n (drop (Z.to_nat off) k))
    with ((fun j => at_index k (off + j)) <$> seqZ 0 (Z.of_nat n)).
  { rewrite fold_left_fmap. reflexivity. }
  apply list_eq. intros i. rewrite list_lookup_fmap.
  destruct (decide (i < n)%nat) as [Hi | Hi].
  - rewrite lookup_seqZ_lt by lia. cbn [fmap option_fmap option_map].
    rewrite lookup_take_lt, lookup_drop by lia.
    destruct (lookup_lt_is_Some_2 k (Z.to_nat off + i)) as [x Hx]; [lia |].
    rewrite Hx. f_equal. apply at_index_lookup; [lia |].
    rewrite <- Hx. f_equal. lia.
  - rewrite lookup_seqZ_ge by lia. cbn [fmap option_fmap option_map].
    symmetry. apply lookup_ge_None_2. rewrite length_take. lia.
Qed.

Lemma fold_fadd_rows (k : list F) (c : nat) : forall (n : nat) acc,
  fold_left
    (fun acc i => fold_left fadd (take c (drop (Z.to_nat i * c) k)) acc)
    (seqZ 0 (Z.of_nat n)) acc =
  fold_left fadd (take (n * c) k) acc.
Proof.
  induction n as [| n IH]; intros acc; [reflexivity |].
  rewrite seqZ_S, fold_left_app, IH. cbn [fold_left].
  rewrite Z.add_0_l, Nat2Z.id, <- fold_left_app, take_take_drop.
  f_equal. f_equal. lia.
Qed.

(** [tmp] of a two-dimensional kernel at a pixel whose whole window lies
    inside the image: every weight is added, row by row. *)
Lemma coef_2d_interior (k : list F) (width height ru rv u v : Z) :
  0 <= ru -> 0 <= rv ->
  length k = Z.to_nat ((2 * ru + 1) * (2 * rv + 1)) ->
  ru <= u < width - ru -> rv <= v < height - rv ->
  coef_2d k width height (2 * ru + 1) ru rv u v = fold_left fadd k fzero.
Proof.
  intros Hru Hrv Hlen Hu Hv. unfold coef_2d.
  set (c := Z.to_nat (2 * ru + 1)). set (n := Z.to_nat (2 * rv + 1)).
  assert (Hlen' : length k = (n * c)%nat) by (subst n c; lia).
  transitivity (fold_left fadd (take (n * c) k) fzero);
    [| rewrite take_ge by lia; reflexivity].
  rewrite <- fold_fadd_rows.
  rewrite (offsets_shift rv), fold_left_fmap.
  replace (2 * rv + 1) with (Z.of_nat n) by (subst n; lia).
  apply fold_left_ext_in. intros acc i Hi.
  apply elem_of_seqZ in Hi.
  replace (Z.to_nat i * c)%nat
    with (Z.to_nat (Z.of_nat (Z.to_nat i * c))) by lia.
  rewrite <- (fold_fadd_run k (Z.of_nat (Z.to_nat i * c)) c) by nia.
  rewrite (offsets_shift ru), fold_left_fmap.
  replace (2 * ru + 1) with (Z.of_nat c) by (subst c; lia).
  apply fold_left_ext_in. intros tmp j Hj.
  apply elem_of_seqZ in Hj.
  unfold inside.
  destruct (Z.leb_spec 0 (u + (- ru + j))); [| lia].
  destruct (Z.ltb_spec (u + (- ru + j)) width); [| lia].
  destruct (Z.leb_spec 0 (v + (- rv + i))); [| lia].
  destruct (Z.ltb_spec (v + (- rv + i)) height); [| lia].
  cbn [andb]. f_equal. f_equal. subst c. nia.
Qed.

Lemma grid_lookup {A} (g : Z -> Z -> A) (w : Z) : 0 <= w ->
  forall (n : nat) u v,
  0 <= u < w -> 0 <= v < Z.of_nat n ->
  (v ← seqZ 0 (Z.of_nat n); u ← seqZ 0 w; [g v u])
    !! Z.to_nat (v * w + u) = Some (g v u).
Proof.
  intros Hw n. induction n as [| n IH]; intros u v Hu Hv; [lia |].
  rewrite seqZ_S, bind_app. cbn [mbind list_bind]. rewrite app_nil_r.
  assert (Hlen : length (v0 ← seqZ 0 (Z.of_nat n);
                         u0 ← seqZ 0 w; [g v0 u0]) =
                 (n * Z.to_nat w)%nat).
  { rewrite (length_bind_const _ _ (Z.to_nat w)).
    - rewrite length_seqZ. lia.
    - intros x. rewrite bind_singleton_fmap, length_fmap, length_seqZ.
      reflexivity. }
  destruct (Z_lt_ge_dec v (Z.of_nat n)) as [Hlt | Hge].
  - rewrite lookup_app_l by (rewrite Hlen; nia). apply IH; lia.
  - assert (v = Z.of_nat n) as -> by lia.
    rewrite lookup_app_r by (rewrite Hlen; nia). rewrite Hlen.
    rewrite Z.add_0_l, bind_singleton_fmap, list_lookup_fmap.
    replace (Z.to_nat (Z.of_nat n * w + u) - n * Z.to_nat w)%nat
      with (Z.to_nat u) by nia.
    rewrite lookup_seqZ_lt by lia. cbn [fmap option_fmap option_map].
    f_equal. f_equal. lia.
Qed.

(** [std_coef_cpu[v * width + u]]. *)
Lemma std_coef_cpu_at onedim (kd : Int3) (kn : list F) (out_dim : Int3)
  (u v : Z) :
  0 <= u < ix out_dim 0 -> 0 <= v < ix out_dim 1 ->
  at_index (std_coef_cpu onedim kd kn out_dim) (v * ix out_dim 0 + u) =
  fdiv
    (if onedim then
       coef_1d kn (ix out_dim 0) (ix out_dim 1)
         (Z.quot (ix kd 0 - 1) 2) u v
     else
       coef_2d kn (ix out_dim 0) (ix out_dim 1) (ix kd 0)
         (Z.quot (ix kd 0 - 1) 2) (Z.quot (ix kd 1 - 1) 2) u v)
    (of_int (ix out_dim 2)).
Proof.
  intros Hu Hv. apply at_index_lookup; [nia |].
  unfold std_coef_cpu. cbv zeta.
  rewrite <- (Z2Nat.id (ix out_dim 1)) at 1 by lia.
  apply (grid_lookup
           (fun v u =>
              fdiv
                (if onedim then
                   coef_1d kn (ix out_dim 0) (ix out_dim 1)
                     (Z.quot (ix kd 0 - 1) 2) u v
                 else
                   coef_2d kn (ix out_dim 0) (ix out_dim 1) (ix kd 0)
                     (Z.quot (ix kd 0 - 1) 2) (Z.quot (ix kd 1 - 1) 2) u v)
                (of_int (ix out_dim 2)))); lia.
Qed.

(** X13: the coefficients of a two-dimensional kernel.  [std_coef_cpu] has
    one entry per pixel, row by row; for a kernel of odd sizes, the entry
    of a pixel whose whole window lies inside the image is the sum of all
    the normalized weights, added in the order they are stored, divided by
    the number of features. *)
Theorem std_coef_2d_interior (ksu ksv kz : Z) (kn : list F)
  (width height n_feats u v : Z) :
  let ru := Z.quot (ksu - 1) 2 in
  let rv := Z.quot (ksv - 1) 2 in
  let coef := std_coef_cpu false (ksu, ksv, kz) kn (width, height, n_feats) in
  1 <= ksu -> Z.odd ksu = true -> 1 <= ksv -> Z.odd ksv = true ->
  length kn = Z.to_nat (ksu * ksv) ->
  ru <= u < width - ru -> rv <= v < height - rv ->
  length coef = Z.to_nat (width * height) /\
  at_index coef (v * width + u) =
    fdiv (fold_left fadd kn fzero) (of_int n_feats).
Proof.
  intros ru rv coef Hksu Hou Hksv Hov Hlen Hu Hv.
  assert (Hru : ksu = 2 * ru + 1 /\ 0 <= ru).
  { subst ru. rewrite (Zodd_div2 ksu) at 1.
    - rewrite Z.quot_div_nonneg by lia.
      replace (ksu - 1) with (Z.div2 ksu * 2)
        by (rewrite (Zodd_div2 ksu) at 2;
            [lia | apply Zodd_bool_iff; exact Hou]).
      rewrite Z.div_mul by lia.
      split; [lia |]. rewrite Z.div2_div. apply Z.div_pos; lia.
    - apply Zodd_bool_iff. exact Hou. }
  assert (Hrv : ksv = 2 * rv + 1 /\ 0 <= rv).
  { subst rv. rewrite (Zodd_div2 ksv) at 1.
    - rewrite Z.quot_div_nonneg by lia.
      replace (ksv - 1) with (Z.div2 ksv * 2)
        by (rewrite (Zodd_div2 ksv) at 2;
            [lia | apply Zodd_bool_iff; exact Hov]).
      rewrite Z.div_mul by lia.
      split; [lia |]. rewrite Z.div2_div. apply Z.div_pos; lia.
    - apply Zodd_bool_iff. exact Hov. }
  destruct Hru as [Eu Hru]. destruct Hrv as [Ev Hrv].
  split.
  - subst coef. rewrite length_std_coef_cpu by (cbn [ix]; lia).
    reflexivity.
  - subst coef.
    pose proof (std_coef_cpu_at false (ksu, ksv, kz) kn
                  (width, height, n_feats) u v) as Hat.
    cbn [ix] in Hat. rewrite Hat by lia.
    fold ru rv. f_equal.
    rewrite Eu at 1.
    apply coef_2d_interior; try assumption; lia.
Qed.

End Coefficients.

Import SpatialDivisiveNormalization.

Lemma std_coef_2d_interior_witness :
  length (std_coef_cpu (F := Z) false (3, 3, 1) [1; 2; 3; 4; 5; 6; 7; 8; 9]
            (5, 5, 2)) = 25%nat /\
  at_index (std_coef_cpu (F := Z) false (3, 3, 1)
              [1; 2; 3; 4; 5; 6; 7; 8; 9] (5, 5, 2)) (2 * 5 + 2) =
    Z.quot 45 2.
Proof.
  exact (std_coef_2d_interior (F := Z) 3 3 1 [1; 2; 3; 4; 5; 6; 7; 8; 9]
           5 5 2 2 2
           ltac:(lia) ltac:(reflexivity) ltac:(lia) ltac:(reflexivity)
           ltac:(reflexivity) ltac:(vm_compute; intuition congruence)
           ltac:(vm_compute; intuition congruence)).
Defined.

(** ** Arithmetic that does not round *)

Section ExactLaws.
Context {F : Type} {ops : FloatOps F} {sums : ExactSum F}.

Lemma fadd_0_r (a : F) : fadd a fzero = a.
Proof. rewrite fadd_comm. apply fadd_0_l. Qed.


End ExactLaws.

(** The integers obey the laws. *)
Lemma exact_ops_sum : ExactSum Z.
Proof. split; intros; cbn [fadd fzero exact_ops]; lia. Qed.

Lemma exact_ops_product : ExactProduct Z.
Proof. split; intros; cbn [fadd fmul fzero exact_ops]; lia. Qed.

(** ** One-dimensional kernels where the arithmetic is exact *)

Section ExactCoefficients.
Import ExactFilter.
Context {F : Type} {ops : FloatOps F}.
Context {sums : ExactSum F} {products : ExactProduct F}.

Lemma clip_sum_acc (k : list F) (r x n : Z) (l : list Z) : forall a,
  fold_left
    (fun acc f =>
       if (0 <=? x + f) && (x + f <? n) then fadd acc (at_index k (f + r))
       else acc) l a =
  fadd a
    (fold_left
       (fun acc f =>
          if (0 <=? x + f) && (x + f <? n) then fadd acc (at_index k (f + r))
          else acc) l fzero).
Proof.
  induction l as [| f l IH]; intros a; cbn [fold_left].
  - symmetry. apply fadd_0_r.
  - rewrite IH.
    rewrite (IH (if (0 <=? x + f) && (x + f <? n)
                 then fadd fzero (at_index k (f + r)) else fzero)).
    destruct ((0 <=? x + f) && (x + f <? n)).
    + rewrite fadd_0_l, fadd_assoc. reflexivity.
    + rewrite fadd_0_l. reflexivity.
Qed.

(** The inner loop at one [v_filt]: the weight of the row times the
    clipped sum along the columns. *)
Lemma coef_1d_inner (k : list F) (w h r u v vf : Z) (l : list Z) :
  forall tmp,
  fold_left
    (fun tmp uf =>
       if inside (u + uf) (v + vf) w h
       then fadd tmp (fmul (at_index k (vf + r)) (at_index k (uf + r)))
       else tmp) l tmp =
  fadd tmp
    (if (0 <=? v + vf) && (v + vf <? h)
     then fmul (at_index k (vf + r))
            (fold_left
               (fun acc f =>
                  if (0 <=? u + f) && (u + f <? w)
                  then fadd acc (at_index k (f + r)) else acc) l fzero)
     else fzero).
Proof.
  induction l as [| uf l IH]; intros tmp; cbn [fold_left].
  - destruct (_ && _); rewrite ?fmul_0_r, fadd_0_r; reflexivity.
  - rewrite IH.
    match goal with
    | |- context [fold_left _ l (if ?c then ?a else ?b)] =>
        rewrite (clip_sum_acc k r u w l (if c then a else b))
    end.
    unfold inside.
    destruct (0 <=? u + uf), (u + uf <? w), (0 <=? v + vf), (v + vf <? h);
      cbn [andb];
      rewrite ?fadd_0_l, ?fadd_0_r, ?fmul_fadd_l, ?fadd_assoc;
      reflexivity.
Qed.

Lemma coef_1d_outer (k : list F) (h r v : Z) (su : F) (l : list Z) :
  forall acc,
  fold_left
    (fun tmp vf =>
       fadd tmp (if (0 <=? v + vf) && (v + vf <? h)
                 then fmul (at_index k (vf + r)) su else fzero)) l acc =
  fadd acc
    (fmul
       (fold_left
          (fun acc f =>
             if (0 <=? v + f) && (v + f <? h)
             then fadd acc (at_index k (f + r)) else acc) l fzero) su).
Proof.
  induction l as [| vf l IH]; intros acc; cbn [fold_left].
  - rewrite fmul_0_l, fadd_0_r. reflexivity.
  - rewrite IH.
    match goal with
    | |- context [fold_left _ l (if ?c then ?a else ?b)] =>
        rewrite (clip_sum_acc k r v h l (if c then a else b))
    end.
    destruct ((0 <=? v + vf) && (v + vf <? h));
      rewrite ?fadd_0_l, ?fadd_0_r, ?fmul_fadd_r, ?fadd_assoc;
      reflexivity.
Qed.

(** [tmp] of a one-dimensional kernel, at any pixel. *)
Lemma coef_1d_exact (k : list F) (w h r u v : Z) :
  coef_1d k w h r u v = fmul (window_sum k r v h) (window_sum k r u w).
Proof.
  unfold coef_1d, window_sum.
  rewrite (fold_left_ext_in _
             (fun tmp vf =>
                fadd tmp (if (0 <=? v + vf) && (v + vf <? h)
                          then fmul (at_index k (vf + r)) (window_sum k r u w)
                          else fzero))).
  - rewrite coef_1d_outer. unfold window_sum. apply fadd_0_l.
  - intros acc vf _. apply coef_1d_inner.
Qed.

(** X14: a one-dimensional kernel is applied along both axes, and the
    double loop is separable where the arithmetic is exact: with
    additions that are associative and commutative with neutral element
    0, and a multiplication that distributes over them, the coefficient
    at any pixel, border pixels included, is the product of two clipped
    sums of the normalized weights (one along the rows, one along the
    columns, taps outside the image left out), and that product is then
    divided by the number of features. *)
Theorem std_coef_1d_separable (ks ky kz : Z) (kn : list F)
  (width height n_feats u v : Z) :
  let r := Z.quot (ks - 1) 2 in
  0 <= u < width -> 0 <= v < height ->
  at_index (std_coef_cpu true (ks, ky, kz) kn
              (width, height, n_feats)) (v * width + u) =
  fdiv (fmul (window_sum kn r v height) (window_sum kn r u width))
       (of_int n_feats).
Proof.
  intros r Hu Hv.
  pose proof (std_coef_cpu_at true (ks, ky, kz) kn
                (width, height, n_feats) u v) as Hat.
  cbn [ix] in Hat. rewrite Hat by lia. fold r.
  rewrite coef_1d_exact. reflexivity.
Qed.

End ExactCoefficients.

Lemma std_coef_1d_separable_witness :
  at_index (std_coef_cpu (F := Z) true (3, 1, 1) [1; 2; 1] (4, 3, 3))
    (0 * 4 + 0) =
  fdiv (fmul (ExactFilter.window_sum [1; 2; 1] 1 0 3)
             (ExactFilter.window_sum [1; 2; 1] 1 0 4)) (of_int 3).
Proof.
  exact (std_coef_1d_separable (sums := exact_ops_sum)
           (products := exact_ops_product) 3 1 1 [1; 2; 1] 4 3 3 0 0
           ltac:(lia) ltac:(lia)).
Defined.

(** ** The columns the reduction of [MatVecMultThreads] keeps *)

Import Exact.

Section KeptColumns.




End KeptColumns.

(** ** What the default build computes for every column factor *)

Import Linear.

Section TreeReduction.
Context {F : Type} {ops : FloatOps F}.
















End TreeReduction.


(** ** The default build on a power-of-two column factor *)

Section ExactSums.
Context {F : Type} {ops : FloatOps F} {laws : ExactSum F}.











End ExactSums.

